(** * Web_based: the crawler (scraping/scrap.py) and the field extractor
    (scraping/excraction_features.py), embedded and verified.

    Python [str] values are sequences of Unicode code points; they are
    modelled as [list N].  The literals of the program are ASCII and are
    written as Rocq strings, embedded with [cp].  A [dict] is a list of
    key-value pairs in insertion order.  The file system is a finite map
    from paths to file texts; console output, network requests and sleeps
    are events of a trace, and the network is a stream of request outcomes.

    What the program takes from outside libraries stays a parameter: the
    Unicode tables beyond ASCII ([unicode_db]), [urlparse] and [urljoin],
    the row layout of [csv], and the HTML parser, whose result, the document
    tree, is the input of the functions that query it.  The regular
    expressions of the program are run by a backtracking matcher with the
    priorities of Python's [re]. *)

From Stdlib Require Import List String Ascii NArith ZArith QArith Bool Lia.
From Stdlib Require Import DecimalString DecimalNat.
From stdpp Require Import gmap list strings sorting.

Import ListNotations.
Local Open Scope N_scope.
Local Open Scope list_scope.

(** ** Code points and Python strings *)

Abbreviation pystr := (list N).

Fixpoint cp (s : string) : pystr :=
  match s with
  | EmptyString => []
  | String a s' => N_of_ascii a :: cp s'
  end.

Definition pystr_eqb (a b : pystr) : bool := bool_decide (a = b).

(** The part of the Unicode character database that the program consults
    beyond ASCII: [str.isalnum] (behind the regex class \w), the decimal
    digit property (behind \d) and [str.lower].  The ASCII range and the
    white-space property are fixed below; the rest is a parameter. *)
Record unicode_db : Type := {
  uni_alnum : N -> bool;
  uni_decimal : N -> bool;
  uni_lower : N -> pystr;
}.

Definition in_range (lo hi c : N) : bool := (lo <=? c) && (c <=? hi).

Definition ascii_upper_letter (c : N) : bool := in_range 65 90 c.
Definition ascii_lower_letter (c : N) : bool := in_range 97 122 c.
Definition ascii_letter (c : N) : bool := ascii_upper_letter c || ascii_lower_letter c.
Definition ascii_digit (c : N) : bool := in_range 48 57 c.
Definition ascii_alnum (c : N) : bool := ascii_letter c || ascii_digit c.

Definition ascii_tolower (c : N) : N := if ascii_upper_letter c then c + 32 else c.
Definition ascii_toupper (c : N) : N := if ascii_lower_letter c then c - 32 else c.

(** The four letters outside ASCII that case-insensitive matching identifies
    with ASCII letters: U+0130 and U+0131 (with i), U+017F (with s) and
    U+212A (with k). *)
Definition folds_to_ascii (c : N) : bool :=
  (c =? 304) || (c =? 305) || (c =? 383) || (c =? 8490).

(** [str.isspace] on one character, also the regex class \s. *)
Definition is_space (c : N) : bool :=
  in_range 9 13 c || in_range 28 32 c || (c =? 133) || (c =? 160)
  || (c =? 5760) || in_range 8192 8202 c || (c =? 8232) || (c =? 8233)
  || (c =? 8239) || (c =? 8287) || (c =? 12288).

Section Unicode.

Variable U : unicode_db.

Definition is_alnum (c : N) : bool :=
  if c <? 128 then ascii_alnum c else folds_to_ascii c || uni_alnum U c.

(** The regex class \w. *)
Definition is_word (c : N) : bool := (c =? 95) || is_alnum c.

(** The regex class \d. *)
Definition is_digit (c : N) : bool :=
  if c <? 128 then ascii_digit c else uni_decimal U c.

(** [str.lower], character by character.  Python lowers a capital sigma by
    its place in the word, to one of two letters that are both outside
    ASCII; the program only looks for ASCII markers in the result, which
    neither choice affects. *)
Definition lower_char (c : N) : pystr :=
  if c <? 128 then [ascii_tolower c] else uni_lower U c.

Definition py_lower (s : pystr) : pystr := flat_map lower_char s.

End Unicode.

(** ** String methods *)

Fixpoint lstrip (s : pystr) : pystr :=
  match s with
  | c :: s' => if is_space c then lstrip s' else s
  | [] => []
  end.

Definition rstrip (s : pystr) : pystr := rev (lstrip (rev s)).

(** [s.strip()] *)
Definition strip (s : pystr) : pystr := rstrip (lstrip s).

(** [s.startswith(p)] *)
Fixpoint startswith (p s : pystr) : bool :=
  match p, s with
  | [], _ => true
  | a :: p', b :: s' => (a =? b) && startswith p' s'
  | _ :: _, [] => false
  end.

(** [x in s] for strings: [x] occurs in [s] as a substring. *)
Fixpoint contains (x s : pystr) : bool :=
  startswith x s ||
  match s with
  | [] => false
  | _ :: s' => contains x s'
  end.

(** [sep.join(parts)] *)
Fixpoint join (sep : pystr) (parts : list pystr) : pystr :=
  match parts with
  | [] => []
  | [p] => p
  | p :: ps => p ++ sep ++ join sep ps
  end.

(** [s.split()]: the maximal runs of non-space characters.  [cur] is the run
    being read, reversed. *)
Fixpoint split_ws_aux (cur : pystr) (s : pystr) : list pystr :=
  match s with
  | [] => match cur with [] => [] | _ => [rev cur] end
  | c :: s' =>
      if is_space c
      then match cur with
           | [] => split_ws_aux [] s'
           | _ => rev cur :: split_ws_aux [] s'
           end
      else split_ws_aux (c :: cur) s'
  end.

Definition split_ws (s : pystr) : list pystr := split_ws_aux [] s.

(** [s.split(sep)] for a one-character separator. *)
Fixpoint split_on_aux (sep : N) (cur : pystr) (s : pystr) : list pystr :=
  match s with
  | [] => [rev cur]
  | c :: s' =>
      if c =? sep then rev cur :: split_on_aux sep [] s'
      else split_on_aux sep (c :: cur) s'
  end.

Definition split_on (sep : N) (s : pystr) : list pystr := split_on_aux sep [] s.

(** [s.rstrip(chars)] for a one-character set. *)
Fixpoint lstrip_char (ch : N) (s : pystr) : pystr :=
  match s with
  | c :: s' => if c =? ch then lstrip_char ch s' else s
  | [] => []
  end.

Definition rstrip_char (ch : N) (s : pystr) : pystr := rev (lstrip_char ch (rev s)).

(** Line boundaries of [str.splitlines]. *)
Definition is_linebreak (c : N) : bool :=
  in_range 10 13 c || in_range 28 30 c || (c =? 133) || (c =? 8232) || (c =? 8233).

(** [s.splitlines()]: CR LF counts as one boundary, and a final boundary
    opens no empty last line. *)
Fixpoint splitlines_aux (cur : pystr) (s : pystr) : list pystr :=
  match s with
  | [] => match cur with [] => [] | _ => [rev cur] end
  | c :: s' =>
      if is_linebreak c then
        rev cur ::
        match s' with
        | c' :: s'' =>
            if (c =? 13) && (c' =? 10) then splitlines_aux [] s''
            else splitlines_aux [] s'
        | [] => []
        end
      else splitlines_aux (c :: cur) s'
  end.

Definition splitlines (s : pystr) : list pystr := splitlines_aux [] s.

(** A slice [l[i:j]] with 0 <= i <= j. *)
Definition slice {A} (i j : nat) (l : list A) : list A := take (j - i) (drop i l).

(** [s.replace(a, b)] for one-character [a] and [b]. *)
Definition replace_char (a b : N) (s : pystr) : pystr :=
  map (fun c => if c =? a then b else c) s.

(** ** Regular expressions

    A backtracking matcher with the priorities of Python's [re]: the
    alternatives of | are tried left to right, a greedy repetition tries the
    longest run first and a lazy one the shortest, and [re.search] returns
    the match at the leftmost start position.  Repetition is over character
    sets, which is all the patterns of the program need. *)

Inductive cset : Type :=
| CLit (c : N)          (* one literal character *)
| CAny                  (* .  *)
| CDigit                (* \d *)
| CSpace                (* \s *)
| CWord                 (* \w *)
| COr (a b : cset)      (* union, as inside [...] *)
| CNot (a : cset).      (* [^...] *)

Inductive regex : Type :=
| REmpty
| RSet (s : cset)
| RSeq (a b : regex)
| RAlt (a b : regex)
| RRep (greedy : bool) (lo : nat) (hi : option nat) (s : cset)
| RGroup (i : nat) (a : regex)
| RBol                  (* ^  *)
| RWordB.               (* \b *)

Record re_flags : Type := { IGNORECASE : bool; MULTILINE : bool }.

Definition no_flags : re_flags := {| IGNORECASE := false; MULTILINE := false |}.
Definition re_I : re_flags := {| IGNORECASE := true; MULTILINE := false |}.
Definition re_M : re_flags := {| IGNORECASE := false; MULTILINE := true |}.

(** A literal pattern character against a text character under IGNORECASE:
    a cased ASCII letter matches both of its cases and the non-ASCII letters
    that fold to it; any other pattern character of the program (digits,
    punctuation, the currency signs) is uncased and matches only itself. *)
Definition ci_eq (p ch : N) : bool :=
  if ascii_letter p then
    let lo := ascii_tolower p in
    ((ch <? 128) && (ascii_tolower ch =? lo))
    || ((lo =? 105) && ((ch =? 304) || (ch =? 305)))
    || ((lo =? 115) && (ch =? 383))
    || ((lo =? 107) && (ch =? 8490))
  else ch =? p.

Record match_obj : Type := {
  m_start : nat;                   (* m.start() *)
  m_whole : pystr;                 (* m.group(0) *)
  m_groups : list (nat * pystr);   (* the numbered groups that took part *)
}.

(** [m.group(i)] for i >= 1; every pattern of the program has its group 1
    outside any optional part, so the group always took part. *)
Definition group (m : match_obj) (i : nat) : pystr :=
  match find (fun g => Nat.eqb (fst g) i) (m_groups m) with
  | Some g => snd g
  | None => []
  end.

Section Regex.

Variable U : unicode_db.
Variable fl : re_flags.

Fixpoint cset_match (s : cset) (ch : N) : bool :=
  match s with
  | CLit c => if IGNORECASE fl then ci_eq c ch else ch =? c
  | CAny => negb (ch =? 10)
  | CDigit => is_digit U ch
  | CSpace => is_space ch
  | CWord => is_word U ch
  | COr a b => cset_match a ch || cset_match b ch
  | CNot a => negb (cset_match a ch)
  end.

(** The matcher walks a cursor: [bef] is the text before the position,
    nearest character first, [aft] the text from the position on. *)
Definition word_before (bef : pystr) : bool :=
  match bef with c :: _ => is_word U c | [] => false end.

Definition word_after (aft : pystr) : bool :=
  match aft with c :: _ => is_word U c | [] => false end.

Definition at_boundary (bef aft : pystr) : bool :=
  xorb (word_before bef) (word_after aft).

Definition at_bol (bef : pystr) : bool :=
  match bef with
  | [] => true
  | c :: _ => MULTILINE fl && (c =? 10)
  end.

Definition more_allowed (hi : option nat) : bool :=
  match hi with Some O => false | _ => true end.

Definition one_less (hi : option nat) : option nat :=
  match hi with Some n => Some (pred n) | None => None end.

Section Rep.

Context {R : Type}.
Variable s : cset.
Variable greedy : bool.
Variable k : pystr -> pystr -> option R.

(** [s{lo,hi}] (greedy) or [s{lo,hi}?] (lazy) followed by the rest of the
    pattern, [k]. *)
Fixpoint rep_match (lo : nat) (hi : option nat) (bef aft : pystr) : option R :=
  let stop := match lo with O => k bef aft | S _ => None end in
  let more :=
    match aft with
    | ch :: aft' =>
        if more_allowed hi && cset_match s ch
        then rep_match (pred lo) (one_less hi) (ch :: bef) aft'
        else None
    | [] => None
    end in
  if greedy
  then match more with Some r => Some r | None => stop end
  else match stop with Some r => Some r | None => more end.

End Rep.

Definition groups := list (nat * pystr).
Definition mresult : Type := pystr * pystr * groups.

(** The text between two cursor positions of one walk. *)
Definition consumed (bef0 bef1 : pystr) : pystr :=
  rev (take (length bef1 - length bef0) bef1).

Fixpoint rmatch (r : regex) (bef aft : pystr) (g : groups)
    (k : pystr -> pystr -> groups -> option mresult) : option mresult :=
  match r with
  | REmpty => k bef aft g
  | RSet s =>
      match aft with
      | ch :: aft' => if cset_match s ch then k (ch :: bef) aft' g else None
      | [] => None
      end
  | RSeq a b => rmatch a bef aft g (fun bef' aft' g' => rmatch b bef' aft' g' k)
  | RAlt a b =>
      match rmatch a bef aft g k with
      | Some res => Some res
      | None => rmatch b bef aft g k
      end
  | RRep greedy lo hi s =>
      rep_match s greedy (fun bef' aft' => k bef' aft' g) lo hi bef aft
  | RGroup i a =>
      rmatch a bef aft g
        (fun bef' aft' g' => k bef' aft' ((i, consumed bef bef') :: g'))
  | RBol => if at_bol bef then k bef aft g else None
  | RWordB => if at_boundary bef aft then k bef aft g else None
  end.

Definition accept (bef aft : pystr) (g : groups) : option mresult :=
  Some (bef, aft, g).

(** One attempt at the cursor position. *)
Definition match_here (r : regex) (bef aft : pystr) : option match_obj :=
  match rmatch r bef aft [] accept with
  | Some (bef', _, g) =>
      Some {| m_start := length bef; m_whole := consumed bef bef'; m_groups := g |}
  | None => None
  end.

Fixpoint search_from (r : regex) (bef aft : pystr) : option match_obj :=
  match match_here r bef aft with
  | Some m => Some m
  | None =>
      match aft with
      | ch :: aft' => search_from r (ch :: bef) aft'
      | [] => None
      end
  end.

(** [re.search(r, text, flags)] *)
Definition re_search (r : regex) (text : pystr) : option match_obj :=
  search_from r [] text.

(** [re.match(r, text, flags)] *)
Definition re_match (r : regex) (text : pystr) : option match_obj :=
  match_here r [] text.

End Regex.

(** Pattern building. *)
Fixpoint lit (s : string) : regex :=
  match s with
  | EmptyString => REmpty
  | String a s' => RSeq (RSet (CLit (N_of_ascii a))) (lit s')
  end.

Fixpoint seqs (rs : list regex) : regex :=
  match rs with
  | [] => REmpty
  | r :: rs' => RSeq r (seqs rs')
  end.

Fixpoint alts (r : regex) (rs : list regex) : regex :=
  match rs with
  | [] => r
  | r' :: rs' => RAlt r (alts r' rs')
  end.

Definition star (s : cset) : regex := RRep true 0 None s.
Definition plus (s : cset) : regex := RRep true 1 None s.
Definition opt_char (s : cset) : regex := RRep true 0 (Some 1%nat) s.
Definition times (n : nat) (s : cset) : regex := RRep true n (Some n) s.
Definition opt (r : regex) : regex := RAlt r REmpty.

(** ** Dictionaries

    A Python [dict] keeps its keys in insertion order; assigning to a key
    that is present keeps the key's place. *)

Definition dict : Type := list (string * pystr).

Fixpoint dict_set (d : dict) (k : string) (v : pystr) : dict :=
  match d with
  | [] => [(k, v)]
  | (k', v') :: d' =>
      if String.eqb k' k then (k, v) :: d' else (k', v') :: dict_set d' k v
  end.

Fixpoint dict_get (d : dict) (k : string) : option pystr :=
  match d with
  | [] => None
  | (k', v') :: d' => if String.eqb k' k then Some v' else dict_get d' k
  end.

Definition dict_keys (d : dict) : list string := map fst d.
Definition dict_values (d : dict) : list pystr := map snd d.

(** ** excraction_features.py: the field extractor *)

Definition undefined : pystr := cp "undefined".

(** [ftype.title()] on the ASCII phrases of [funding_types]: a letter that
    follows a letter is lowered, any other letter is raised. *)
Fixpoint title_aux (prev_cased : bool) (s : string) : pystr :=
  match s with
  | EmptyString => []
  | String a s' =>
      let c := N_of_ascii a in
      if ascii_letter c
      then (if prev_cased then ascii_tolower c else ascii_toupper c) :: title_aux true s'
      else c :: title_aux false s'
  end.

Definition title (s : string) : pystr := title_aux false s.

Definition funding_types : list string :=
  ["seed"; "pre-seed"; "series a"; "series b"; "series c";
   "venture"; "angel"; "growth"; "bridge"]%string.

(** r"^Source:\s*(https?://[^\s]+)" *)
Definition pat_source : regex :=
  seqs [RBol; lit "Source:"; star CSpace;
        RGroup 1 (seqs [lit "http"; opt_char (CLit 115); lit "://";
                        plus (CNot CSpace)])].

(** r"Date:\s*([\w\s,]+)" *)
Definition pat_date : regex :=
  seqs [lit "Date:"; star CSpace;
        RGroup 1 (plus (COr CWord (COr CSpace (CLit 44))))].

(** r"\b(?:January|...|December)\s+\d{1,2},\s+\d{4}\b" *)
Definition pat_body_date : regex :=
  seqs [RWordB;
        alts (lit "January")
          [lit "February"; lit "March"; lit "April"; lit "May"; lit "June";
           lit "July"; lit "August"; lit "September"; lit "October";
           lit "November"; lit "December"];
        plus CSpace; RRep true 1 (Some 2%nat) CDigit; lit ",";
        plus CSpace; times 4 CDigit; RWordB].

(** r"\bfounded in (\d{4})" *)
Definition pat_founded : regex :=
  seqs [RWordB; lit "founded in "; RGroup 1 (times 4 CDigit)].

(** r"([€$£]\s?\d+(?:[\.,]?\d+)?(?:\s?(?:million|billion|m|k|bn))?)";
    the euro sign is U+20AC and the pound sign U+00A3. *)
Definition pat_amount : regex :=
  RGroup 1
    (seqs [RSet (COr (CLit 8364) (COr (CLit 36) (CLit 163)));
           opt_char CSpace; plus CDigit;
           opt (seqs [opt_char (COr (CLit 46) (CLit 44)); plus CDigit]);
           opt (seqs [opt_char CSpace;
                      alts (lit "million") [lit "billion"; lit "m"; lit "k"; lit "bn"]])]).

(** rf"\b{ftype} funding\b"; the phrases of [funding_types] hold letters,
    spaces and a hyphen, all of which stand for themselves in a pattern. *)
Definition pat_ftype (ftype : string) : regex :=
  seqs [RWordB; lit (ftype ++ " funding"); RWordB].

(** r"^(.*?)(?:,| has| announced| raises| raised| secured)" *)
Definition pat_company : regex :=
  seqs [RBol; RGroup 1 (RRep false 0 None CAny);
        alts (lit ",")
          [lit " has"; lit " announced"; lit " raises"; lit " raised"; lit " secured"]].

Section Extractor.

Variable U : unicode_db.

(** The loop over [funding_types], left at the first phrase found. *)
Fixpoint funding_type_loop (text : pystr) (types : list string) (info : dict) : dict :=
  match types with
  | [] => info
  | ftype :: types' =>
      match re_search U re_I (pat_ftype ftype) text with
      | Some _ => dict_set info "funding_type" (title ftype)
      | None => funding_type_loop text types' info
      end
  end.

(** The test of one line of the company-name window. *)
Definition company_of_line (line : pystr) : option pystr :=
  match re_match U re_I pat_company line with
  | Some m =>
      let n := length (split_ws (group m 1)) in
      if (2 <=? n)%nat && (n <=? 5)%nat then Some (strip (group m 1)) else None
  | None => None
  end.

(** The loop over [lines[2:6]], left at the first line accepted. *)
Fixpoint company_loop (lines : list pystr) (info : dict) : dict :=
  match lines with
  | [] => info
  | line :: lines' =>
      match company_of_line line with
      | Some name => dict_set info "company_name" name
      | None => company_loop lines' info
      end
  end.

Definition extract_info_from_text (text : pystr) : dict :=
  let info : dict :=
    [("company_name", undefined); ("funding_amount", undefined);
     ("funding_type", undefined); ("article_date", undefined);
     ("company_since", undefined); ("article_url", undefined)]%string in
  let info :=
    match re_search U re_M pat_source text with
    | Some m => dict_set info "article_url" (group m 1)
    | None => info
    end in
  let info :=
    match re_search U no_flags pat_date text with
    | Some date_match => dict_set info "article_date" (group date_match 1)
    | None =>
        match re_search U no_flags pat_body_date text with
        | Some body_date => dict_set info "article_date" (m_whole body_date)
        | None => info
        end
    end in
  let info :=
    match re_search U re_I pat_founded text with
    | Some founded_match => dict_set info "company_since" (group founded_match 1)
    | None => info
    end in
  let info :=
    match re_search U re_I pat_amount text with
    | Some amount_match =>
        dict_set info "funding_amount" (replace_char 160 32 (group amount_match 1))
    | None => info
    end in
  let info := funding_type_loop text funding_types info in
  let lines := splitlines (strip text) in
  company_loop (slice 2 6 lines) info.

End Extractor.

(** ** Parsed documents

    [BeautifulSoup(html, "lxml")] is the HTML parser, an outside library;
    the functions below start from the tree it returns.  A node is a string
    of the page, some other string that [get_text] passes over (a comment, a
    declaration), or a tag with its attributes and children. *)

#[local] Set Warnings "-register-all,-clear-no-such-hyp".

Inductive node : Type :=
| Text (s : pystr)
| Other (s : pystr)
| Elem (name : string) (attrs : list (string * pystr)) (children : list node).

(** All nodes below [n] in document order, [n] itself left out. *)
Fixpoint descendants (n : node) : list node :=
  match n with
  | Elem _ _ cs => flat_map (fun c => c :: descendants c) cs
  | _ => []
  end.

Definition find_all (p : node -> bool) (n : node) : list node :=
  filter (fun d => p d = true) (descendants n).

Definition find (p : node -> bool) (n : node) : option node :=
  head (find_all p n).

Definition attr (k : string) (n : node) : option pystr :=
  match n with
  | Elem _ ats _ => snd <$> List.find (fun a => String.eqb (fst a) k) ats
  | _ => None
  end.

Definition is_tag (name : string) (n : node) : bool :=
  match n with
  | Elem nm _ _ => String.eqb nm name
  | _ => false
  end.

Definition is_any_tag (names : list string) (n : node) : bool :=
  existsb (fun name => is_tag name n) names.

(** A class filter: the wanted string is one of the tag's classes, or is the
    tag's whole class list joined by single spaces. *)
Definition has_class (want : pystr) (n : node) : bool :=
  match attr "class" n with
  | Some v =>
      let classes := split_ws v in
      existsb (pystr_eqb want) classes || pystr_eqb want (join [32] classes)
  | None => false
  end.

(** [soup.find(name, {"class": c})], and [soup.find(name, {})] for [None]. *)
Definition selects (name : string) (class : option string) (n : node) : bool :=
  is_tag name n &&
  match class with
  | Some c => has_class (cp c) n
  | None => true
  end.

Fixpoint all_strings (n : node) : list pystr :=
  match n with
  | Text s => [s]
  | Other _ => []
  | Elem _ _ cs => flat_map all_strings cs
  end.

Definition newline : pystr := [10].

(** [tag.get_text(separator=sep, strip=True)]: every string is stripped, the
    empty ones are dropped, the rest joined. *)
Definition get_text (sep : pystr) (n : node) : pystr :=
  join sep (filter (fun t => t <> []) (map strip (all_strings n))).

(** [tag.string] *)
Fixpoint node_string (n : node) : option pystr :=
  match n with
  | Text s => Some s
  | Other s => Some s
  | Elem _ _ [c] => node_string c
  | Elem _ _ _ => None
  end.

Definition bad_tags : list string := ["script"; "style"; "noscript"; "iframe"]%string.

(** The node after [bad.decompose()] for every bad tag below it. *)
Fixpoint strip_bad (n : node) : node :=
  match n with
  | Elem nm ats cs =>
      Elem nm ats
        ((fix go (l : list node) : list node :=
            match l with
            | [] => []
            | c :: l' => if is_any_tag bad_tags c then go l' else strip_bad c :: go l'
            end) cs)
  | _ => n
  end.

(** The tree after the first node that satisfies [p], in document order, was
    changed in place by [f]; [None] when no node satisfies [p]. *)
Fixpoint update_first (p : node -> bool) (f : node -> node) (n : node) : option node :=
  match n with
  | Elem nm ats cs =>
      Elem nm ats <$>
        ((fix go (l : list node) : option (list node) :=
            match l with
            | [] => None
            | c :: l' =>
                if p c then Some (f c :: l')
                else match update_first p f c with
                     | Some c' => Some (c' :: l')
                     | None => cons c <$> go l'
                     end
            end) cs)
  | _ => None
  end.

(** ** The world of the crawler *)

Inductive py_exn : Type :=
| ConnectionError
| ReadTimeout
| HTTPError (status : Z)
| ValueError
| UnicodeEncodeError
| KeyboardInterrupt.

(** [except Exception] catches every exception but the ones that derive from
    [BaseException] alone. *)
Definition is_Exception (e : py_exn) : bool :=
  match e with
  | KeyboardInterrupt => false
  | _ => true
  end.

Inductive outcome (A : Type) : Type :=
| Returned (a : A)
| Raised (e : py_exn).
Arguments Returned {A} a.
Arguments Raised {A} e.

Record response : Type := {
  status_code : Z;
  content_type : option pystr;    (* the Content-Type header, when sent *)
  resp_text : pystr;
}.

Inductive get_outcome : Type :=
| GetRaises (e : py_exn)
| GetResponse (r : response).

(** The lines the program prints, with the values it formats into them. *)
Inductive log_line : Type :=
| SAVED (basename : pystr)
| ERROR_fetch_failed (url : pystr) (attempt max_retries : Z) (e : py_exn)
| INFO_retrying_in (sleep_time : Q)
| ERROR_giving_up (url : pystr)
| WARN_unexpected_content_type (url ctype : pystr)
| WARN_no_data_to_write
| SUCCESS_written (output_file : pystr).

Inductive event : Type :=
| EvGet (url : pystr) (timeout : Z)
| EvSleep (seconds : Q)
| EvPrint (line : log_line).

(** Files by path, the outcomes of the GET requests still to come, and what
    has happened so far, oldest event first. *)
Record world : Type := {
  fs : gmap pystr pystr;
  pending : nat -> get_outcome;
  trace : list event;
}.

Definition emit (e : event) (w : world) : world :=
  {| fs := fs w; pending := pending w; trace := trace w ++ [e] |}.

Definition print (l : log_line) (w : world) : world := emit (EvPrint l) w.

Definition sleep (secs : Q) (w : world) : world := emit (EvSleep secs) w.

(** [scraper.get(url, timeout=timeout)] *)
Definition scraper_get (url : pystr) (timeout : Z) (w : world) : get_outcome * world :=
  (pending w O,
   {| fs := fs w; pending := fun n => pending w (S n);
      trace := trace w ++ [EvGet url timeout] |}).

(** [open(path, "w")], the writes and the close, for a text that is written
    in full. *)
Definition write_file (path text : pystr) (w : world) : world :=
  {| fs := <[path := text]> (fs w); pending := pending w; trace := trace w |}.

(** The UTF-8 bytes of a code point; none for a surrogate, which the codec
    refuses, and none above U+10FFFF, where no character is. *)
Definition utf8_char (c : N) : option (list N) :=
  if c <? 128 then Some [c]
  else if c <? 2048 then Some [192 + c / 64; 128 + c mod 64]
  else if (55296 <=? c) && (c <=? 57343) then None
  else if c <? 65536 then
    Some [224 + c / 4096; 128 + (c / 64) mod 64; 128 + c mod 64]
  else if c <? 1114112 then
    Some [240 + c / 262144; 128 + (c / 4096) mod 64; 128 + (c / 64) mod 64; 128 + c mod 64]
  else None.

(** [s.encode("utf-8")]; [None] when it raises [UnicodeEncodeError]. *)
Fixpoint utf8_encode (s : pystr) : option (list N) :=
  match s with
  | [] => Some []
  | c :: s' =>
      match utf8_char c, utf8_encode s' with
      | Some b, Some bs => Some (b ++ bs)
      | _, _ => None
      end
  end.

Definition encodable (s : pystr) : bool :=
  match utf8_encode s with Some _ => true | None => false end.

(** The [f.write] calls on a stream opened with [encoding="utf-8"]: each
    call encodes its whole argument first, so a text that cannot be encoded
    raises [UnicodeEncodeError] and adds nothing; what the calls before it
    wrote stays. *)
Fixpoint write_all (chunks : list pystr) (written : pystr) : outcome unit * pystr :=
  match chunks with
  | [] => (Returned tt, written)
  | chunk :: chunks' =>
      if encodable chunk then write_all chunks' (written ++ chunk)
      else (Raised UnicodeEncodeError, written)
  end.

(** [with open(path, "w", encoding="utf-8") as f:] around these calls: the
    file is created empty, and closed with what was written also when a
    call raises. *)
Definition write_chunks (path : pystr) (chunks : list pystr) (w : world)
    : outcome unit * world :=
  let '(r, text) := write_all chunks [] in
  (r, write_file path text w).

(** [os.path.exists(path)] *)
Definition os_path_exists (path : pystr) (w : world) : bool :=
  bool_decide (is_Some (fs w !! path)).

(** [os.path.join(a, b)] with the POSIX separator. *)
Definition os_path_join (a b : pystr) : pystr :=
  if startswith [47] b then b
  else match last a with
       | None => b
       | Some c => if c =? 47 then a ++ b else a ++ [47] ++ b
       end.

(** [os.path.basename(p)] *)
Definition os_path_basename (p : pystr) : pystr :=
  default [] (last (split_on 47 p)).

(** ** scrap.py *)

Definition BASE_URL : pystr := cp "https://www.finsmes.com/".
Definition SAVE_DIR : pystr := cp "articles".
Definition MAX_RETRIES : Z := 3.
Definition RETRY_BACKOFF : Q := 2.
Definition REQUEST_TIMEOUT : Z := 15.

(** [re.sub(r"\s+", "_", s)]: [in_run] tells that the run of spaces being
    read was already replaced. *)
Fixpoint sub_spaces (in_run : bool) (s : pystr) : pystr :=
  match s with
  | [] => []
  | c :: s' =>
      if is_space c
      then (if in_run then sub_spaces true s' else 95 :: sub_spaces true s')
      else c :: sub_spaces false s'
  end.

(** The class [A-Za-z0-9_\-\.] *)
Definition safe_char (c : N) : bool :=
  ascii_alnum c || (c =? 95) || (c =? 45) || (c =? 46).

(** [l[:n]]: the first [n] items, or all but the last [-n] when [n] is
    negative. *)
Definition slice_to {A} (n : Z) (l : list A) : list A :=
  if (0 <=? n)%Z then take (Z.to_nat n) l
  else take (length l - Z.to_nat (- n)) l.

Definition safe_filename (s : pystr) (max_len : Z) : pystr :=
  let s := strip s in
  let s := sub_spaces false s in
  let s := filter (fun c => safe_char c = true) s in
  let s := if (max_len <? Z.of_nat (length s))%Z then slice_to max_len s else s in
  match s with
  | [] => cp "article"
  | _ => s
  end.

(** [str(count)] *)
Definition str_of_nat (n : nat) : pystr := cp (NilZero.string_of_uint (Nat.to_uint n)).

Section Scraper.

Variable U : unicode_db.

(** [urlparse(url).path] and [urljoin(base, href)] of [urllib.parse], an
    outside library. *)
Variable url_path : pystr -> pystr.
Variable urljoin : pystr -> pystr -> pystr.

(** The file name the writer starts from: [safe_filename(base)]. *)
Definition artifact_stem (title url : pystr) : pystr :=
  let slug :=
    match last (split_on 47 (rstrip_char 47 (url_path url))) with
    | Some ((_ :: _) as seg) => seg
    | _ => cp "article"
    end in
  let base := strip (slug ++ cp "_" ++ take 60 title) in
  safe_filename base 120.

(** The path tried when [count - 1] suffixed names were found taken. *)
Definition suffixed_path (stem : pystr) (count : nat) : pystr :=
  os_path_join SAVE_DIR (stem ++ cp "_" ++ str_of_nat count ++ cp ".txt").

(** The loop [while os.path.exists(filepath)]; [None] when the fuel runs out
    before a free path is met. *)
Fixpoint free_path (fuel : nat) (stem : pystr) (filepath : pystr) (count : nat)
    (w : world) : option pystr :=
  if os_path_exists filepath w then
    match fuel with
    | O => None
    | S fuel' => free_path fuel' stem (suffixed_path stem count) (S count) w
    end
  else Some filepath.

(** The text handed to the four [f.write] calls. *)
Definition artifact_text (title url content : pystr) : pystr :=
  (cp "Source: " ++ url ++ [10])
  ++ (cp "Title: " ++ title ++ [10])
  ++ (repeat 61 80 ++ [10; 10])
  ++ content.

(** The directory holds finitely many files, so the loop ends within as many
    rounds as there are files; the fuel is that bound. *)
Definition save_article_to_txt (title url content : pystr) (w : world) : option world :=
  let stem := artifact_stem title url in
  let filename := stem ++ cp ".txt" in
  let filepath := os_path_join SAVE_DIR filename in
  match free_path (size (fs w)) stem filepath 1 w with
  | Some filepath =>
      let w := write_file filepath (artifact_text title url content) w in
      Some (print (SAVED (os_path_basename filepath)) w)
  | None => None
  end.

(** [resp.raise_for_status()] *)
Definition raise_for_status (r : response) : option py_exn :=
  if ((400 <=? status_code r) && (status_code r <? 600))%Z
  then Some (HTTPError (status_code r)) else None.

(** The [except Exception] clause of [fetch_html], up to the next round of
    the loop: the new attempt count, the new backoff and the world. *)
Definition on_failure (url : pystr) (max_retries attempt : Z) (backoff : Q)
    (e : py_exn) (w : world) : Z * Q * world :=
  let attempt := (attempt + 1)%Z in
  let w := print (ERROR_fetch_failed url attempt max_retries e) w in
  if (attempt <? max_retries)%Z
  then
    let sleep_time := (backoff * RETRY_BACKOFF)%Q in
    let w := print (INFO_retrying_in sleep_time) w in
    let w := sleep sleep_time w in
    (attempt, (backoff * RETRY_BACKOFF)%Q, w)
  else (attempt, backoff, print (ERROR_giving_up url) w).

(** The loop [while attempt < max_retries]; [None] when the fuel runs out. *)
Fixpoint fetch_loop (fuel : nat) (url : pystr) (timeout max_retries : Z)
    (attempt : Z) (backoff : Q) (w : world) : option (outcome (option pystr) * world) :=
  if (attempt <? max_retries)%Z then
    match fuel with
    | O => None
    | S fuel' =>
        let failed e w :=
          if is_Exception e then
            let '(attempt', backoff', w') := on_failure url max_retries attempt backoff e w in
            fetch_loop fuel' url timeout max_retries attempt' backoff' w'
          else Some (Raised e, w) in
        match scraper_get url timeout w with
        | (GetRaises e, w) => failed e w
        | (GetResponse resp, w) =>
            match raise_for_status resp with
            | Some e => failed e w
            | None =>
                let ctype := default [] (content_type resp) in
                let w :=
                  if negb (contains (cp "text/html") ctype)
                     && negb (contains (cp "application/xhtml+xml") ctype)
                  then print (WARN_unexpected_content_type url ctype) w
                  else w in
                Some (Returned (Some (resp_text resp)), w)
            end
        end
    end
  else Some (Returned None, w).

(** Every failed round raises [attempt] by one, so [max_retries] rounds are
    enough fuel. *)
Definition fetch_html (url : pystr) (timeout max_retries : Z) (w : world)
    : option (outcome (option pystr) * world) :=
  fetch_loop (Z.to_nat max_retries) url timeout max_retries 0 1 w.

Definition has_href (n : node) : bool :=
  is_tag "a" n && bool_decide (is_Some (attr "href" n)).

(** [a["href"]] *)
Definition href (a : node) : pystr := default [] (attr "href" a).

Definition excluded_markers : list string :=
  [".pdf"; ".jpg"; ".png"; "#"; "?replytocom"]%string.

(** The primary rule: the first link inside each title heading. *)
Definition primary_links (soup : node) (base_url : pystr) : list pystr :=
  flat_map
    (fun h3 =>
       match find has_href h3 with
       | Some a => [urljoin base_url (href a)]
       | None => []
       end)
    (find_all (fun n => is_tag "h3" n && has_class (cp "entry-title td-module-title") n) soup).

(** The test of one anchor in fallback #1. *)
Definition fallback_link (base_url : pystr) (a : node) : list pystr :=
  let href := href a in
  if startswith base_url href || startswith base_url (urljoin base_url href) then
    let full := urljoin base_url href in
    if existsb (fun x => contains (cp x) (py_lower U full)) excluded_markers
    then []
    else [full]
  else [].

Definition fallback_links (soup : node) (base_url : pystr) : list pystr :=
  flat_map (fallback_link base_url) (find_all has_href soup).

(** The list [links] when the deduplication starts. *)
Definition collected_links (soup : node) (base_url : pystr) : list pystr :=
  match primary_links soup base_url with
  | [] => fallback_links soup base_url
  | links => links
  end.

(** One round of the deduplication loop over [(seen, uniq_links)]. *)
Definition dedup_step (st : gset pystr * list pystr) (l : pystr) : gset pystr * list pystr :=
  if decide (l ∈ st.1) then st else ({[l]} ∪ st.1, st.2 ++ [l]).

Definition dedup (links : list pystr) : list pystr :=
  (foldl dedup_step (∅, []) links).2.

Definition extract_article_links (soup : node) (base_url : pystr) : list pystr :=
  dedup (collected_links soup base_url).

End Scraper.

(** *** The calls with the errors of the libraries

    The functions above are the program on the inputs on which every call
    into a library returns: [urlparse] and [urljoin] take the URL, and the
    stream can encode the text.  A call on any input can also raise: the two
    functions of [urllib.parse] raise [ValueError] on some URLs, such as one
    with an unbalanced bracket in its host, and a [write] raises
    [UnicodeEncodeError] on a lone surrogate.  Nothing in the program
    catches these. *)

(** The arguments of the four [f.write] calls. *)
Definition artifact_chunks (title url content : pystr) : list pystr :=
  [cp "Source: " ++ url ++ [10];
   cp "Title: " ++ title ++ [10];
   repeat 61 80 ++ [10; 10];
   content].

Module Call.
Section Call.

Variable U : unicode_db.

(** [urlparse(url).path] and [urljoin(base, href)]; [None] when the call
    raises [ValueError]. *)
Variable urlparse_path : pystr -> option pystr.
Variable urljoin : pystr -> pystr -> option pystr.

Definition save_article_to_txt (title url content : pystr) (w : world)
    : option (outcome unit * world) :=
  match urlparse_path url with
  | None => Some (Raised ValueError, w)
  | Some path =>
      let stem := artifact_stem (fun _ => path) title url in
      let filename := stem ++ cp ".txt" in
      let filepath := os_path_join SAVE_DIR filename in
      match free_path (size (fs w)) stem filepath 1 w with
      | Some filepath =>
          match write_chunks filepath (artifact_chunks title url content) w with
          | (Returned _, w) => Some (Returned tt, print (SAVED (os_path_basename filepath)) w)
          | (Raised e, w) => Some (Raised e, w)
          end
      | None => None
      end
  end.

(** The loop over the title headings. *)
Fixpoint primary_loop (base_url : pystr) (h3s : list node) (links : list pystr)
    : outcome (list pystr) :=
  match h3s with
  | [] => Returned links
  | h3 :: h3s' =>
      match find has_href h3 with
      | Some a =>
          match urljoin base_url (href a) with
          | Some full => primary_loop base_url h3s' (links ++ [full])
          | None => Raised ValueError
          end
      | None => primary_loop base_url h3s' links
      end
  end.

(** The loop of fallback #1 over the anchors; the [or] of its test calls
    [urljoin] only when the raw [href] does not start with the base URL. *)
Fixpoint fallback_loop (base_url : pystr) (anchors : list node) (links : list pystr)
    : outcome (list pystr) :=
  match anchors with
  | [] => Returned links
  | a :: anchors' =>
      let href := href a in
      let passes :=
        if startswith base_url href then Some true
        else option_map (startswith base_url) (urljoin base_url href) in
      match passes with
      | None => Raised ValueError
      | Some false => fallback_loop base_url anchors' links
      | Some true =>
          match urljoin base_url href with
          | None => Raised ValueError
          | Some full =>
              if existsb (fun x => contains (cp x) (py_lower U full)) excluded_markers
              then fallback_loop base_url anchors' links
              else fallback_loop base_url anchors' (links ++ [full])
          end
      end
  end.

Definition extract_article_links (soup : node) (base_url : pystr) : outcome (list pystr) :=
  match
    primary_loop base_url
      (find_all (fun n => is_tag "h3" n && has_class (cp "entry-title td-module-title") n) soup)
      []
  with
  | Raised e => Raised e
  | Returned links =>
      let collected :=
        match links with
        | [] => fallback_loop base_url (find_all has_href soup) []
        | _ => Returned links
        end in
      match collected with
      | Raised e => Raised e
      | Returned links => Returned (dedup links)
      end
  end.

End Call.
End Call.

(** *** extract_article_content *)

Definition title_selectors : list (string * option string) :=
  [("h1", None); ("h1", Some "entry-title"); ("h1", Some "td-page-title");
   ("h1", Some "post-title")]%string.

Definition content_selectors : list (string * option string) :=
  [("div", Some "tdb-block-inner td-fix-index"); ("div", Some "td-post-content");
   ("div", Some "entry-content"); ("div", Some "post-content");
   ("article", None)]%string.

(** The loop over the title selectors, left at the first heading with text. *)
Fixpoint title_loop (sels : list (string * option string)) (soup : node) (title : pystr) : pystr :=
  match sels with
  | [] => title
  | (name, class) :: sels' =>
      match find (selects name class) soup with
      | Some tag =>
          match get_text [] tag with
          | [] => title_loop sels' soup title
          | t => t
          end
      | None => title_loop sels' soup title
      end
  end.

(** The loop over the content selectors.  Removing the script, style,
    noscript and iframe tags changes the document itself, also when the text
    is then found too short, so the loop returns the document along with
    [content_text]. *)
Fixpoint content_loop (sels : list (string * option string)) (soup : node) : pystr * node :=
  match sels with
  | [] => ([], soup)
  | (name, class) :: sels' =>
      match find (selects name class) soup with
      | Some nd =>
          let soup := default soup (update_first (selects name class) strip_bad soup) in
          let text := get_text newline (strip_bad nd) in
          if (50 <? length text)%nat then (text, soup) else content_loop sels' soup
      | None => content_loop sels' soup
      end
  end.

(** [a < b] on strings: the order of the code points at the first
    difference, a proper prefix coming first. *)
Fixpoint pystr_ltb (a b : pystr) : bool :=
  match a, b with
  | _, [] => false
  | [], _ :: _ => true
  | x :: a', y :: b' => (x <? y) || ((x =? y) && pystr_ltb a' b')
  end.

(** [a < b] on the pairs [(len(txt), txt)]. *)
Definition candidate_ltb (a b : nat * pystr) : bool :=
  (a.1 <? b.1)%nat || ((a.1 =? b.1)%nat && pystr_ltb a.2 b.2).

(** [candidates.sort(reverse=True)]: a stable sort into descending order;
    a new element goes behind the elements that are not below it. *)
Fixpoint insert_desc (x : nat * pystr) (l : list (nat * pystr)) : list (nat * pystr) :=
  match l with
  | [] => [x]
  | y :: l' => if candidate_ltb y x then x :: l else y :: insert_desc x l'
  end.

Definition sort_desc (l : list (nat * pystr)) : list (nat * pystr) :=
  foldl (fun acc x => insert_desc x acc) [] l.

Definition is_block (n : node) : bool := is_any_tag ["div"; "section"; "article"]%string n.

(** The list [candidates] of the fallback. *)
Definition block_candidates (body : node) : list (nat * pystr) :=
  map (fun div => let txt := get_text newline div in (length txt, txt)) (find_all is_block body).

(** The fallback of [extract_article_content]: the branch [if not
    content_text]. *)
Definition fallback_content (soup : node) : pystr :=
  match find (is_tag "body") soup with
  | Some body =>
      match sort_desc (block_candidates body) with
      | (_, largest) :: _ => if (100 <? length largest)%nat then largest else []
      | [] => []
      end
  | None => []
  end.

Definition extract_article_content (soup : node) : pystr * pystr :=
  let title :=
    match find (is_tag "title") soup with
    | Some t =>
        match node_string t with
        | Some ((_ :: _) as s) => strip s
        | _ => []
        end
    | None => []
    end in
  let title := title_loop title_selectors soup title in
  let '(content_text, soup) := content_loop content_selectors soup in
  let content_text :=
    match content_text with
    | [] => fallback_content soup
    | _ => content_text
    end in
  (match title with [] => cp "untitled" | _ => title end, content_text).

(** ** excraction_features.py: the dataset sink *)

Section Sink.

(** One row as [csv.writer] lays it out, line ending included; the [csv]
    module is an outside library. *)
Variable csv_row : list pystr -> pystr.

(** [DictWriter.writerows]: a row with a key outside [fieldnames] raises
    [ValueError] after the rows before it were written; a missing key is
    written as the empty string.  The writer hands each row to the stream in
    one [write], which raises [UnicodeEncodeError] when the row cannot be
    encoded. *)
Fixpoint writerows (keys : list string) (data : list dict) (written : pystr)
    : outcome unit * pystr :=
  match data with
  | [] => (Returned tt, written)
  | d :: data' =>
      if forallb (fun k => existsb (String.eqb k) keys) (dict_keys d)
      then
        let row := csv_row (map (fun k => default [] (dict_get d k)) keys) in
        if encodable row then writerows keys data' (written ++ row)
        else (Raised UnicodeEncodeError, written)
      else (Raised ValueError, written)
  end.

(** The file is opened, and so created empty, before the header is
    written; it is closed with what was written also when a write raises. *)
Definition save_to_csv (data : list dict) (output_file : pystr) (w : world)
    : outcome unit * world :=
  match data with
  | [] => (Returned tt, print WARN_no_data_to_write w)
  | first :: _ =>
      let keys := dict_keys first in
      let header := csv_row (map cp keys) in
      if encodable header then
        match writerows keys data header with
        | (Returned _, text) =>
            (Returned tt, print (SUCCESS_written output_file) (write_file output_file text w))
        | (Raised e, text) => (Raised e, write_file output_file text w)
        end
      else (Raised UnicodeEncodeError, write_file output_file [] w)
  end.

End Sink.

(** ** The two scripts from end to end

    [scrape_articles] and [extract_all_articles] print lines of their own
    between the calls of the functions above.  Their console is a log in
    which the events of those calls and the scripts' own lines stand in the
    order they happen; the console takes every line. *)

Inductive script_line : Type :=
| START_scraping (base_url : pystr)
| ERROR_no_listing
| INFO_found_links (n : nat)
| Processing (idx total : nat) (link : pystr)
| WARN_skipping_fetch_failure
| WARN_no_content (link : pystr)
| DONE_scraping
| START_extracting
| INFO_extracting_from (filename : pystr).

Inductive entry : Type :=
| Inner (e : event)
| Line (l : script_line).

Record session : Type := {
  s_fs : gmap pystr pystr;
  s_pending : nat -> get_outcome;
  s_log : list entry;
}.

Definition say (l : script_line) (s : session) : session :=
  {| s_fs := s_fs s; s_pending := s_pending s; s_log := s_log s ++ [Line l] |}.

(** The world a called function starts in, and the session after it: the
    events of the call are appended to the log. *)
Definition world_of (s : session) : world :=
  {| fs := s_fs s; pending := s_pending s; trace := [] |}.

Definition after_call (s : session) (w : world) : session :=
  {| s_fs := fs w; s_pending := pending w; s_log := s_log s ++ (Inner <$> trace w) |}.

Definition DELAY_BETWEEN_REQUESTS : Q := 2.

Definition ARTICLE_LIMIT : option Z := None.

(** [s.endswith(suffix)] *)
Definition endswith (suffix s : pystr) : bool := startswith (rev suffix) (rev s).

Section Scripts.

Variable U : unicode_db.

(** [urlparse(url).path] and [urljoin(base, href)]; [None] when the call
    raises [ValueError]. *)
Variable urlparse_path : pystr -> option pystr.
Variable urljoin : pystr -> pystr -> option pystr.

(** [BeautifulSoup(html, "lxml")] *)
Variable parse_html : pystr -> node.

(** [fetch_html(url)] with its default timeout and retries. *)
Definition call_fetch_html (url : pystr) (s : session)
    : option (outcome (option pystr) * session) :=
  match fetch_html url REQUEST_TIMEOUT MAX_RETRIES (world_of s) with
  | Some (r, w) => Some (r, after_call s w)
  | None => None
  end.

(** The loop over the links of [scrape_articles]; [idx] counts from 1. *)
Fixpoint process_links (links : list pystr) (idx total : nat) (s : session)
    : option (outcome unit * session) :=
  match links with
  | [] => Some (Returned tt, s)
  | link :: links' =>
      let s := say (Processing idx total link) s in
      let s := after_call s (sleep DELAY_BETWEEN_REQUESTS (world_of s)) in
      match call_fetch_html link s with
      | None => None
      | Some (Raised e, s) => Some (Raised e, s)
      | Some (Returned None, s) | Some (Returned (Some []), s) =>
          process_links links' (S idx) total (say WARN_skipping_fetch_failure s)
      | Some (Returned (Some article_html), s) =>
          let '(title, content) := extract_article_content (parse_html article_html) in
          match strip content with
          | [] => process_links links' (S idx) total (say (WARN_no_content link) s)
          | _ =>
              match Call.save_article_to_txt urlparse_path title link content (world_of s) with
              | Some (Returned _, w) => process_links links' (S idx) total (after_call s w)
              | Some (Raised e, w) => Some (Raised e, after_call s w)
              | None => None
              end
          end
      end
  end.

Definition scrape_articles (base_url : pystr) (s : session)
    : option (outcome unit * session) :=
  let s := say (START_scraping base_url) s in
  match call_fetch_html base_url s with
  | None => None
  | Some (Raised e, s) => Some (Raised e, s)
  | Some (Returned None, s) | Some (Returned (Some []), s) =>
      Some (Returned tt, say ERROR_no_listing s)
  | Some (Returned (Some listing_html), s) =>
      match Call.extract_article_links U urljoin (parse_html listing_html) base_url with
      | Raised e => Some (Raised e, s)
      | Returned links =>
          let links :=
            match ARTICLE_LIMIT with
            | Some n => if (n =? 0)%Z then links else slice_to n links
            | None => links
            end in
          let s := say (INFO_found_links (length links)) s in
          match process_links links 1 (length links) s with
          | Some (Returned _, s) => Some (Returned tt, say DONE_scraping s)
          | other => other
          end
      end
  end.

End Scripts.

Definition SOURCE_DIR : pystr := cp "articles".
Definition OUTPUT_CSV : pystr := cp "extracted_funding_data.csv".

(** What [open] raises for a name that is listed but cannot be read as a
    file. *)
Inductive os_error : Type :=
| OSError (path : pystr).

(** [f.read()] on a file opened for reading in text mode: each of the line
    ends CR LF and CR of the file comes out as one LF. *)
Fixpoint universal_newlines (s : pystr) : pystr :=
  match s with
  | [] => []
  | 13 :: s' =>
      10 :: match s' with
            | 10 :: s'' => universal_newlines s''
            | _ => universal_newlines s'
            end
  | ch :: s' => ch :: universal_newlines s'
  end.

Section Dataset.

Variable U : unicode_db.

(** [os.listdir(source_dir)]: the names in the directory, in the order the
    system gives them; [None] when the call raises. *)
Variable os_listdir : pystr -> option (list pystr).

(** The loop over the names of [extract_all_articles]. *)
Fixpoint extract_loop (source_dir : pystr) (names : list pystr) (data : list dict)
    (s : session) : (os_error + list dict) * session :=
  match names with
  | [] => (inr data, s)
  | filename :: names' =>
      if endswith (cp ".txt") filename then
        let filepath := os_path_join source_dir filename in
        match s_fs s !! filepath with
        | Some stored =>
            let text := universal_newlines stored in
            let s := say (INFO_extracting_from filename) s in
            let info := extract_info_from_text U text in
            let info := dict_set info "filename" filename in
            extract_loop source_dir names' (data ++ [info]) s
        | None => (inl (OSError filepath), s)
        end
      else extract_loop source_dir names' data s
  end.

Definition extract_all_articles (source_dir : pystr) (s : session)
    : (os_error + list dict) * session :=
  match os_listdir source_dir with
  | Some names => extract_loop source_dir names [] s
  | None => (inl (OSError source_dir), s)
  end.

(** One row as [csv.writer] lays it out. *)
Variable csv_row : list pystr -> pystr.

(** The script of excraction_features.py: extract, then write the table. *)
Definition extraction_main (s : session) : (os_error + outcome unit) * session :=
  let s := say START_extracting s in
  match extract_all_articles SOURCE_DIR s with
  | (inl e, s) => (inl e, s)
  | (inr extracted_data, s) =>
      let '(r, w) := save_to_csv csv_row extracted_data OUTPUT_CSV (world_of s) in
      (inr r, after_call s w)
  end.

End Dataset.

(** * Vocabulary of the statements *)

Section Literal.

Variable U : unicode_db.
Variable fl : re_flags.

(** Reading the literal [s] from the cursor: the cursor behind it. *)
Fixpoint lit_split (s : string) (bef aft : pystr) : option (pystr * pystr) :=
  match s with
  | EmptyString => Some (bef, aft)
  | String a s' =>
      match aft with
      | ch :: aft' =>
          if cset_match U fl (CLit (N_of_ascii a)) ch then lit_split s' (ch :: bef) aft'
          else None
      | [] => None
      end
  end.

End Literal.

(** A funding phrase stands at the cursor: a word boundary, the phrase and
    " funding" in any case, a word boundary. *)
Definition phrase_here (U : unicode_db) (ftype : string) (bef aft : pystr) : bool :=
  at_boundary U bef aft &&
  match lit_split U re_I (ftype ++ " funding") bef aft with
  | Some (bef', aft') => at_boundary U bef' aft'
  | None => false
  end.

(** Tables for examples: nothing beyond ASCII is a letter or a digit, and
    lowering leaves it alone. *)
Definition ascii_db : unicode_db :=
  {| uni_alnum := fun _ => false; uni_decimal := fun _ => false;
     uni_lower := fun c => [c] |}.

(** What a trace holds: the number of GET requests and the delays slept. *)
Definition get_count (t : list event) : nat :=
  length (List.filter (fun e => match e with EvGet _ _ => true | _ => false end) t).

Definition sleeps (t : list event) : list Q :=
  flat_map (fun e => match e with EvSleep s => [s] | _ => [] end) t.


(** The [i]-th name tried for a stem: the plain name, then the suffixes. *)
Definition candidate (stem : pystr) (i : nat) : pystr :=
  match i with
  | O => os_path_join SAVE_DIR (stem ++ cp ".txt")
  | S _ => suffixed_path stem i
  end.



(** The path of the [i]-th file of a stem, written out: no suffix for the
    first, the suffix _i for the others. *)
Definition numbered_path (stem : pystr) (i : nat) : pystr :=
  cp "articles/" ++ stem
  ++ match i with O => [] | S _ => cp "_" ++ str_of_nat i end
  ++ cp ".txt".

(** [top] stands first in [l] and nothing in [l] is above it. *)
Definition headed_by_max (top : nat * pystr) (l : list (nat * pystr)) : Prop :=
  head l = Some top /\ forall c, c ∈ l -> candidate_ltb top c = false.

(** The choice as the specification words it: the longest text, and among
    texts of that length the first-encountered one. *)
Fixpoint first_longest (texts : list pystr) : pystr :=
  match texts with
  | [] => []
  | t :: rest =>
      let r := first_longest rest in
      if (length r <=? length t)%nat then t else r
  end.

Definition fallback_first_longest (soup : node) : pystr :=
  match find (is_tag "body") soup with
  | Some body =>
      let largest := first_longest (get_text newline <$> find_all is_block body) in
      if (100 <? length largest)%nat then largest else []
  | None => []
  end.

(** Two blocks of 101 characters each, the letter a in the first and the
    letter b in the second. *)
Definition tie_page : node :=
  Elem "[document]" []
    [Elem "html" []
       [Elem "body" []
          [Elem "div" [] [Text (repeat 97 101)];
           Elem "div" [] [Text (repeat 98 101)]]]].

(** A resolver for relative paths under a site root, enough for examples. *)
Definition join_under_root (base href : pystr) : pystr := base ++ drop 1 href.

(** A page with three links, one of them to a PDF. *)
Definition anchor (target : string) : node := Elem "a" [("href"%string, cp target)] [].





Definition listing_example : node :=
  Elem "[document]" []
    [Elem "html" []
       [Elem "body" [] [anchor "/a"; anchor "/b.pdf"; anchor "/c"]]].

(** An outcome of a request that [fetch_html] answers with a retry: an
    exception that [except Exception] catches, or an error status. *)
Definition attempt_fails (o : get_outcome) : Prop :=
  match o with
  | GetRaises e => is_Exception e = true
  | GetResponse resp => is_Some (raise_for_status resp)
  end.

(** The delays of a run with [n] requests whose backoff starts at [z]. *)
Definition doubling_delays (z : Z) (n : nat) : list Q :=
  (fun j => inject_Z (z * 2 ^ Z.of_nat j)) <$> seq 1 (n - 1).

(** The requests and the sleeps of a trace, in the order they happened. *)
Definition actions (t : list event) : list event :=
  List.filter (fun e => match e with EvPrint _ => false | _ => true end) t.

(** [n] requests for one page with a sleep between each two of them and
    none after the last: request, sleep, request, ..., request; nothing at
    all when [n] is 0. *)
Definition alternation (url : pystr) (timeout : Z) (n : nat) (delays : list Q) : list event :=
  match n with
  | O => []
  | S _ =>
      EvGet url timeout :: flat_map (fun d => [EvSleep d; EvGet url timeout]) delays
  end.

(** A network whose first request fails and whose second is answered. *)
Definition second_try_world : world :=
  {| fs := ∅;
     pending := fun n =>
       match n with
       | O => GetRaises ReadTimeout
       | _ => GetResponse {| status_code := 200;
                             content_type := Some (cp "text/html");
                             resp_text := cp "<html></html>" |}
       end;
     trace := [] |}.

(** What a pattern can match, apart from the order in which the matcher
    tries things: [denotes r bef aft bef' aft' gs] says that [r] can take
    the cursor from [(bef, aft)] to [(bef', aft')], recording the groups
    [gs], the latest first. *)
Fixpoint denotes (U : unicode_db) (fl : re_flags) (r : regex)
    (bef aft bef' aft' : pystr) (gs : groups) : Prop :=
  match r with
  | REmpty => bef' = bef /\ aft' = aft /\ gs = []
  | RSet s =>
      exists ch, aft = ch :: aft' /\ bef' = ch :: bef /\ cset_match U fl s ch = true /\ gs = []
  | RSeq a b =>
      exists bef1 aft1 gs1 gs2,
        denotes U fl a bef aft bef1 aft1 gs1 /\
        denotes U fl b bef1 aft1 bef' aft' gs2 /\
        gs = gs2 ++ gs1
  | RAlt a b => denotes U fl a bef aft bef' aft' gs \/ denotes U fl b bef aft bef' aft' gs
  | RRep _ lo hi s =>
      exists run,
        aft = run ++ aft' /\ bef' = rev run ++ bef /\
        Forall (fun ch => cset_match U fl s ch = true) run /\
        (lo <= length run)%nat /\
        match hi with Some h => (length run <= h)%nat | None => True end /\
        gs = []
  | RGroup i a =>
      exists gs1, denotes U fl a bef aft bef' aft' gs1 /\ gs = (i, consumed bef bef') :: gs1
  | RBol => bef' = bef /\ aft' = aft /\ gs = [] /\ at_bol fl bef = true
  | RWordB => bef' = bef /\ aft' = aft /\ gs = [] /\ at_boundary U bef aft = true
  end.


(** The log read for its pacing with the least pause [d]: [Some ready] when
    no request in it follows another request without a pause of at least
    [d] seconds in between; [ready] tells whether a request may come next. *)
Fixpoint pace (d : Q) (ready : bool) (log : list entry) : option bool :=
  match log with
  | [] => Some ready
  | Inner (EvGet _ _) :: log' => if ready then pace d false log' else None
  | Inner (EvSleep secs) :: log' => pace d (ready || Qle_bool d secs) log'
  | _ :: log' => pace d ready log'
  end.

Definition is_request (e : entry) : Prop := exists url timeout, e = Inner (EvGet url timeout).

Definition is_pause (d : Q) (e : entry) : Prop :=
  exists secs, e = Inner (EvSleep secs) /\ (d <= secs)%Q.


(** The columns of the dataset. *)
Definition record_keys : list string :=
  ["company_name"; "funding_amount"; "funding_type"; "article_date";
   "company_since"; "article_url"; "filename"]%string.

(** The names that [extract_all_articles] takes up, in the order of the
    listing. *)
Definition txt_names (names : list pystr) : list pystr :=
  List.filter (endswith (cp ".txt")) names.

(** The record made from the file [name] of the directory [dir]. *)
Definition record_of (U : unicode_db) (files : gmap pystr pystr) (dir name : pystr) : dict :=
  dict_set
    (extract_info_from_text U
       (universal_newlines (default [] (files !! os_path_join dir name))))
    "filename" name.

(** A directory with one artifact and one file that is none. *)
Definition one_artifact_session : session :=
  {| s_fs := {[ cp "articles/acme.txt" := cp "Acme raises $5M" ]};
     s_pending := fun _ => GetRaises ConnectionError;
     s_log := [] |}.

Definition one_artifact_listing (dir : pystr) : option (list pystr) :=
  Some [cp "notes.md"; cp "acme.txt"].


(** A row without quoting, for tables whose cells need none: the cells
    with commas between them, and the line end of [csv]. *)
Definition bare_row (cells : list pystr) : pystr :=
  join [44] cells ++ [13; 10].

(** The row that [DictWriter] makes of a record. *)
Definition table_row (csv_row : list pystr -> pystr) (keys : list string) (d : dict) : pystr :=
  csv_row (map (fun k => default [] (dict_get d k)) keys).

(** A record that the writer takes under the columns [keys]: it has no key
    outside them, and its row can be encoded. *)
Definition writable (csv_row : list pystr -> pystr) (keys : list string) (d : dict) : Prop :=
  dict_keys d ⊆ keys /\ encodable (table_row csv_row keys d) = true.

(** What a run of [f.write] calls leaves in the file: the texts up to the
    first one that cannot be encoded. *)
Fixpoint written_part (chunks : list pystr) : pystr :=
  match chunks with
  | [] => []
  | chunk :: chunks' => if encodable chunk then chunk ++ written_part chunks' else []
  end.



(** The URLs requested in a log, in order. *)
Definition requests (log : list entry) : list pystr :=
  flat_map (fun e => match e with Inner (EvGet url _) => [url] | _ => [] end) log.

(** [html] is what the run fetched for [url]: one of the requests of the
    log was for [url], and the outcome of the same rank among the outcomes
    of the network, which is the one that answered it, is a response without
    an error status whose body is [html]. *)
Definition fetched (pending : nat -> get_outcome) (log : list entry) (url html : pystr)
    : Prop :=
  exists g resp,
    requests log !! g = Some url /\
    pending g = GetResponse resp /\
    raise_for_status resp = None /\
    resp_text resp = html.

(** What a file written by the crawl looks like: it lies directly in the
    save directory under a name that ends in ".txt"; it belongs to one of
    the links, and to the page that the run fetched for that link, whose
    extracted body is not blank; it holds what the writes of the artifact
    of that page left. *)
Definition crawled_artifact (parse_html : pystr -> node) (pending : nat -> get_outcome)
    (log : list entry) (links : list pystr) (path text : pystr) : Prop :=
  exists name url html,
    path = cp "articles/" ++ name /\
    (47 ∉ name) /\
    endswith (cp ".txt") name = true /\
    url ∈ links /\
    fetched pending log url html /\
    strip (extract_article_content (parse_html html)).2 <> [] /\
    text = written_part
             (artifact_chunks (extract_article_content (parse_html html)).1 url
                (extract_article_content (parse_html html)).2).

(** The exceptions that nothing in the crawl catches: those outside the
    [Exception] hierarchy, which [fetch_html] lets through, the
    [ValueError] of [urllib.parse] and the [UnicodeEncodeError] of a
    write. *)
Definition uncaught (e : py_exn) : Prop :=
  is_Exception e = false \/ e = ValueError \/ e = UnicodeEncodeError.

(** The resolver that a partial [urljoin] gives where it returns. *)
Definition resolver_of (urljoin : pystr -> pystr -> option pystr) (base href : pystr) : pystr :=
  default [] (urljoin base href).

(** * Properties *)

(** ** Dictionaries *)

Lemma dict_get_set_eq (d : dict) (k : string) (v : pystr) :
  dict_get (dict_set d k v) k = Some v.
Proof.
  induction d as [|[k' v'] d IH]; simpl.
  - by rewrite String.eqb_refl.
  - destruct (String.eqb k' k) eqn:E; simpl.
    + by rewrite String.eqb_refl.
    + by rewrite E.
Qed.

Lemma dict_get_set_ne (d : dict) (k k' : string) (v : pystr) :
  k <> k' -> dict_get (dict_set d k v) k' = dict_get d k'.
Proof.
  intros Hne. induction d as [|[k0 v0] d IH]; simpl.
  - destruct (String.eqb k k') eqn:E; [|done].
    apply String.eqb_eq in E. contradiction.
  - destruct (String.eqb k0 k) eqn:E; simpl.
    + apply String.eqb_eq in E. subst k0.
      destruct (String.eqb k k') eqn:E'; [|done].
      apply String.eqb_eq in E'. contradiction.
    + by rewrite IH.
Qed.

(** ** The matcher on literal phrases *)

#[local] Arguments cset_match : simpl never.
#[local] Arguments at_boundary : simpl never.
#[local] Arguments match_here : simpl never.

Section RegexFacts.

Variable U : unicode_db.
Variable fl : re_flags.

Lemma rmatch_lit (s : string) (bef aft : pystr) (g : groups) k :
  rmatch U fl (lit s) bef aft g k =
  match lit_split U fl s bef aft with
  | Some (bef', aft') => k bef' aft' g
  | None => None
  end.
Proof.
  revert bef aft. induction s as [|a s IH]; intros bef aft; simpl; [done|].
  destruct aft as [|ch aft]; [done|].
  destruct (cset_match U fl (CLit (N_of_ascii a)) ch); [apply IH|done].
Qed.

Lemma lit_split_app (s1 s2 : string) (bef aft : pystr) :
  lit_split U fl (s1 ++ s2) bef aft =
  match lit_split U fl s1 bef aft with
  | Some (bef', aft') => lit_split U fl s2 bef' aft'
  | None => None
  end.
Proof.
  revert bef aft. induction s1 as [|a s1 IH]; intros bef aft; simpl; [done|].
  destruct aft as [|ch aft]; [done|].
  destruct (cset_match U fl (CLit (N_of_ascii a)) ch); [apply IH|done].
Qed.

(** The cursor only moves forward over the text. *)
Lemma lit_split_cursor (s : string) (bef aft bef' aft' : pystr) :
  lit_split U fl s bef aft = Some (bef', aft') ->
  exists m, aft = m ++ aft' /\ bef' = rev m ++ bef.
Proof.
  revert bef aft. induction s as [|a s IH]; intros bef aft; simpl.
  - intros [= <- <-]. by exists [].
  - destruct aft as [|ch aft]; [done|].
    destruct (cset_match U fl (CLit (N_of_ascii a)) ch); [|done].
    intros H. apply IH in H as (m & -> & ->).
    exists (ch :: m). split; [done|]. simpl. by rewrite <- app_assoc.
Qed.

(** [re.search] finds a match exactly when some position of the text admits
    one. *)
Lemma search_from_is_Some (r : regex) (bef aft : pystr) :
  is_Some (search_from U fl r bef aft) <->
  exists pre suf, aft = pre ++ suf /\ is_Some (match_here U fl r (rev pre ++ bef) suf).
Proof.
  revert bef. induction aft as [|ch aft IH]; intros bef; cbn [search_from].
  - destruct (match_here U fl r bef []) eqn:E.
    + split; [|by eauto]. intros _. exists [], []. split; [done|]. simpl. rewrite E. by eexists.
    + split; [by intros [? ?]|].
      intros (pre & suf & Heq & Hm).
      symmetry in Heq. apply app_eq_nil in Heq as [-> ->].
      simpl in Hm. rewrite E in Hm. by destruct Hm.
  - destruct (match_here U fl r bef (ch :: aft)) eqn:E.
    + split; [|by eauto]. intros _. exists [], (ch :: aft). split; [done|]. simpl. rewrite E. by eexists.
    + rewrite IH. split.
      * intros (pre & suf & -> & Hm). exists (ch :: pre), suf.
        split; [done|]. simpl. by rewrite <- app_assoc.
      * intros (pre & suf & Heq & Hm). destruct pre as [|c pre].
        -- simpl in *. subst suf. rewrite E in Hm. by destruct Hm.
        -- simpl in Heq. injection Heq as -> ->. exists pre, suf.
           split; [done|]. simpl in Hm. by rewrite <- app_assoc in Hm.
Qed.

Lemma search_from_None (r : regex) (bef aft : pystr) :
  search_from U fl r bef aft = None <->
  forall pre suf, aft = pre ++ suf -> match_here U fl r (rev pre ++ bef) suf = None.
Proof.
  rewrite eq_None_not_Some, search_from_is_Some. split.
  - intros Hno pre suf Heq. apply eq_None_not_Some. intros Hm. apply Hno. eauto.
  - intros Hall (pre & suf & Heq & Hm). rewrite (Hall _ _ Heq) in Hm. by destruct Hm.
Qed.

End RegexFacts.

Lemma match_here_ftype (U : unicode_db) (ftype : string) (bef aft : pystr) :
  is_Some (match_here U re_I (pat_ftype ftype) bef aft) <->
  phrase_here U ftype bef aft = true.
Proof.
  unfold match_here, pat_ftype, phrase_here. cbn [seqs rmatch].
  destruct (at_boundary U bef aft); simpl; [|split; [by intros [? ?]|done]].
  rewrite rmatch_lit.
  destruct (lit_split U re_I (ftype ++ " funding") bef aft) as [[bef' aft']|];
    [|split; [by intros [? ?]|done]].
  destruct (at_boundary U bef' aft'); simpl; [split; [done|by eexists]|].
  split; [by intros [? ?]|done].
Qed.

(** Only the hyphen matches a hyphen. *)
Lemma ci_eq_hyphen (ch : N) : ci_eq 45 ch = true -> ch = 45.
Proof. unfold ci_eq. simpl. apply N.eqb_eq. Qed.

(** Whatever matches the letter s is a word character. *)
Lemma ci_eq_s_word (U : unicode_db) (ch : N) : ci_eq 115 ch = true -> is_word U ch = true.
Proof.
  unfold ci_eq. change (ascii_letter 115) with true. change (ascii_tolower 115) with 115.
  cbv iota. change (115 =? 105) with false. change (115 =? 107) with false.
  change (115 =? 115) with true. simpl andb. rewrite !orb_false_r. intros H.
  apply orb_true_iff in H as [H| ->%N.eqb_eq]; [|done].
  apply andb_true_iff in H as [Hlt Heq].
  unfold is_word, is_alnum. rewrite Hlt.
  apply N.eqb_eq in Heq. unfold ascii_tolower in Heq.
  destruct (ascii_upper_letter ch) eqn:Hu.
  - assert (ch = 83) as -> by lia. done.
  - by subst ch.
Qed.

(** Inside "pre-seed funding" stands "seed funding": the hyphen before it is
    no word character and its s is one, so the boundary in front holds. *)
Lemma pre_seed_holds_seed (U : unicode_db) (bef aft : pystr) :
  phrase_here U "pre-seed" bef aft = true ->
  exists m suf, aft = m ++ suf /\ phrase_here U "seed" (rev m ++ bef) suf = true.
Proof.
  unfold phrase_here. intros [_ H]%andb_true_iff.
  change ("pre-seed" ++ " funding")%string with ("pre-" ++ ("seed" ++ " funding"))%string in H.
  rewrite lit_split_app in H.
  destruct (lit_split U re_I "pre-" bef aft) as [[bef1 aft1]|] eqn:E1; [|done].
  simpl in E1.
  destruct aft as [|c1 aft]; [done|].
  destruct (cset_match U re_I (CLit _) c1); [|done].
  destruct aft as [|c2 aft]; [done|].
  destruct (cset_match U re_I (CLit _) c2); [|done].
  destruct aft as [|c3 aft]; [done|].
  destruct (cset_match U re_I (CLit _) c3); [|done].
  destruct aft as [|c4 aft]; [done|].
  destruct (cset_match U re_I (CLit _) c4) eqn:H4; [|done].
  injection E1 as <- <-.
  apply ci_eq_hyphen in H4. subst c4.
  exists [c1; c2; c3; 45], aft. split; [done|]. simpl rev. simpl app.
  destruct (lit_split U re_I ("seed" ++ " funding") _ aft) as [[bef2 aft2]|] eqn:E2; [|done].
  rewrite H, andb_true_r.
  simpl in E2. destruct aft as [|c5 aft]; [done|].
  destruct (cset_match U re_I (CLit _) c5) eqn:H5; [|done].
  apply (ci_eq_s_word U) in H5.
  unfold at_boundary. simpl. by rewrite H5.
Qed.

(** Whenever the pattern of "pre-seed" is found, so is the pattern of
    "seed". *)
Lemma search_pre_seed_seed (U : unicode_db) (text : pystr) :
  is_Some (re_search U re_I (pat_ftype "pre-seed") text) ->
  is_Some (re_search U re_I (pat_ftype "seed") text).
Proof.
  unfold re_search. rewrite !search_from_is_Some.
  intros (pre & suf & -> & Hm).
  apply match_here_ftype, pre_seed_holds_seed in Hm as (m & suf' & -> & Hm).
  exists (pre ++ m), suf'. split; [by rewrite <- app_assoc|].
  apply match_here_ftype. by rewrite rev_app_distr, <- app_assoc.
Qed.

(** ** Checks of the matcher on small texts *)

Example amount_with_scale :
  (fun m => group m 1) <$> re_search ascii_db re_I pat_amount (cp "raised $1.5 Billion today")
  = Some (cp "$1.5 Billion").
Proof. vm_compute. reflexivity. Qed.

Example amount_euro_nbsp :
  (fun m => group m 1) <$> re_search ascii_db re_I pat_amount ([8364; 160] ++ cp "3,500K more")
  = Some ([8364; 160] ++ cp "3,500K").
Proof. vm_compute. reflexivity. Qed.

Example date_is_greedy :
  (fun m => group m 1) <$> re_search ascii_db no_flags pat_date (cp "Date: May 3, 2020 x" ++ [10] ++ cp "a-b")
  = Some (cp "May 3, 2020 x" ++ [10] ++ cp "a").
Proof. vm_compute. reflexivity. Qed.

Example source_needs_line_start :
  re_search ascii_db re_M pat_source (cp "x Source: http://a") = None
  /\ (fun m => group m 1) <$> re_search ascii_db re_M pat_source (cp "x" ++ [10] ++ cp "Source:http://a b")
     = Some (cp "http://a").
Proof. split; vm_compute; reflexivity. Qed.

Example company_is_lazy :
  company_of_line ascii_db (cp "Acme Corp, which has raised money") = Some (cp "Acme Corp")
  /\ company_of_line ascii_db (cp "Acme raises money") = None.
Proof. split; vm_compute; reflexivity. Qed.

Example long_s_matches_seed :
  m_whole <$> re_search ascii_db re_I (pat_ftype "seed") ([383] ++ cp "EED Funding.")
  = Some ([383] ++ cp "EED Funding").
Proof. vm_compute. reflexivity. Qed.

Example splitlines_crlf :
  splitlines (cp "a" ++ [13; 10] ++ cp "b" ++ [10; 10] ++ cp "c" ++ [10])
  = [cp "a"; cp "b"; []; cp "c"].
Proof. vm_compute. reflexivity. Qed.

(** ** The field extractor *)

Section ExtractorFacts.

Variable U : unicode_db.

Lemma company_loop_get (lines : list pystr) (info : dict) (k : string) :
  k <> "company_name"%string ->
  dict_get (company_loop U lines info) k = dict_get info k.
Proof.
  intros Hk. induction lines as [|line lines IH]; simpl; [done|].
  destruct (company_of_line U line); [|done].
  by apply dict_get_set_ne.
Qed.

Lemma funding_type_loop_none (text : pystr) (types : list string) (info : dict) :
  Forall (fun ftype => re_search U re_I (pat_ftype ftype) text = None) types ->
  funding_type_loop U text types info = info.
Proof.
  induction 1 as [|ftype types Hnone _ IH]; simpl; [done|]. by rewrite Hnone.
Qed.

Lemma company_loop_none (lines : list pystr) (info : dict) :
  Forall (fun line => company_of_line U line = None) lines ->
  company_loop U lines info = info.
Proof.
  induction 1 as [|line lines Hnone _ IH]; simpl; [done|]. by rewrite Hnone.
Qed.

(** The rules that run before the funding-type loop leave that field at its
    default. *)
Lemma funding_type_field (text : pystr) :
  exists info,
    dict_get info "funding_type" = Some undefined /\
    dict_get (extract_info_from_text U text) "funding_type" =
    dict_get (funding_type_loop U text funding_types info) "funding_type".
Proof.
  unfold extract_info_from_text. eexists. split; [|by rewrite company_loop_get].
  repeat case_match; rewrite ?dict_get_set_ne by done; done.
Qed.

(** C2 (end-to-end scenario 1): the artifact text of the scenario yields the
    record with company_name "Acme Corp", funding_amount "$5 million",
    funding_type "Series A", article_date "undefined", company_since "2019"
    and article_url "https://x.test/a", whatever the Unicode tables hold
    beyond ASCII. *)
Theorem extract_info_scenario1 :
  extract_info_from_text U
    (cp "Source: https://x.test/a" ++ [10] ++ cp "Title: T" ++ [10] ++ cp "====" ++ [10; 10]
     ++ cp "Acme Corp raises $5 million in Series A funding, founded in 2019.")
  = [("company_name", cp "Acme Corp"); ("funding_amount", cp "$5 million");
     ("funding_type", cp "Series A"); ("article_date", cp "undefined");
     ("company_since", cp "2019"); ("article_url", cp "https://x.test/a")]%string.
Proof. vm_compute. reflexivity. Qed.

(** C4 (field defaults): when the text holds none of the recognized
    patterns, that is no Source line, neither form of date, no founding
    year, no amount, no funding phrase, and no line of the company-name
    window that the delimiter rule accepts with 2 to 5 words, every value of
    the record is the sentinel "undefined". *)
Theorem extract_info_defaults (text : pystr) :
  re_search U re_M pat_source text = None ->
  re_search U no_flags pat_date text = None ->
  re_search U no_flags pat_body_date text = None ->
  re_search U re_I pat_founded text = None ->
  re_search U re_I pat_amount text = None ->
  Forall (fun ftype => re_search U re_I (pat_ftype ftype) text = None) funding_types ->
  Forall (fun line => company_of_line U line = None) (slice 2 6 (splitlines (strip text))) ->
  extract_info_from_text U text
  = [("company_name", undefined); ("funding_amount", undefined);
     ("funding_type", undefined); ("article_date", undefined);
     ("company_since", undefined); ("article_url", undefined)]%string
  /\ Forall (fun v => v = undefined) (dict_values (extract_info_from_text U text)).
Proof.
  intros Hsrc Hdate Hbody Hfounded Hamount Htypes Hlines.
  assert (extract_info_from_text U text
          = [("company_name", undefined); ("funding_amount", undefined);
             ("funding_type", undefined); ("article_date", undefined);
             ("company_since", undefined); ("article_url", undefined)]%string) as ->.
  { unfold extract_info_from_text.
    rewrite Hsrc, Hdate, Hbody, Hfounded, Hamount.
    rewrite funding_type_loop_none by done. by rewrite company_loop_none. }
  split; [done|]. repeat constructor.
Qed.

(** C10: the funding_type field is never "Pre-Seed".  The phrase "seed" is
    tried before "pre-seed", and wherever "pre-seed funding" is found,
    "seed funding" is found inside it, so the loop has already stopped. *)
Theorem funding_type_never_pre_seed (text : pystr) :
  dict_get (extract_info_from_text U text) "funding_type" <> Some (cp "Pre-Seed").
Proof.
  destruct (funding_type_field text) as (info & Hinfo & ->).
  unfold funding_types. cbn [funding_type_loop].
  destruct (re_search U re_I (pat_ftype "seed") text) eqn:Hseed.
  { rewrite dict_get_set_eq. vm_compute. congruence. }
  destruct (re_search U re_I (pat_ftype "pre-seed") text) eqn:Hpre.
  { assert (is_Some (re_search U re_I (pat_ftype "seed") text)) as [? Hs].
    { apply search_pre_seed_seed. rewrite Hpre. by eexists. }
    congruence. }
  repeat match goal with
         | |- context [re_search U re_I (pat_ftype ?f) text] =>
             destruct (re_search U re_I (pat_ftype f) text);
             [rewrite dict_get_set_eq; vm_compute; congruence|]
         end.
  rewrite Hinfo. vm_compute. congruence.
Qed.

End ExtractorFacts.

(** The "pre-seed" rule would store "Pre-Seed" if it were ever reached. *)
Example title_pre_seed : title "pre-seed" = cp "Pre-Seed".
Proof. reflexivity. Qed.

Lemma extract_info_defaults_witness :
  extract_info_from_text ascii_db (cp "Nothing to see here")
  = [("company_name", undefined); ("funding_amount", undefined);
     ("funding_type", undefined); ("article_date", undefined);
     ("company_since", undefined); ("article_url", undefined)]%string
  /\ Forall (fun v => v = undefined)
       (dict_values (extract_info_from_text ascii_db (cp "Nothing to see here"))).
Proof.
  apply (extract_info_defaults ascii_db (cp "Nothing to see here")).
  1-5: vm_compute; reflexivity.
  - unfold funding_types.
    repeat (constructor; [vm_compute; reflexivity|]). constructor.
  - constructor.
Defined.

(** ** fetch_html *)

(** The loop ends: fuel for the attempts that are left is enough. *)
Lemma fetch_loop_returns (fuel : nat) (url : pystr) (timeout max_retries attempt : Z)
    (backoff : Q) (w : world) :
  (Z.to_nat (max_retries - attempt) <= fuel)%nat ->
  is_Some (fetch_loop fuel url timeout max_retries attempt backoff w).
Proof.
  revert attempt backoff w.
  induction fuel as [|fuel IH]; intros attempt backoff w Hfuel; cbn [fetch_loop].
  - destruct (attempt <? max_retries)%Z eqn:E; [|by eexists].
    apply Z.ltb_lt in E. lia.
  - destruct (attempt <? max_retries)%Z eqn:E; [|by eexists].
    apply Z.ltb_lt in E.
    assert (forall e w', is_Some
      (if is_Exception e
       then let '(attempt', backoff', w'') := on_failure url max_retries attempt backoff e w' in
            fetch_loop fuel url timeout max_retries attempt' backoff' w''
       else Some (Raised e, w'))) as Hfailed.
    { intros e w'. destruct (is_Exception e); [|by eexists].
      unfold on_failure.
      destruct (attempt + 1 <? max_retries)%Z; apply IH; lia. }
    destruct (scraper_get url timeout w) as [[e|resp] w1]; [apply Hfailed|].
    destruct (raise_for_status resp); [apply Hfailed|by eexists].
Qed.

Lemma fetch_html_returns (url : pystr) (timeout max_retries : Z) (w : world) :
  is_Some (fetch_html url timeout max_retries w).
Proof. apply fetch_loop_returns. lia. Qed.




(** ** save_to_csv *)

(** C9: with an empty dataset [save_to_csv] returns normally, prints the
    warning and leaves every file as it was: no output file is written. *)
Theorem save_to_csv_empty (csv_row : list pystr -> pystr) (output_file : pystr) (w : world) :
  exists w',
    save_to_csv csv_row [] output_file w = (Returned tt, w') /\
    fs w' = fs w /\
    fs w' !! output_file = fs w !! output_file /\
    trace w' = trace w ++ [EvPrint WARN_no_data_to_write].
Proof. eexists. split; [reflexivity|]. done. Qed.

(** ** save_article_to_txt *)

Lemma cp_inj (s t : string) : cp s = cp t -> s = t.
Proof.
  revert t. induction s as [|a s IH]; intros [|b t]; simpl; try done.
  intros [= Hab Hst]. f_equal; [|by apply IH].
  rewrite <- (ascii_N_embedding a), <- (ascii_N_embedding b). by rewrite Hab.
Qed.

Lemma to_uint_nonnil (n : nat) : Nat.to_uint n <> Decimal.Nil.
Proof.
  rewrite <- (DecimalNat.Unsigned.of_to n), DecimalNat.Unsigned.to_of.
  unfold Decimal.unorm. by destruct (Decimal.nzhead _).
Qed.

Lemma str_of_nat_inj (j k : nat) : str_of_nat j = str_of_nat k -> j = k.
Proof.
  unfold str_of_nat. intros H%cp_inj.
  apply DecimalNat.Unsigned.to_uint_inj.
  pose proof (NilZero.usu _ (to_uint_nonnil j)) as Hj.
  pose proof (NilZero.usu _ (to_uint_nonnil k)) as Hk.
  rewrite H in Hj. congruence.
Qed.

Lemma os_path_join_SAVE_DIR (b : pystr) :
  os_path_join SAVE_DIR b = if startswith [47] b then b else cp "articles/" ++ b.
Proof. unfold os_path_join. by destruct (startswith [47] b). Qed.

Lemma candidate_inj (stem : pystr) : Inj (=) (=) (candidate stem).
Proof.
  assert (forall x y : pystr,
    startswith [47] (stem ++ x) = startswith [47] (stem ++ y) ->
    os_path_join SAVE_DIR (stem ++ x) = os_path_join SAVE_DIR (stem ++ y) -> x = y) as Hjoin.
  { intros x y Hs. rewrite !os_path_join_SAVE_DIR, Hs.
    destruct (startswith [47] (stem ++ y)); intros H; by simplify_list_eq. }
  assert (forall x y : pystr, x <> [] -> y <> [] -> hd 0 x <> 47 -> hd 0 y <> 47 ->
    os_path_join SAVE_DIR (stem ++ x) = os_path_join SAVE_DIR (stem ++ y) -> x = y) as Hinj.
  { intros x y Hx Hy Hhx Hhy. apply Hjoin.
    destruct stem as [|c stem']; [|done].
    destruct x as [|a x], y as [|b y]; try done. cbn [startswith app hd] in *.
    destruct (N.eqb_spec 47 a), (N.eqb_spec 47 b); simpl; congruence. }
  intros i j. unfold candidate, suffixed_path.
  destruct i as [|i], j as [|j]; [done| | |].
  - intros H. apply Hinj in H; try done.
  - intros H. apply Hinj in H; try done.
  - intros H. apply Hinj in H; try done.
    simpl in H. injection H as H. apply app_inv_tail in H.
    by apply str_of_nat_inj in H.
Qed.

Lemma os_path_exists_true (p : pystr) (w : world) :
  os_path_exists p w = true <-> is_Some (fs w !! p).
Proof. unfold os_path_exists. apply bool_decide_eq_true. Qed.

Lemma os_path_exists_false (p : pystr) (w : world) :
  os_path_exists p w = false <-> fs w !! p = None.
Proof.
  unfold os_path_exists. rewrite bool_decide_eq_false. symmetry. apply eq_None_not_Some.
Qed.

(** What the loop over the names returns: the first free candidate, or
    nothing when the fuel ends before one is met. *)
Lemma free_path_spec (fuel : nat) (stem : pystr) (i : nat) (w : world) :
  match free_path fuel stem (candidate stem i) (S i) w with
  | Some p =>
      exists k, (i <= k <= i + fuel)%nat /\ p = candidate stem k /\
                fs w !! p = None /\
                forall j, (i <= j < k)%nat -> is_Some (fs w !! candidate stem j)
  | None => forall j, (i <= j <= i + fuel)%nat -> is_Some (fs w !! candidate stem j)
  end.
Proof.
  revert i. induction fuel as [|fuel IH]; intros i; cbn [free_path].
  - destruct (os_path_exists (candidate stem i) w) eqn:E.
    + apply os_path_exists_true in E. intros j Hj. by replace j with i by lia.
    + apply os_path_exists_false in E. exists i. repeat split; [lia..|done|].
      intros j Hj. lia.
  - destruct (os_path_exists (candidate stem i) w) eqn:E.
    + apply os_path_exists_true in E.
      change (suffixed_path stem (S i)) with (candidate stem (S i)).
      specialize (IH (S i)).
      destruct (free_path fuel stem (candidate stem (S i)) (S (S i)) w) as [p|].
      * destruct IH as (k & Hk & -> & Hfree & Htaken).
        exists k. repeat split; [lia..|done|].
        intros j Hj. destruct (decide (j = i)) as [->|]; [done|]. apply Htaken. lia.
      * intros j Hj. destruct (decide (j = i)) as [->|]; [done|]. apply IH. lia.
    + apply os_path_exists_false in E. exists i. repeat split; [lia..|done|].
      intros j Hj. lia.
Qed.

(** A directory of [n] files cannot hold [n + 1] distinct candidates. *)
Lemma candidates_not_all_taken (stem : pystr) (w : world) :
  ~ forall j, (j <= size (fs w))%nat -> is_Some (fs w !! candidate stem j).
Proof.
  intros Hall. pose proof (candidate_inj stem) as Hinj.
  set (names := candidate stem <$> seq 0 (S (size (fs w)))).
  assert (NoDup names) as Hnd.
  { apply (NoDup_fmap_2 _). apply NoDup_seq. }
  assert (list_to_set names ⊆ dom (fs w)) as Hsub.
  { intros p Hp. apply elem_of_list_to_set, list_elem_of_fmap in Hp as (j & -> & Hj).
    apply elem_of_dom, Hall. apply elem_of_seq in Hj. lia. }
  apply subseteq_size in Hsub.
  rewrite size_list_to_set, size_dom in Hsub by done.
  unfold names in Hsub. rewrite length_fmap, length_seq in Hsub. lia.
Qed.

(** With the size of the directory as fuel the loop always finds a name: the
    first candidate that is free. *)
Lemma free_path_total (stem : pystr) (w : world) :
  exists k,
    free_path (size (fs w)) stem (candidate stem 0) 1 w = Some (candidate stem k) /\
    fs w !! candidate stem k = None /\
    forall j, (j < k)%nat -> is_Some (fs w !! candidate stem j).
Proof.
  pose proof (free_path_spec (size (fs w)) stem 0 w) as H.
  destruct (free_path (size (fs w)) stem (candidate stem 0) 1 w) as [p|].
  - destruct H as (k & _ & -> & Hfree & Htaken).
    exists k. repeat split; [done|]. intros j Hj. apply Htaken. lia.
  - destruct (candidates_not_all_taken stem w). intros j Hj. apply H. lia.
Qed.

Section WriterFacts.

Variable url_path : pystr -> pystr.

(** One write: it ends, it goes to the first free candidate of the stem, and
    it changes that one path only. *)
Lemma save_article_to_txt_spec (title url content : pystr) (w : world) :
  exists k w',
    save_article_to_txt url_path title url content w = Some w' /\
    let p := candidate (artifact_stem url_path title url) k in
    fs w !! p = None /\
    (forall j, (j < k)%nat ->
       is_Some (fs w !! candidate (artifact_stem url_path title url) j)) /\
    fs w' = <[p := artifact_text title url content]> (fs w) /\
    trace w' = trace w ++ [EvPrint (SAVED (os_path_basename p))].
Proof.
  unfold save_article_to_txt.
  destruct (free_path_total (artifact_stem url_path title url) w) as (k & Hk & Hfree & Htaken).
  change (os_path_join SAVE_DIR (artifact_stem url_path title url ++ cp ".txt"))
    with (candidate (artifact_stem url_path title url) 0).
  rewrite Hk. exists k. eexists. split; [reflexivity|]. done.
Qed.

End WriterFacts.

Lemma Forall_slice_to {A} (P : A -> Prop) (n : Z) (l : list A) :
  Forall P l -> Forall P (slice_to n l).
Proof. intros H. unfold slice_to. destruct (0 <=? n)%Z; by apply Forall_take. Qed.

Lemma safe_filename_chars (s : pystr) (max_len : Z) :
  safe_filename s max_len <> [] /\
  Forall (fun c => safe_char c = true) (safe_filename s max_len).
Proof.
  unfold safe_filename.
  set (kept := filter (fun c => safe_char c = true) (sub_spaces false (strip s))).
  assert (Forall (fun c => safe_char c = true) kept) as Hkept.
  { apply Forall_forall. intros c Hc. by apply list_elem_of_filter in Hc as [? _]. }
  assert (Forall (fun c => safe_char c = true)
            (if (max_len <? Z.of_nat (length kept))%Z then slice_to max_len kept else kept))
    as Hcut.
  { destruct (max_len <? Z.of_nat (length kept))%Z; [by apply Forall_slice_to|done]. }
  destruct (if (max_len <? Z.of_nat (length kept))%Z then slice_to max_len kept else kept) eqn:E.
  - split; [done|]. by vm_compute; repeat constructor.
  - done.
Qed.

Section StemFacts.

Variable url_path : pystr -> pystr.

Lemma artifact_stem_no_slash (title url x : pystr) :
  startswith [47] (artifact_stem url_path title url ++ x) = false.
Proof.
  unfold artifact_stem.
  destruct (safe_filename_chars
    (strip (match last (split_on 47 (rstrip_char 47 (url_path url))) with
            | Some ((_ :: _) as seg) => seg
            | _ => cp "article"
            end ++ cp "_" ++ take 60 title)) 120) as [Hne Hsafe].
  destruct (safe_filename _ 120) as [|c stem]; [done|].
  apply Forall_cons in Hsafe as [Hc _]. cbn [app startswith].
  destruct (N.eqb_spec 47 c) as [<-|]; [done|done].
Qed.

Lemma candidate_numbered (title url : pystr) (i : nat) :
  candidate (artifact_stem url_path title url) i
  = numbered_path (artifact_stem url_path title url) i.
Proof.
  unfold candidate, suffixed_path, numbered_path.
  destruct i as [|i]; rewrite os_path_join_SAVE_DIR.
  - by rewrite artifact_stem_no_slash.
  - rewrite artifact_stem_no_slash. by rewrite <- !app_assoc.
Qed.



End StemFacts.


(** ** extract_article_links *)

(** The state of the deduplication loop after [links], started when
    [uniq] had been kept: the list grows by the new links, each once. *)
Lemma dedup_fold (links uniq : list pystr) :
  NoDup uniq ->
  exists ext,
    foldl dedup_step (list_to_set uniq, uniq) links
    = (list_to_set (uniq ++ ext), uniq ++ ext) /\
    NoDup (uniq ++ ext) /\
    forall x, x ∈ ext <-> x ∈ links /\ x ∉ uniq.
Proof.
  revert uniq. induction links as [|l links IH]; intros uniq Hnd.
  - exists []. rewrite app_nil_r. split; [done|]. split; [done|].
    intros x. split; [by intros ?%elem_of_nil|]. by intros [?%elem_of_nil _].
  - cbn [foldl]. unfold dedup_step at 2. cbn [fst snd].
    destruct (decide (l ∈ list_to_set uniq)) as [Hin|Hnin].
    + apply elem_of_list_to_set in Hin.
      destruct (IH uniq Hnd) as (ext & Hfold & Hnd' & Hext).
      exists ext. split; [done|]. split; [done|].
      intros x. rewrite Hext, elem_of_cons. split; [by intros [? ?]; auto|].
      intros [[->|?] ?]; done.
    + rewrite elem_of_list_to_set in Hnin.
      assert (NoDup (uniq ++ [l])) as Hnd1.
      { apply NoDup_app. split; [done|]. split; [|apply NoDup_singleton].
        intros x Hx ->%list_elem_of_singleton. done. }
      destruct (IH (uniq ++ [l]) Hnd1) as (ext & Hfold & Hnd' & Hext).
      exists (l :: ext).
      replace (uniq ++ l :: ext) with ((uniq ++ [l]) ++ ext) by (by rewrite <- app_assoc).
      split; [|split; [done|]].
      * rewrite <- Hfold. f_equal. f_equal.
        rewrite list_to_set_app_L. simpl. set_solver.
      * intros x. rewrite elem_of_cons, Hext.
        destruct (decide (x = l)) as [->|]; set_solver.
Qed.

Lemma dedup_fold_start (links : list pystr) :
  exists out,
    foldl dedup_step (∅, []) links = (list_to_set out, out) /\
    NoDup out /\
    forall x, x ∈ out <-> x ∈ links.
Proof.
  destruct (dedup_fold links [] NoDup_nil_2) as (ext & Hfold & Hnd & Hext).
  exists ext. split; [done|]. split; [done|].
  intros x. rewrite Hext. split; [by intros [? _]|].
  intros ?. split; [done|]. by intros ?%elem_of_nil.
Qed.


Section LinkFacts.

Variable U : unicode_db.
Variable urljoin : pystr -> pystr -> pystr.

(** C5 (link dedup): the links returned hold no URL twice; they are exactly
    the URLs collected from the page; and they stand in first-seen order: in
    front of a URL come exactly the URLs collected before its first
    occurrence. *)
Theorem extract_article_links_dedup (soup : node) (base_url : pystr) :
  let links := collected_links U urljoin soup base_url in
  let out := extract_article_links U urljoin soup base_url in
  NoDup out /\
  (forall u, u ∈ out <-> u ∈ links) /\
  (forall pre u suf, links = pre ++ u :: suf -> u ∉ pre ->
     exists out1 out2, out = out1 ++ u :: out2 /\ forall x, x ∈ out1 <-> x ∈ pre).
Proof.
  intros links out. unfold out, extract_article_links. fold links.
  generalize links. clear. intros links. unfold dedup.
  split; [|split].
  - by destruct (dedup_fold_start links) as (ext & -> & Hnd & _).
  - by destruct (dedup_fold_start links) as (ext & -> & _ & Hext).
  - intros pre u suf -> Hu. rewrite foldl_app.
    destruct (dedup_fold_start pre) as (out1 & -> & Hnd1 & Hext1).
    cbn [foldl]. unfold dedup_step at 2. cbn [fst snd].
    assert (u ∉ out1) as Hu1 by (by rewrite Hext1).
    destruct (decide (u ∈ list_to_set out1)) as [Hin|_];
      [by apply elem_of_list_to_set in Hin|].
    replace ({[u]} ∪ list_to_set out1 : gset pystr)
      with (list_to_set (C:=gset pystr) (out1 ++ [u]))
      by (rewrite list_to_set_app_L; simpl; set_solver).
    assert (NoDup (out1 ++ [u])) as Hnd2.
    { apply NoDup_app. split; [done|]. split; [|apply NoDup_singleton].
      intros x Hx ->%list_elem_of_singleton. done. }
    destruct (dedup_fold suf (out1 ++ [u]) Hnd2) as (out2 & -> & _ & _).
    exists out1, out2. split; [by rewrite <- app_assoc|done].
Qed.


End LinkFacts.



(** ** extract_article_content *)

Lemma pystr_ltb_irrefl (a : pystr) : pystr_ltb a a = false.
Proof.
  induction a as [|x a IH]; [done|]. cbn [pystr_ltb].
  by rewrite N.ltb_irrefl, N.eqb_refl, IH.
Qed.

Lemma pystr_ltb_trans (a b c : pystr) :
  pystr_ltb a b = true -> pystr_ltb b c = true -> pystr_ltb a c = true.
Proof.
  revert b c. induction a as [|x a IH]; intros [|y b] [|z c]; cbn [pystr_ltb]; try done.
  intros Hab Hbc.
  apply orb_true_iff in Hab as [Hxy|[Hxy Hab]%andb_true_iff];
    apply orb_true_iff in Hbc as [Hyz|[Hyz Hbc]%andb_true_iff];
    rewrite ?N.ltb_lt, ?N.eqb_eq in *; apply orb_true_iff.
  - left. apply N.ltb_lt. lia.
  - left. apply N.ltb_lt. lia.
  - left. apply N.ltb_lt. lia.
  - right. apply andb_true_iff. split; [apply N.eqb_eq; lia|]. by apply (IH b).
Qed.

Lemma candidate_ltb_irrefl (a : nat * pystr) : candidate_ltb a a = false.
Proof.
  unfold candidate_ltb. by rewrite Nat.ltb_irrefl, Nat.eqb_refl, pystr_ltb_irrefl.
Qed.

Lemma candidate_ltb_trans (a b c : nat * pystr) :
  candidate_ltb a b = true -> candidate_ltb b c = true -> candidate_ltb a c = true.
Proof.
  unfold candidate_ltb. intros Hab Hbc.
  apply orb_true_iff in Hab as [Hab|[Hab Hab']%andb_true_iff];
    apply orb_true_iff in Hbc as [Hbc|[Hbc Hbc']%andb_true_iff];
    rewrite ?Nat.ltb_lt, ?Nat.eqb_eq in *; apply orb_true_iff.
  - left. apply Nat.ltb_lt. lia.
  - left. apply Nat.ltb_lt. lia.
  - left. apply Nat.ltb_lt. lia.
  - right. apply andb_true_iff. split; [apply Nat.eqb_eq; lia|].
    by apply (pystr_ltb_trans _ b.2).
Qed.

Lemma insert_desc_elem (x c : nat * pystr) (l : list (nat * pystr)) :
  c ∈ insert_desc x l <-> c = x \/ c ∈ l.
Proof.
  induction l as [|y l IH]; cbn [insert_desc].
  - rewrite list_elem_of_singleton. split; [by left|]. by intros [?|?%elem_of_nil].
  - destruct (candidate_ltb y x); [by rewrite elem_of_cons|].
    rewrite !elem_of_cons, IH. tauto.
Qed.

Lemma insert_desc_max (x top : nat * pystr) (l : list (nat * pystr)) :
  headed_by_max top l ->
  headed_by_max (if candidate_ltb top x then x else top) (insert_desc x l).
Proof.
  intros [Hhd Hmax]. destruct l as [|y l]; [done|].
  injection Hhd as ->. cbn [insert_desc].
  destruct (candidate_ltb top x) eqn:E; (split; [done|]).
  - intros c [->|Hc]%elem_of_cons; [apply candidate_ltb_irrefl|].
    destruct (candidate_ltb x c) eqn:Exc; [|done].
    rewrite <- (Hmax c Hc). symmetry. by apply (candidate_ltb_trans _ x).
  - intros c [->|Hc]%elem_of_cons; [by apply Hmax; left|].
    apply insert_desc_elem in Hc as [->|Hc]; [done|]. apply Hmax. by right.
Qed.

(** The sort puts a greatest candidate first, and loses none. *)
Lemma sort_desc_from (l acc : list (nat * pystr)) (top : nat * pystr) :
  headed_by_max top acc ->
  exists top', headed_by_max top' (foldl (fun acc x => insert_desc x acc) acc l) /\
               (top' = top \/ top' ∈ l) /\
               (forall c, c ∈ acc \/ c ∈ l -> candidate_ltb top' c = false).
Proof.
  revert acc top. induction l as [|x l IH]; intros acc top Hmax.
  - exists top. split; [done|]. split; [by left|].
    intros c [Hc|?%elem_of_nil]; [|done]. by apply Hmax.
  - cbn [foldl].
    destruct (IH _ _ (insert_desc_max x top acc Hmax)) as (top' & Hmax' & Hin & Hall).
    exists top'. split; [done|]. split.
    + destruct Hin as [->|Hin]; [|right; by right].
      destruct (candidate_ltb top x); [right; by left|by left].
    + intros c [Hc|[->|Hc]%elem_of_cons]; apply Hall.
      * left. apply insert_desc_elem. by right.
      * left. apply insert_desc_elem. by left.
      * by right.
Qed.

(** The sort puts a greatest candidate first, and loses none. *)
Lemma sort_desc_max (l : list (nat * pystr)) :
  l <> [] ->
  exists top, headed_by_max top (sort_desc l) /\ top ∈ l /\
              forall c, c ∈ l -> candidate_ltb top c = false.
Proof.
  unfold sort_desc.
  destruct l as [|x l]; [done|]. intros _. cbn [foldl insert_desc].
  destruct (sort_desc_from l [x] x) as (top & Hmax & Hin & Hall).
  { split; [done|]. intros c ->%list_elem_of_singleton. apply candidate_ltb_irrefl. }
  exists top. split; [done|]. split.
  - destruct Hin as [->|Hin]; [by left|by right].
  - intros c [->|Hc]%elem_of_cons; apply Hall; [left; by left|by right].
Qed.

(** The fallback as the code computes it: from a body with blocks it takes a
    block whose text no other block beats, first by length and then, at
    equal length, by the order of the strings. *)
Lemma fallback_content_spec (soup body : node) :
  find (is_tag "body") soup = Some body ->
  let blocks := find_all is_block body in
  (blocks = [] -> fallback_content soup = []) /\
  (blocks <> [] ->
   exists d, d ∈ blocks /\
     let t := get_text newline d in
     (forall d', d' ∈ blocks -> (length (get_text newline d') <= length t)%nat) /\
     (forall d', d' ∈ blocks -> length (get_text newline d') = length t ->
        pystr_ltb t (get_text newline d') = false) /\
     fallback_content soup = if (100 <? length t)%nat then t else []).
Proof.
  intros Hbody blocks. unfold fallback_content. rewrite Hbody.
  unfold block_candidates. fold blocks. split.
  - by intros ->.
  - intros Hne.
    destruct (sort_desc_max
      ((fun div => let txt := get_text newline div in (length txt, txt)) <$> blocks))
      as (top & [Hhd _] & Hin & Hmax).
    { by destruct blocks. }
    apply list_elem_of_fmap in Hin as (d & -> & Hd).
    exists d. split; [done|]. cbn zeta in *.
    assert (forall d', d' ∈ blocks ->
              candidate_ltb (length (get_text newline d), get_text newline d)
                            (length (get_text newline d'), get_text newline d') = false) as Hcmp.
    { intros d' Hd'. apply Hmax, list_elem_of_fmap. by exists d'. }
    split; [|split].
    + intros d' Hd'. specialize (Hcmp d' Hd'). unfold candidate_ltb in Hcmp. cbn [fst snd] in Hcmp.
      apply orb_false_iff in Hcmp as [Hlt _]. apply Nat.ltb_ge in Hlt. lia.
    + intros d' Hd' Hlen. specialize (Hcmp d' Hd'). unfold candidate_ltb in Hcmp.
      cbn [fst snd] in Hcmp. rewrite Hlen, Nat.eqb_refl in Hcmp.
      by apply orb_false_iff in Hcmp as [_ Hcmp].
    + destruct (sort_desc _) as [|[n largest] rest]; [done|].
      by injection Hhd as -> ->.
Qed.

(** C3, as the code has it: when no content selector yields accepted text,
    the body is taken from the blocks (div, section, article) under the
    document body, as the document stands after the selector loop.  The
    block taken has the greatest text length; among the blocks of that
    length it has the greatest text in the order of the strings (the sort
    compares the pairs of length and text), not the first in document order.
    Its text is accepted only when longer than 100 characters; otherwise,
    and without a body or without blocks, the body text is empty. *)
Theorem extract_article_content_fallback (soup : node) :
  (content_loop content_selectors soup).1 = [] ->
  let soup' := (content_loop content_selectors soup).2 in
  let content := (extract_article_content soup).2 in
  (find (is_tag "body") soup' = None -> content = []) /\
  (forall body, find (is_tag "body") soup' = Some body ->
     let blocks := find_all is_block body in
     (blocks = [] -> content = []) /\
     (blocks <> [] ->
      exists d, d ∈ blocks /\
        let t := get_text newline d in
        (forall d', d' ∈ blocks -> (length (get_text newline d') <= length t)%nat) /\
        (forall d', d' ∈ blocks -> length (get_text newline d') = length t ->
           pystr_ltb t (get_text newline d') = false) /\
        content = if (100 <? length t)%nat then t else [])).
Proof.
  intros Hnone soup' content.
  assert (content = fallback_content soup') as ->.
  { unfold content, soup', extract_article_content.
    destruct (content_loop content_selectors soup) as [text soup1].
    simpl in Hnone. subst text. done. }
  split.
  - intros Hbody. unfold fallback_content. by rewrite Hbody.
  - intros body Hbody. by apply fallback_content_spec.
Qed.

Lemma fallback_tie_not_first :
  (content_loop content_selectors tie_page).1 = [] /\
  (extract_article_content tie_page).2 = repeat 98 101 /\
  fallback_first_longest (content_loop content_selectors tie_page).2 = repeat 97 101 /\
  (extract_article_content tie_page).2
  <> fallback_first_longest (content_loop content_selectors tie_page).2.
Proof.
  assert ((extract_article_content tie_page).2 = repeat 98 101) as Hcode
    by (vm_compute; reflexivity).
  assert (fallback_first_longest (content_loop content_selectors tie_page).2 = repeat 97 101)
    as Hspec by (vm_compute; reflexivity).
  split; [vm_compute; reflexivity|]. split; [done|]. split; [done|].
  rewrite Hcode, Hspec. vm_compute. congruence.
Qed.

Lemma extract_article_content_fallback_witness :
  exists d, d ∈ find_all is_block (Elem "body" []
                                    [Elem "div" [] [Text (repeat 97 101)];
                                     Elem "div" [] [Text (repeat 98 101)]]) /\
    (extract_article_content tie_page).2 = get_text newline d.
Proof.
  destruct (extract_article_content_fallback tie_page) as [_ Hbody].
  - vm_compute. reflexivity.
  - destruct (Hbody (Elem "body" []
                       [Elem "div" [] [Text (repeat 97 101)];
                        Elem "div" [] [Text (repeat 98 101)]])) as [_ Hblocks].
    + vm_compute. reflexivity.
    + destruct Hblocks as (d & Hd & _ & _ & Hcontent).
      * vm_compute. congruence.
      * exists d. split; [done|]. rewrite Hcontent.
        assert ((100 <? length (get_text newline d))%nat = true) as ->; [|done].
        vm_compute in Hd.
        apply elem_of_cons in Hd as [->|Hd]; [vm_compute; reflexivity|].
        apply elem_of_cons in Hd as [->|Hd]; [vm_compute; reflexivity|].
        by apply elem_of_nil in Hd.
Defined.

(** * Further properties *)

(** ** fetch_html: every run *)

Lemma get_count_app (a b : list event) : get_count (a ++ b) = (get_count a + get_count b)%nat.
Proof. unfold get_count. by rewrite List.filter_app, length_app. Qed.

Lemma sleeps_app (a b : list event) : sleeps (a ++ b) = sleeps a ++ sleeps b.
Proof. unfold sleeps. apply flat_map_app. Qed.

Lemma doubling_delays_step (z : Z) (n : nat) :
  (1 <= n)%nat ->
  inject_Z (z * 2) :: doubling_delays (z * 2) n = doubling_delays z (S n).
Proof.
  intros Hn. unfold doubling_delays.
  replace (S n - 1)%nat with (S (n - 1)) by lia. cbn [seq fmap list_fmap].
  f_equal.
  rewrite <- (fmap_S_seq 1), <- list_fmap_compose.
  apply list_fmap_ext. intros i j _. cbn [compose]. f_equal.
  rewrite Nat2Z.inj_succ, Z.pow_succ_r by lia. lia.
Qed.

(** What a run of the loop does, started at any attempt count and with any
    integral backoff: it only appends events, leaves the files alone, uses
    up one pending outcome per request, sleeps after every failure but a
    last one with doubled delays, and ends in one of three ways. *)
Lemma fetch_loop_run (fuel : nat) (url : pystr) (timeout max_retries attempt z : Z)
    (w w' : world) (r : outcome (option pystr)) :
  fetch_loop fuel url timeout max_retries attempt (inject_Z z) w = Some (r, w') ->
  exists evs,
    trace w' = trace w ++ evs /\
    fs w' = fs w /\
    (forall n, pending w' n = pending w (get_count evs + n)%nat) /\
    (get_count evs <= Z.to_nat (max_retries - attempt))%nat /\
    sleeps evs = doubling_delays z (get_count evs) /\
    (forall m, (S m < get_count evs)%nat -> attempt_fails (pending w m)) /\
    match r with
    | Returned (Some text) =>
        exists g resp, get_count evs = S g /\ pending w g = GetResponse resp /\
                       raise_for_status resp = None /\ text = resp_text resp
    | Returned None =>
        get_count evs = Z.to_nat (max_retries - attempt) /\
        forall m, (m < get_count evs)%nat -> attempt_fails (pending w m)
    | Raised e =>
        exists g, get_count evs = S g /\ pending w g = GetRaises e /\ is_Exception e = false
    end.
Proof.
  revert attempt z w. induction fuel as [|fuel IH]; intros attempt z w; cbn [fetch_loop].
  - destruct (attempt <? max_retries)%Z eqn:E; [done|]. intros [= <- <-].
    apply Z.ltb_ge in E. exists []. rewrite app_nil_r.
    replace (Z.to_nat (max_retries - attempt)) with 0%nat by lia.
    repeat split; try done; cbn; intros; lia.
  - destruct (attempt <? max_retries)%Z eqn:E.
    2: { intros [= <- <-]. apply Z.ltb_ge in E. exists []. rewrite app_nil_r.
         replace (Z.to_nat (max_retries - attempt)) with 0%nat by lia.
         repeat split; try done; cbn; intros; lia. }
    apply Z.ltb_lt in E.
    (* a failed round, then the rest of the run *)
    assert (forall e0,
      attempt_fails (pending w O) ->
      (let '(attempt', backoff', w1) :=
         on_failure url max_retries attempt (inject_Z z) e0 (scraper_get url timeout w).2 in
       fetch_loop fuel url timeout max_retries attempt' backoff' w1) = Some (r, w') ->
      exists evs,
        trace w' = trace w ++ evs /\ fs w' = fs w /\
        (forall n, pending w' n = pending w (get_count evs + n)%nat) /\
        (get_count evs <= Z.to_nat (max_retries - attempt))%nat /\
        sleeps evs = doubling_delays z (get_count evs) /\
        (forall m, (S m < get_count evs)%nat -> attempt_fails (pending w m)) /\
        match r with
        | Returned (Some text) =>
            exists g resp, get_count evs = S g /\ pending w g = GetResponse resp /\
                           raise_for_status resp = None /\ text = resp_text resp
        | Returned None =>
            get_count evs = Z.to_nat (max_retries - attempt) /\
            forall m, (m < get_count evs)%nat -> attempt_fails (pending w m)
        | Raised e =>
            exists g, get_count evs = S g /\ pending w g = GetRaises e /\ is_Exception e = false
        end) as Hround.
    { intros e0 Hfail. unfold on_failure, scraper_get. cbn [snd].
      destruct (attempt + 1 <? max_retries)%Z eqn:E1.
      - apply Z.ltb_lt in E1.
        change (inject_Z z * RETRY_BACKOFF)%Q with (inject_Z (z * 2)).
        intros Hrest. apply IH in Hrest as (evs & Htr & Hfs & Hpend & Hcount & Hsl & Hfails & Hr).
        cbn [trace fs pending sleep print emit] in Htr, Hfs, Hpend, Hfails, Hr.
        assert (1 <= get_count evs)%nat as Hone.
        { destruct r as [[text|]|e].
          - destruct Hr as (g & ? & -> & _). lia.
          - destruct Hr as [-> _]. lia.
          - destruct Hr as (g & -> & _). lia. }
        eexists (EvGet url timeout :: EvPrint _ :: EvPrint _ :: EvSleep _ :: evs).
        split; [rewrite Htr, <- !app_assoc; reflexivity|].
        split; [done|].
        change (get_count (EvGet url timeout :: EvPrint ?a :: EvPrint ?b :: EvSleep ?c :: evs))
          with (S (get_count evs)).
        split; [intros n; rewrite Hpend; f_equal; lia|].
        split; [lia|].
        split.
        { change (sleeps (EvGet url timeout :: EvPrint ?a :: EvPrint ?b :: EvSleep ?c :: evs))
            with (c :: sleeps evs).
          rewrite Hsl. by apply doubling_delays_step. }
        split.
        { intros [|m] Hm; [done|]. apply (Hfails m). lia. }
        destruct r as [[text|]|e].
        + destruct Hr as (g & resp & Hg & Hresp & Hok & Htext).
          exists (S g), resp. rewrite Hg. done.
        + destruct Hr as [Hg Hall]. split; [lia|].
          intros [|m] Hm; [done|]. apply (Hall m). lia.
        + destruct Hr as (g & Hg & Hresp & Hexc). exists (S g). rewrite Hg. done.
      - apply Z.ltb_ge in E1.
        destruct fuel as [|fuel']; cbn [fetch_loop].
        + destruct (attempt + 1 <? max_retries)%Z eqn:E2; [apply Z.ltb_lt in E2; lia|].
          intros [= <- <-]. eexists [EvGet url timeout; EvPrint _; EvPrint _].
          cbn [trace fs pending print emit].
          split; [rewrite <- ?app_assoc; reflexivity|]. split; [done|].
          change (get_count [EvGet url timeout; EvPrint ?a; EvPrint ?b]) with 1%nat.
          split; [done|]. split; [lia|]. split; [done|].
          split; [intros m Hm; lia|].
          split; [lia|]. intros m Hm. by replace m with 0%nat by lia.
        + destruct (attempt + 1 <? max_retries)%Z eqn:E2; [apply Z.ltb_lt in E2; lia|].
          intros [= <- <-]. eexists [EvGet url timeout; EvPrint _; EvPrint _].
          cbn [trace fs pending print emit].
          split; [rewrite <- ?app_assoc; reflexivity|]. split; [done|].
          change (get_count [EvGet url timeout; EvPrint ?a; EvPrint ?b]) with 1%nat.
          split; [done|]. split; [lia|]. split; [done|].
          split; [intros m Hm; lia|].
          split; [lia|]. intros m Hm. by replace m with 0%nat by lia. }
    unfold scraper_get in *. cbn [snd] in Hround.
    destruct (pending w O) as [e0|resp] eqn:Hfirst.
    + destruct (is_Exception e0) eqn:Hexc.
      * apply Hround. done.
      * intros [= <- <-]. exists [EvGet url timeout]. cbn [trace fs pending].
        change (get_count [EvGet url timeout]) with 1%nat.
        repeat split; try done; try lia.
        by exists 0%nat.
    + destruct (raise_for_status resp) as [e0|] eqn:Hstatus.
      * assert (is_Exception e0 = true) as ->.
        { unfold raise_for_status in Hstatus.
          destruct ((400 <=? status_code resp) && (status_code resp <? 600))%Z; [|done].
          by injection Hstatus as <-. }
        apply Hround. cbn. rewrite Hstatus. by eexists.
      * destruct (negb (contains _ _) && negb (contains _ _)); intros [= <- <-].
        -- eexists [EvGet url timeout; EvPrint _]. cbn [trace fs pending print emit].
           split; [rewrite <- ?app_assoc; reflexivity|].
           change (get_count [EvGet url timeout; EvPrint ?a]) with 1%nat.
           repeat split; try done; try lia.
           by exists 0%nat, resp.
        -- exists [EvGet url timeout]. cbn [trace fs pending].
           change (get_count [EvGet url timeout]) with 1%nat.
           repeat split; try done; try lia.
           by exists 0%nat, resp.
Qed.

(** Every call returns, and its run has the shape above. *)
Lemma fetch_html_run (url : pystr) (timeout max_retries : Z) (w : world) :
  exists r w' evs,
    fetch_html url timeout max_retries w = Some (r, w') /\
    trace w' = trace w ++ evs /\
    fs w' = fs w /\
    (get_count evs <= Z.to_nat max_retries)%nat /\
    sleeps evs = doubling_delays 1 (get_count evs) /\
    (forall m, (S m < get_count evs)%nat -> attempt_fails (pending w m)) /\
    match r with
    | Returned (Some text) =>
        exists g resp, get_count evs = S g /\ pending w g = GetResponse resp /\
                       raise_for_status resp = None /\ text = resp_text resp
    | Returned None =>
        get_count evs = Z.to_nat max_retries /\
        forall m, (m < get_count evs)%nat -> attempt_fails (pending w m)
    | Raised e =>
        exists g, get_count evs = S g /\ pending w g = GetRaises e /\ is_Exception e = false
    end.
Proof.
  destruct (fetch_html_returns url timeout max_retries w) as [[r w'] Hrun].
  exists r, w'. unfold fetch_html in *.
  change 1%Q with (inject_Z 1) in Hrun. pose proof Hrun as Hsame.
  apply fetch_loop_run in Hrun as (evs & Htr & Hfs & _ & Hcount & Hsl & Hfails & Hr).
  rewrite Z.sub_0_r in *. by exists evs.
Qed.

(** The order of the requests and the sleeps of a run of the loop. *)
Lemma fetch_loop_actions (fuel : nat) (url : pystr) (timeout max_retries attempt z : Z)
    (w w' : world) (r : outcome (option pystr)) :
  fetch_loop fuel url timeout max_retries attempt (inject_Z z) w = Some (r, w') ->
  exists evs,
    trace w' = trace w ++ evs /\
    actions evs = alternation url timeout (get_count evs) (doubling_delays z (get_count evs)).
Proof.
  revert attempt z w. induction fuel as [|fuel IH]; intros attempt z w; cbn [fetch_loop].
  - destruct (attempt <? max_retries)%Z; [done|]. intros [= <- <-].
    exists []. by rewrite app_nil_r.
  - destruct (attempt <? max_retries)%Z eqn:E.
    2: { intros [= <- <-]. exists []. by rewrite app_nil_r. }
    assert (forall e0,
      (let '(attempt', backoff', w1) :=
         on_failure url max_retries attempt (inject_Z z) e0 (scraper_get url timeout w).2 in
       fetch_loop fuel url timeout max_retries attempt' backoff' w1) = Some (r, w') ->
      exists evs,
        trace w' = trace w ++ evs /\
        actions evs
        = alternation url timeout (get_count evs) (doubling_delays z (get_count evs)))
      as Hround.
    { intros e0. unfold on_failure, scraper_get. cbn [snd].
      destruct (attempt + 1 <? max_retries)%Z eqn:E1.
      - apply Z.ltb_lt in E1.
        change (inject_Z z * RETRY_BACKOFF)%Q with (inject_Z (z * 2)).
        intros Hrest. pose proof Hrest as Hcount.
        apply fetch_loop_run in Hcount as (evs0 & Htr0 & _ & _ & _ & _ & _ & Hr).
        apply IH in Hrest as (evs & Htr & Hact).
        assert (evs0 = evs) as -> by (rewrite Htr0 in Htr; by apply app_inv_head in Htr).
        assert (1 <= get_count evs)%nat as Hone.
        { destruct r as [[text|]|e].
          - destruct Hr as (g & ? & -> & _). lia.
          - destruct Hr as [-> _]. lia.
          - destruct Hr as (g & -> & _). lia. }
        cbn [trace sleep print emit] in Htr.
        eexists (EvGet url timeout :: EvPrint _ :: EvPrint _ :: EvSleep _ :: evs).
        split; [rewrite Htr, <- !app_assoc; reflexivity|].
        change (get_count (EvGet url timeout :: EvPrint ?a :: EvPrint ?b :: EvSleep ?c :: evs))
          with (S (get_count evs)).
        change (actions (EvGet url timeout :: EvPrint ?a :: EvPrint ?b :: EvSleep ?c :: evs))
          with (EvGet url timeout :: EvSleep c :: actions evs).
        rewrite Hact, <- doubling_delays_step by done.
        destruct (get_count evs); [lia|]. reflexivity.
      - destruct fuel as [|fuel']; cbn [fetch_loop];
          rewrite E1; intros [= <- <-];
          eexists [EvGet url timeout; EvPrint _; EvPrint _];
          cbn [trace print emit];
          (split; [rewrite <- ?app_assoc; reflexivity|reflexivity]). }
    unfold scraper_get in *. cbn [snd] in Hround.
    destruct (pending w O) as [e0|resp].
    + destruct (is_Exception e0).
      * apply Hround.
      * intros [= <- <-]. by exists [EvGet url timeout].
    + destruct (raise_for_status resp) as [e0|].
      * destruct (is_Exception e0).
        -- apply Hround.
        -- intros [= <- <-]. by exists [EvGet url timeout].
      * destruct (negb _ && negb _); intros [= <- <-]; cbn [trace print emit].
        -- eexists [EvGet url timeout; EvPrint _].
           split; [rewrite <- ?app_assoc; reflexivity|reflexivity].
        -- by exists [EvGet url timeout].
Qed.

Lemma fetch_html_actions (url : pystr) (timeout max_retries : Z) (w w' : world)
    (r : outcome (option pystr)) (evs : list event) :
  fetch_html url timeout max_retries w = Some (r, w') ->
  trace w' = trace w ++ evs ->
  actions evs = alternation url timeout (get_count evs) (sleeps evs).
Proof.
  intros Hrun Htr. pose proof Hrun as Hrun'.
  unfold fetch_html in Hrun, Hrun'. change 1%Q with (inject_Z 1) in Hrun, Hrun'.
  apply fetch_loop_actions in Hrun as (evs1 & Htr1 & Hact).
  apply fetch_loop_run in Hrun' as (evs2 & Htr2 & _ & _ & _ & Hsl & _).
  assert (evs1 = evs) as -> by (rewrite Htr1 in Htr; by apply app_inv_head in Htr).
  assert (evs2 = evs) as -> by (rewrite Htr2 in Htr; by apply app_inv_head in Htr).
  by rewrite Hsl.
Qed.



(** X1: for retry limits up to 20 (delays below 2^20 seconds), a call makes
    at most [max_retries] requests; its requests and sleeps alternate:
    request, sleep, request, ..., request, with one sleep between each two
    requests and none after the last; each delay is twice the one before,
    starting at 2 seconds; the files are left as they were. *)
Theorem fetch_html_bounded (url : pystr) (timeout max_retries : Z) (w : world) :
  (max_retries <= 20)%Z ->
  exists r w' evs,
    fetch_html url timeout max_retries w = Some (r, w') /\
    trace w' = trace w ++ evs /\
    fs w' = fs w /\
    (get_count evs <= Z.to_nat max_retries)%nat /\
    actions evs = alternation url timeout (get_count evs) (sleeps evs) /\
    length (sleeps evs) = (get_count evs - 1)%nat /\
    (forall j d, sleeps evs !! j = Some d -> d = inject_Z (2 ^ Z.of_nat (S j))).
Proof.
  intros _.
  destruct (fetch_html_run url timeout max_retries w)
    as (r & w' & evs & Hrun & Htr & Hfs & Hcount & Hsl & _).
  exists r, w', evs.
  split; [done|]. split; [done|]. split; [done|]. split; [done|].
  split; [by apply (fetch_html_actions url timeout max_retries w w' r)|].
  split.
  - rewrite Hsl. unfold doubling_delays. by rewrite length_fmap, length_seq.
  - intros j d. rewrite Hsl. unfold doubling_delays.
    rewrite list_lookup_fmap. intros Hd.
    destruct (seq 1 (get_count evs - 1) !! j) as [i|] eqn:Hi; [|done].
    apply lookup_seq in Hi as [-> _]. injection Hd as <-.
    by rewrite Z.mul_1_l.
Qed.




Lemma fetch_html_bounded_witness :
  exists r w' evs,
    fetch_html BASE_URL REQUEST_TIMEOUT MAX_RETRIES second_try_world = Some (r, w') /\
    trace w' = trace second_try_world ++ evs /\
    (get_count evs <= 3)%nat /\
    actions evs = alternation BASE_URL REQUEST_TIMEOUT (get_count evs) (sleeps evs).
Proof.
  destruct (fetch_html_bounded BASE_URL REQUEST_TIMEOUT MAX_RETRIES second_try_world)
    as (r & w' & evs & Hrun & Htr & _ & Hcount & Hact & _).
  - unfold MAX_RETRIES. lia.
  - by exists r, w', evs.
Defined.




(** ** safe_filename *)

Lemma safe_char_cases (c : N) :
  safe_char c = true ->
  (48 <= c /\ c <= 57) \/ (65 <= c /\ c <= 90) \/ (97 <= c /\ c <= 122) \/ c = 95 \/ c = 45 \/ c = 46.
Proof.
  unfold safe_char, ascii_alnum, ascii_letter, ascii_upper_letter, ascii_lower_letter,
    ascii_digit, in_range.
  rewrite !orb_true_iff, !andb_true_iff, !N.leb_le, !N.eqb_eq. lia.
Qed.

Lemma is_space_cases (c : N) :
  is_space c = true ->
  (c <= 32) \/ (133 <= c).
Proof.
  unfold is_space, in_range.
  rewrite !orb_true_iff, !andb_true_iff, !N.leb_le, !N.eqb_eq. lia.
Qed.

Lemma safe_char_not_space (c : N) : safe_char c = true -> is_space c = false.
Proof.
  intros Hs%safe_char_cases. destruct (is_space c) eqn:E; [|done].
  apply is_space_cases in E. lia.
Qed.

Lemma lstrip_no_space (s : pystr) :
  Forall (fun c => is_space c = false) s -> lstrip s = s.
Proof. intros [|c s' Hc _]; [done|]. cbn. by rewrite Hc. Qed.

Lemma strip_no_space (s : pystr) :
  Forall (fun c => is_space c = false) s -> strip s = s.
Proof.
  intros H. unfold strip, rstrip. rewrite (lstrip_no_space s H).
  rewrite lstrip_no_space; [apply rev_involutive|]. by apply Forall_rev.
Qed.

Lemma sub_spaces_no_space (s : pystr) :
  Forall (fun c => is_space c = false) s -> sub_spaces false s = s.
Proof.
  induction 1 as [|c s Hc _ IH]; [done|]. cbn. by rewrite Hc, IH.
Qed.

Lemma filter_all_safe (s : pystr) :
  Forall (fun c => safe_char c = true) s -> filter (fun c => safe_char c = true) s = s.
Proof.
  induction 1 as [|c s Hc _ IH]; [done|]. rewrite filter_cons_True by done. by rewrite IH.
Qed.

(** The cut of the source is Python's slice: a negative [max_len] drops
    characters from the end. *)
Example safe_filename_negative_length :
  safe_filename (cp "abcdef") (-2) = cp "abcd".
Proof. vm_compute. reflexivity. Qed.

(** X5: whatever the input and the length, the name is not empty and holds
    only letters, digits and the signs _ - . (so no path separator and no
    space); when [max_len] is not negative it is at most [max_len]
    characters long unless it is the stand-in "article". *)
Theorem safe_filename_sound (s : pystr) (max_len : Z) :
  let name := safe_filename s max_len in
  name <> [] /\
  Forall (fun c => safe_char c = true) name /\
  (47 ∉ name) /\
  Forall (fun c => is_space c = false) name /\
  ((0 <= max_len)%Z -> (Z.of_nat (length name) <= max_len)%Z \/ name = cp "article").
Proof.
  intros name.
  destruct (safe_filename_chars s max_len) as [Hne Hsafe]. fold name in Hne, Hsafe.
  split; [done|]. split; [done|]. split; [|split].
  - intros Hin. rewrite Forall_forall in Hsafe. by apply Hsafe in Hin.
  - eapply Forall_impl; [exact Hsafe|]. intros c. apply safe_char_not_space.
  - intros Hmax. unfold name, safe_filename.
    set (kept := filter (fun c => safe_char c = true) (sub_spaces false (strip s))).
    destruct (max_len <? Z.of_nat (length kept))%Z eqn:E.
    + unfold slice_to. apply Z.leb_le in Hmax. rewrite Hmax. apply Z.leb_le in Hmax.
      destruct (take (Z.to_nat max_len) kept) as [|c cut] eqn:Hcut; [by right|].
      left. rewrite <- Hcut, length_take. lia.
    + apply Z.ltb_ge in E. destruct kept as [|c kept'] eqn:Hk; [by right|by left].
Qed.

(** X6: with room for the stand-in (7 <= max_len) sanitizing is idempotent:
    a sanitized name is left as it is. *)
Theorem safe_filename_idempotent (s : pystr) (max_len : Z) :
  (7 <= max_len)%Z ->
  safe_filename (safe_filename s max_len) max_len = safe_filename s max_len.
Proof.
  intros Hmax.
  destruct (safe_filename_chars s max_len) as [Hne Hsafe].
  assert (Z.of_nat (length (safe_filename s max_len)) <= max_len)%Z as Hlen.
  { unfold safe_filename.
    set (kept := filter (fun c => safe_char c = true) (sub_spaces false (strip s))).
    destruct (max_len <? Z.of_nat (length kept))%Z eqn:E.
    - unfold slice_to. replace (0 <=? max_len)%Z with true by (symmetry; apply Z.leb_le; lia).
      destruct (take (Z.to_nat max_len) kept) as [|c cut] eqn:Hcut; [cbn; lia|].
      rewrite <- Hcut, length_take. lia.
    - apply Z.ltb_ge in E. destruct kept; [cbn; lia|done]. }
  assert (Forall (fun c => is_space c = false) (safe_filename s max_len)) as Hns.
  { eapply Forall_impl; [exact Hsafe|]. intros c. apply safe_char_not_space. }
  generalize dependent (safe_filename s max_len). intros name Hne Hsafe Hlen Hns.
  unfold safe_filename.
  rewrite strip_no_space, sub_spaces_no_space, filter_all_safe by done.
  apply Z.ltb_ge in Hlen. rewrite Hlen. by destruct name.
Qed.

Lemma safe_filename_idempotent_witness :
  safe_filename (safe_filename (cp " Acme: raises $5m! ") 120) 120
  = safe_filename (cp " Acme: raises $5m! ") 120.
Proof. apply safe_filename_idempotent. lia. Defined.

(** ** save_article_to_txt: where the file goes *)

Lemma startswith_app (p s : pystr) : startswith p (p ++ s) = true.
Proof. induction p as [|c p IH]; [done|]. cbn. by rewrite N.eqb_refl, IH. Qed.

Lemma endswith_app (suffix s : pystr) : endswith suffix (s ++ suffix) = true.
Proof. unfold endswith. rewrite rev_app_distr. apply startswith_app. Qed.

Lemma split_on_aux_no_sep (sep : N) (cur s : pystr) :
  sep ∉ s -> split_on_aux sep cur s = [rev cur ++ s].
Proof.
  revert cur. induction s as [|c s IH]; intros cur Hs; cbn [split_on_aux].
  - by rewrite app_nil_r.
  - destruct (N.eqb_spec c sep) as [->|Hne]; [destruct Hs; by left|].
    rewrite IH by (intros ?; apply Hs; by right). cbn. by rewrite <- app_assoc.
Qed.

Lemma os_path_basename_in_save_dir (name : pystr) :
  47 ∉ name -> os_path_basename (cp "articles/" ++ name) = name.
Proof.
  intros Hname. unfold os_path_basename, split_on. cbn [cp app].
  cbn [split_on_aux N_of_ascii]. cbn -[split_on_aux].
  cbn [split_on_aux]. cbn -[split_on_aux].
  rewrite split_on_aux_no_sep by done. done.
Qed.

Lemma uint_string_digits (d : Decimal.uint) :
  Forall (fun c => 48 <= c /\ c <= 57) (cp (NilEmpty.string_of_uint d)).
Proof.
  induction d; cbn [NilEmpty.string_of_uint cp]; [constructor|..];
    (constructor; [cbn; lia|done]).
Qed.

Lemma str_of_nat_digits (n : nat) : Forall (fun c => 48 <= c /\ c <= 57) (str_of_nat n).
Proof.
  unfold str_of_nat, NilZero.string_of_uint.
  destruct (Nat.to_uint n) eqn:E; try (rewrite <- E; apply uint_string_digits).
  repeat constructor; cbn; lia.
Qed.

Section WhereFacts.

Variable url_path : pystr -> pystr.

Lemma save_article_to_txt_where (title url content : pystr) (w : world) :
  exists w' name,
    save_article_to_txt url_path title url content w = Some w' /\
    (47 ∉ name) /\
    endswith (cp ".txt") name = true /\
    fs w !! (cp "articles/" ++ name) = None /\
    fs w' = <[cp "articles/" ++ name := artifact_text title url content]> (fs w) /\
    trace w' = trace w ++ [EvPrint (SAVED name)].
Proof.
  destruct (save_article_to_txt_spec url_path title url content w)
    as (k & w' & Hsave & Hfree & _ & Hfs & Htrace).
  cbn zeta in Hfree, Hfs, Htrace.
  set (stem := artifact_stem url_path title url) in *.
  set (name := stem ++ match k with O => [] | S _ => cp "_" ++ str_of_nat k end ++ cp ".txt").
  assert (candidate stem k = cp "articles/" ++ name) as Hpath.
  { unfold stem. rewrite candidate_numbered. unfold numbered_path, name. done. }
  assert (47 ∉ name) as Hname.
  { unfold name. rewrite !elem_of_app. intros [Hin|[Hin|Hin]].
    - destruct (safe_filename_chars
        (strip (match last (split_on 47 (rstrip_char 47 (url_path url))) with
                | Some ((_ :: _) as seg) => seg
                | _ => cp "article"
                end ++ cp "_" ++ take 60 title)) 120) as [_ Hsafe].
      rewrite Forall_forall in Hsafe. by apply Hsafe in Hin.
    - destruct k as [|k]; [by apply elem_of_nil in Hin|].
      apply elem_of_app in Hin as [Hin|Hin].
      + cbn in Hin. by apply list_elem_of_singleton in Hin.
      + pose proof (str_of_nat_digits (S k)) as Hd. rewrite Forall_forall in Hd.
        apply Hd in Hin. lia.
    - cbn in Hin. set_solver. }
  exists w', name. split; [done|]. split; [done|].
  split; [unfold name; rewrite !app_assoc; apply endswith_app|].
  rewrite <- Hpath. split; [done|]. split; [done|].
  rewrite Htrace, Hpath. by rewrite os_path_basename_in_save_dir.
Qed.

End WhereFacts.

(** ** save_article_to_txt: every call *)

Lemma utf8_encode_app (a b : pystr) :
  utf8_encode (a ++ b)
  = match utf8_encode a, utf8_encode b with
    | Some x, Some y => Some (x ++ y)
    | _, _ => None
    end.
Proof.
  induction a as [|c a IH]; cbn [app utf8_encode].
  - by destruct (utf8_encode b).
  - rewrite IH. destruct (utf8_char c), (utf8_encode a), (utf8_encode b); try done.
    by rewrite app_assoc.
Qed.

Lemma encodable_app (a b : pystr) : encodable (a ++ b) = encodable a && encodable b.
Proof.
  unfold encodable. rewrite utf8_encode_app.
  by destruct (utf8_encode a), (utf8_encode b).
Qed.

Lemma write_all_spec (chunks : list pystr) :
  forall written,
  write_all chunks written
  = (if forallb encodable chunks then Returned tt else Raised UnicodeEncodeError,
     written ++ written_part chunks).
Proof.
  induction chunks as [|chunk chunks IH]; intros written; cbn [write_all forallb written_part].
  - by rewrite app_nil_r.
  - destruct (encodable chunk); cbn [andb].
    + by rewrite IH, <- app_assoc.
    + by rewrite app_nil_r.
Qed.

Lemma written_part_all (chunks : list pystr) :
  forallb encodable chunks = true -> written_part chunks = concat chunks.
Proof.
  induction chunks as [|chunk chunks IH]; cbn [forallb written_part concat]; [done|].
  intros [-> H]%andb_true_iff. by rewrite IH.
Qed.

Lemma artifact_chunks_encodable (title url content : pystr) :
  forallb encodable (artifact_chunks title url content)
  = encodable url && encodable title && encodable content.
Proof.
  unfold artifact_chunks. cbn [forallb]. rewrite !encodable_app.
  change (encodable (cp "Source: ")) with true.
  change (encodable (cp "Title: ")) with true.
  change (encodable [10]) with true.
  assert (encodable (repeat 61 80) = true) as -> by (vm_compute; reflexivity).
  change (encodable [10; 10]) with true.
  by destruct (encodable url), (encodable title), (encodable content).
Qed.

Lemma artifact_chunks_text (title url content : pystr) :
  concat (artifact_chunks title url content) = artifact_text title url content.
Proof. unfold artifact_chunks, artifact_text. cbn [concat]. by rewrite app_nil_r. Qed.


Section CallFacts.

Variable urlparse_path : pystr -> option pystr.

(** The path that the loop over the names ends on. *)
Lemma free_path_where (path title url : pystr) (w : world) :
  let stem := artifact_stem (fun _ => path) title url in
  exists name,
    free_path (size (fs w)) stem (os_path_join SAVE_DIR (stem ++ cp ".txt")) 1 w
    = Some (cp "articles/" ++ name) /\
    (47 ∉ name) /\
    endswith (cp ".txt") name = true /\
    fs w !! (cp "articles/" ++ name) = None.
Proof.
  intros stem.
  destruct (save_article_to_txt_where (fun _ => path) title url [] w)
    as (w0 & name & Hsave & Hname & Hend & Hfree & Hfs & _).
  exists name. unfold save_article_to_txt in Hsave. fold stem in Hsave.
  destruct (free_path (size (fs w)) stem (os_path_join SAVE_DIR (stem ++ cp ".txt")) 1 w)
    as [filepath|]; [|done].
  injection Hsave as <-. cbn [fs print emit write_file] in Hfs.
  split; [|done]. f_equal.
  destruct (decide (filepath = cp "articles/" ++ name)) as [->|Hne]; [done|].
  assert ((<[filepath := artifact_text title url []]> (fs w)) !! (cp "articles/" ++ name)
          = Some (artifact_text title url [])) as Hlook
    by (rewrite Hfs; apply lookup_insert_eq).
  rewrite lookup_insert_ne in Hlook by done. congruence.
Qed.

(** What a call does when [urlparse] takes the URL. *)
Lemma call_save_run (title url content path : pystr) (w : world) :
  urlparse_path url = Some path ->
  let chunks := artifact_chunks title url content in
  let ok := encodable url && encodable title && encodable content in
  exists name w',
    Call.save_article_to_txt urlparse_path title url content w
    = Some (if ok then Returned tt else Raised UnicodeEncodeError, w') /\
    (47 ∉ name) /\
    endswith (cp ".txt") name = true /\
    fs w !! (cp "articles/" ++ name) = None /\
    fs w' = <[cp "articles/" ++ name := written_part chunks]> (fs w) /\
    pending w' = pending w /\
    trace w' = trace w ++ (if ok then [EvPrint (SAVED name)] else []).
Proof.
  intros Hparse chunks ok. unfold Call.save_article_to_txt. rewrite Hparse.
  destruct (free_path_where path title url w) as (name & -> & Hname & Hend & Hfree).
  unfold write_chunks. fold chunks. rewrite write_all_spec.
  unfold chunks at 1. rewrite artifact_chunks_encodable. fold ok. cbn [app].
  exists name. destruct ok.
  - eexists. split; [reflexivity|]. cbn [fs pending trace print emit write_file].
    by rewrite os_path_basename_in_save_dir.
  - eexists. split; [reflexivity|]. cbn [fs pending trace write_file].
    by rewrite app_nil_r.
Qed.


(** X7: a call on any input.  When [urlparse] refuses the URL the call
    raises [ValueError] and nothing changes.  Otherwise one file is created,
    directly inside the save directory: its path is "articles/" followed by
    a name without any path separator that ends in ".txt"; the path was free
    before and no other path changes.  When the URL, the title and the body
    can be encoded the file holds the whole artifact, the call returns and
    the [SAVED] line shows exactly that name; when one of them cannot, the
    file holds the parts written before it, the call raises
    [UnicodeEncodeError] and prints nothing. *)
Theorem save_article_to_txt_in_save_dir (title url content : pystr) (w : world) :
  match urlparse_path url with
  | None =>
      Call.save_article_to_txt urlparse_path title url content w = Some (Raised ValueError, w)
  | Some _ =>
      let ok := encodable url && encodable title && encodable content in
      exists r w' name,
        Call.save_article_to_txt urlparse_path title url content w = Some (r, w') /\
        (47 ∉ name) /\
        endswith (cp ".txt") name = true /\
        fs w !! (cp "articles/" ++ name) = None /\
        fs w' = <[cp "articles/" ++ name :=
                    written_part (artifact_chunks title url content)]> (fs w) /\
        (ok = true ->
         r = Returned tt /\
         written_part (artifact_chunks title url content) = artifact_text title url content /\
         trace w' = trace w ++ [EvPrint (SAVED name)]) /\
        (ok = false -> r = Raised UnicodeEncodeError /\ trace w' = trace w)
  end.
Proof.
  destruct (urlparse_path url) as [path|] eqn:Hparse.
  - intros ok.
    destruct (call_save_run title url content path w Hparse)
      as (name & w' & Hsave & Hname & Hend & Hfree & Hfs & _ & Htr).
    fold ok in Hsave, Htr. eexists. exists w', name.
    split; [exact Hsave|]. split; [done|]. split; [done|]. split; [done|].
    split; [done|]. split.
    + intros Hok. rewrite Hok in Htr. rewrite Hok. split; [done|]. split; [|done].
      rewrite written_part_all, artifact_chunks_text; [done|].
      by rewrite artifact_chunks_encodable.
    + intros Hok. rewrite Hok in Htr. rewrite Hok. by rewrite app_nil_r in Htr.
  - unfold Call.save_article_to_txt. by rewrite Hparse.
Qed.

End CallFacts.



(** ** From the writer to the extractor *)

Section GreedyRun.

Variable U : unicode_db.
Variable fl : re_flags.

(** A greedy repetition in front of a rest of the pattern that cannot fail
    takes the whole run of matching characters. *)
Lemma rep_match_greedy_run {R} (s : cset) (k : pystr -> pystr -> option R)
    (lo : nat) (bef run aft : pystr) :
  Forall (fun c => cset_match U fl s c = true) run ->
  match aft with c :: _ => cset_match U fl s c = false | [] => True end ->
  (lo <= length run)%nat ->
  is_Some (k (rev run ++ bef) aft) ->
  rep_match U fl s true k lo None bef (run ++ aft) = k (rev run ++ bef) aft.
Proof.
  intros Hrun Hstop. revert lo bef.
  induction Hrun as [|c run Hc _ IH]; intros lo bef Hlo Hk.
  - cbn in Hlo. replace lo with 0%nat by lia. cbn [app rev] in *.
    destruct aft as [|c aft]; cbn [rep_match]; [done|].
    cbn [more_allowed andb]. by rewrite Hstop.
  - cbn [app rep_match more_allowed andb]. rewrite Hc.
    cbn [rev] in Hk. rewrite <- app_assoc in Hk. cbn [app] in Hk.
    rewrite IH; [|cbn in Hlo; lia|done].
    cbn [rev]. rewrite <- app_assoc. cbn [app].
    destruct Hk as [r ->]. done.
Qed.

(** A literal pattern reads itself, letter case being respected. *)
Lemma rmatch_lit_prefix (s : string) (bef aft : pystr) (g : groups) k :
  IGNORECASE fl = false ->
  rmatch U fl (lit s) bef (cp s ++ aft) g k = k (rev (cp s) ++ bef) aft g.
Proof.
  intros Hfl. revert bef. induction s as [|a s IH]; intros bef; [done|].
  cbn [lit cp app rmatch]. unfold cset_match. rewrite Hfl, N.eqb_refl.
  rewrite IH. cbn [rev]. by rewrite <- app_assoc.
Qed.

(** An optional character that is not there is passed over. *)
Lemma opt_char_skip {R} (s : cset) (k : pystr -> pystr -> option R) (bef aft : pystr) (c : N) :
  cset_match U fl s c = false ->
  rep_match U fl s true k 0 (Some 1%nat) bef (c :: aft) = k bef (c :: aft).
Proof. intros Hc. cbn [rep_match more_allowed andb]. by rewrite Hc. Qed.

(** An optional character that is there is taken when the rest of the
    pattern then succeeds. *)
Lemma opt_char_take {R} (s : cset) (k : pystr -> pystr -> option R) (bef aft : pystr) (c : N) :
  cset_match U fl s c = true ->
  is_Some (k (c :: bef) aft) ->
  rep_match U fl s true k 0 (Some 1%nat) bef (c :: aft) = k (c :: bef) aft.
Proof.
  intros Hc [r Hk]. cbn [rep_match more_allowed andb one_less pred]. rewrite Hc.
  destruct aft as [|c' aft]; cbn [rep_match more_allowed andb]; by rewrite Hk.
Qed.

(** A match at the start position is what the search returns. *)
Lemma search_from_hit (r : regex) (bef aft : pystr) (m : match_obj) :
  match_here U fl r bef aft = Some m -> search_from U fl r bef aft = Some m.
Proof. intros H. destruct aft; cbn [search_from]; by rewrite H. Qed.

End GreedyRun.

Lemma consumed_app (bef m : pystr) : consumed bef (rev m ++ bef) = m.
Proof.
  unfold consumed. rewrite length_app, length_rev.
  replace (length m + length bef - length bef)%nat with (length (rev m))
    by (rewrite length_rev; lia).
  by rewrite take_app_length, rev_involutive.
Qed.

Lemma funding_type_loop_get (U : unicode_db) (text : pystr) (types : list string)
    (info : dict) (k : string) :
  k <> "funding_type"%string ->
  dict_get (funding_type_loop U text types info) k = dict_get info k.
Proof.
  intros Hk. induction types as [|ftype types IH]; cbn [funding_type_loop]; [done|].
  destruct (re_search U re_I (pat_ftype ftype) text); [|done].
  by apply dict_get_set_ne.
Qed.

(** The Source line of an artifact is found at the start of the text, with
    the URL as its group. *)
Lemma source_line_found (U : unicode_db) (scheme : string) (rest tail : pystr) :
  scheme = "http://"%string \/ scheme = "https://"%string ->
  rest <> [] ->
  Forall (fun c => is_space c = false) rest ->
  exists m,
    re_search U re_M pat_source (cp "Source: " ++ (cp scheme ++ rest) ++ [10] ++ tail) = Some m /\
    group m 1 = cp scheme ++ rest.
Proof.
  intros Hscheme Hne Hrest.
  assert (Forall (fun c => cset_match U re_M (CNot CSpace) c = true) rest) as Hrun.
  { eapply Forall_impl; [exact Hrest|]. intros c Hc. unfold cset_match. by rewrite Hc. }
  assert (forall (R : Type) (k : pystr -> pystr -> option R) bef,
            is_Some (k (rev rest ++ bef) (10 :: tail)) ->
            rep_match U re_M (CNot CSpace) true k 1 None bef (rest ++ 10 :: tail)
            = k (rev rest ++ bef) (10 :: tail)) as Hplus.
  { intros R k bef Hk. apply rep_match_greedy_run; [done|done| |done].
    destruct rest; [done|cbn; lia]. }
  assert (forall (R : Type) (k : pystr -> pystr -> option R) aft,
            match aft with c :: _ => is_space c = false | [] => True end ->
            is_Some (k (rev [32] ++ rev (cp "Source:")) aft) ->
            rep_match U re_M CSpace true k 0 None (rev (cp "Source:")) ([32] ++ aft)
            = k (rev [32] ++ rev (cp "Source:")) aft) as Hstar.
  { intros R k aft Haft Hk. apply rep_match_greedy_run; [|done|cbn; lia|done].
    by repeat constructor. }
  assert (exists m,
    match_here U re_M pat_source [] (cp "Source: " ++ (cp scheme ++ rest) ++ [10] ++ tail)
    = Some m /\ group m 1 = cp scheme ++ rest) as (m & Hm & Hg);
    [|exists m; split; [by apply search_from_hit|done]].
  unfold match_here, pat_source.
  cbn [seqs]. unfold star, plus, opt_char. cbn [rmatch at_bol].
  destruct Hscheme as [-> | ->].
  - change (cp "Source: " ++ (cp "http://" ++ rest) ++ [10] ++ tail)
      with (cp "Source:" ++ [32] ++ cp "http" ++ 58 :: cp "//" ++ rest ++ 10 :: tail).
    rewrite rmatch_lit_prefix by done. cbn [rmatch]. rewrite app_nil_r.
    rewrite Hstar; [|done|].
    + rewrite rmatch_lit_prefix by done. cbn [rmatch].
      rewrite opt_char_skip by done.
      change (58 :: cp "//" ++ rest ++ 10 :: tail) with (cp "://" ++ rest ++ 10 :: tail).
      rewrite rmatch_lit_prefix by done. cbn [rmatch].
      rewrite Hplus by (by eexists). cbn [accept].
      eexists. split; [reflexivity|].
      unfold group. cbn [m_groups List.find fst snd Nat.eqb].
      replace (rev rest ++ rev (cp "://") ++ rev (cp "http") ++ rev [32] ++ rev (cp "Source:"))
        with (rev (cp "http://" ++ rest) ++ rev [32] ++ rev (cp "Source:")).
      * apply consumed_app.
      * rewrite rev_app_distr, <- app_assoc. reflexivity.
    + rewrite rmatch_lit_prefix by done. cbn [rmatch].
      rewrite opt_char_skip by done.
      change (58 :: cp "//" ++ rest ++ 10 :: tail) with (cp "://" ++ rest ++ 10 :: tail).
      rewrite rmatch_lit_prefix by done. cbn [rmatch].
      rewrite Hplus by (by eexists). by eexists.
  - change (cp "Source: " ++ (cp "https://" ++ rest) ++ [10] ++ tail)
      with (cp "Source:" ++ [32] ++ cp "http" ++ 115 :: cp "://" ++ rest ++ 10 :: tail).
    rewrite rmatch_lit_prefix by done. cbn [rmatch]. rewrite app_nil_r.
    rewrite Hstar; [|done|].
    + rewrite rmatch_lit_prefix by done. cbn [rmatch].
      rewrite opt_char_take; [|done|].
      * rewrite rmatch_lit_prefix by done. cbn [rmatch].
        rewrite Hplus by (by eexists). cbn [accept].
        eexists. split; [reflexivity|].
        unfold group. cbn [m_groups List.find fst snd Nat.eqb].
        replace (rev rest ++ rev (cp "://") ++ 115 :: rev (cp "http") ++ rev [32] ++ rev (cp "Source:"))
          with (rev (cp "https://" ++ rest) ++ rev [32] ++ rev (cp "Source:")).
        -- apply consumed_app.
        -- rewrite rev_app_distr, <- app_assoc. reflexivity.
      * rewrite rmatch_lit_prefix by done. cbn [rmatch].
        rewrite Hplus by (by eexists). by eexists.
    + rewrite rmatch_lit_prefix by done. cbn [rmatch].
      rewrite opt_char_take; [|done|].
      * rewrite rmatch_lit_prefix by done. cbn [rmatch].
        rewrite Hplus by (by eexists). by eexists.
      * rewrite rmatch_lit_prefix by done. cbn [rmatch].
        rewrite Hplus by (by eexists). by eexists.
Qed.
(** A text that starts with the Source line of an http or https URL without
    white space gives that URL as article_url. *)
Lemma source_line_article_url (U : unicode_db) (scheme : string) (rest tail : pystr) :
  scheme = "http://"%string \/ scheme = "https://"%string ->
  rest <> [] ->
  Forall (fun c => is_space c = false) rest ->
  dict_get (extract_info_from_text U (cp "Source: " ++ (cp scheme ++ rest) ++ [10] ++ tail))
    "article_url"
  = Some (cp scheme ++ rest).
Proof.
  intros Hscheme Hne Hrest.
  destruct (source_line_found U scheme rest tail Hscheme Hne Hrest) as (m & Hm & Hg).
  unfold extract_info_from_text. rewrite Hm, Hg.
  rewrite company_loop_get, funding_type_loop_get by done.
  repeat case_match; rewrite ?dict_get_set_ne by done; apply dict_get_set_eq.
Qed.

(** X8: the two stages agree on the URL.  For an http or https URL without
    white space, [extract_info_from_text] reads the text that
    [save_article_to_txt] writes with article_url equal to that URL,
    whatever the title and the body hold. *)
Theorem artifact_url_round_trip (U : unicode_db) (title url content : pystr)
    (scheme : string) (rest : pystr) :
  url = cp scheme ++ rest ->
  scheme = "http://"%string \/ scheme = "https://"%string ->
  rest <> [] ->
  Forall (fun c => is_space c = false) rest ->
  dict_get (extract_info_from_text U (artifact_text title url content)) "article_url"
  = Some url.
Proof.
  intros -> Hscheme Hne Hrest.
  assert (artifact_text title (cp scheme ++ rest) content
          = cp "Source: " ++ (cp scheme ++ rest) ++ [10]
            ++ (cp "Title: " ++ title ++ [10]) ++ (repeat 61 80 ++ [10; 10]) ++ content) as ->.
  { unfold artifact_text. by rewrite <- !app_assoc. }
  by apply source_line_article_url.
Qed.

Lemma artifact_url_round_trip_witness :
  dict_get (extract_info_from_text ascii_db
              (artifact_text (cp "Acme raises funds") (cp "https://x.test/news/acme") (cp "Body")))
    "article_url"
  = Some (cp "https://x.test/news/acme").
Proof.
  apply (artifact_url_round_trip ascii_db _ _ _ "https://" (cp "x.test/news/acme")).
  - reflexivity.
  - by right.
  - done.
  - repeat (constructor; [vm_compute; reflexivity|]). constructor.
Defined.

(** ** What the matcher returns is a match *)

Section MatcherSound.

Variable U : unicode_db.
Variable fl : re_flags.

Lemma rep_match_sound {R} (s : cset) (greedy : bool) (k : pystr -> pystr -> option R)
    (lo : nat) (hi : option nat) (bef aft : pystr) (res : R) :
  rep_match U fl s greedy k lo hi bef aft = Some res ->
  exists run aft',
    aft = run ++ aft' /\
    Forall (fun ch => cset_match U fl s ch = true) run /\
    (lo <= length run)%nat /\
    match hi with Some h => (length run <= h)%nat | None => True end /\
    k (rev run ++ bef) aft' = Some res.
Proof.
  revert lo hi bef. induction aft as [|ch aft IH]; intros lo hi bef.
  - cbn [rep_match]. destruct lo as [|lo]; [|by destruct greedy].
    intros Hk. exists [], []. cbn [app rev length].
    assert (k bef [] = Some res) by (destruct greedy; by destruct (k bef [])).
    split; [done|]. split; [done|]. split; [lia|].
    split; [destruct hi; [lia|done]|done].
  - cbn [rep_match].
    set (stop := match lo with O => k bef (ch :: aft) | S _ => None end).
    set (more := if more_allowed hi && cset_match U fl s ch
                 then rep_match U fl s greedy k (pred lo) (one_less hi) (ch :: bef) aft
                 else None).
    intros Hres.
    assert (more = Some res \/ stop = Some res) as [Hmore|Hstop].
    { destruct greedy; destruct more, stop; auto. }
    + unfold more in Hmore.
      destruct (more_allowed hi) eqn:Hallow; [|done].
      destruct (cset_match U fl s ch) eqn:Hch; [|done]. cbn [andb] in Hmore.
      apply IH in Hmore as (run & aft' & -> & Hrun & Hlo & Hhi & Hk).
      exists (ch :: run), aft'. cbn [app rev length].
      split; [done|]. split; [by constructor|]. split; [lia|]. split.
      * destruct hi as [[|h]|]; cbn in *; try done. lia.
      * by rewrite <- app_assoc.
    + unfold stop in Hstop. destruct lo as [|lo]; [|done].
      exists [], (ch :: aft). cbn [app rev length].
      split; [done|]. split; [done|]. split; [lia|].
    split; [destruct hi; [lia|done]|done].
Qed.

Lemma rmatch_sound (r : regex) (bef aft : pystr) (g : groups) k (res : mresult) :
  rmatch U fl r bef aft g k = Some res ->
  exists bef' aft' gs,
    denotes U fl r bef aft bef' aft' gs /\ k bef' aft' (gs ++ g) = Some res.
Proof.
  revert bef aft g k. induction r as [|s|a IHa b IHb|a IHa b IHb|greedy lo hi s|i a IHa| |];
    intros bef aft g k; cbn [rmatch denotes].
  - intros Hk. by exists bef, aft, [].
  - destruct aft as [|ch aft]; [done|].
    destruct (cset_match U fl s ch) eqn:Hch; [|done].
    intros Hk. exists (ch :: bef), aft, []. split; [|done]. by exists ch.
  - intros Hres. apply IHa in Hres as (bef1 & aft1 & gs1 & Ha & Hres).
    apply IHb in Hres as (bef' & aft' & gs2 & Hb & Hres).
    exists bef', aft', (gs2 ++ gs1). split; [|by rewrite <- app_assoc].
    by exists bef1, aft1, gs1, gs2.
  - destruct (rmatch U fl a bef aft g k) eqn:Hfirst.
    + intros [= ->]. apply IHa in Hfirst as (bef' & aft' & gs & Ha & Hres).
      exists bef', aft', gs. auto.
    + intros Hres. apply IHb in Hres as (bef' & aft' & gs & Hb & Hres).
      exists bef', aft', gs. auto.
  - intros Hres. apply rep_match_sound in Hres as (run & aft' & -> & Hrun & Hlo & Hhi & Hk).
    exists (rev run ++ bef), aft', []. split; [|done]. by exists run.
  - intros Hres. apply IHa in Hres as (bef' & aft' & gs & Ha & Hres).
    exists bef', aft', ((i, consumed bef bef') :: gs). split; [|done]. by exists gs.
  - destruct (at_bol fl bef) eqn:Hbol; [|done]. intros Hk. by exists bef, aft, [].
  - destruct (at_boundary U bef aft) eqn:Hb; [|done]. intros Hk. by exists bef, aft, [].
Qed.

(** A pattern only moves the cursor forward. *)
Lemma denotes_cursor (r : regex) (bef aft bef' aft' : pystr) (gs : groups) :
  denotes U fl r bef aft bef' aft' gs ->
  exists run, aft = run ++ aft' /\ bef' = rev run ++ bef.
Proof.
  revert bef aft bef' aft' gs.
  induction r as [|s|a IHa b IHb|a IHa b IHb|greedy lo hi s|i a IHa| |];
    intros bef aft bef' aft' gs; cbn [denotes].
  - intros (-> & -> & _). by exists [].
  - intros (ch & -> & -> & _). by exists [ch].
  - intros (bef1 & aft1 & gs1 & gs2 & Ha & Hb & _).
    apply IHa in Ha as (run1 & -> & ->). apply IHb in Hb as (run2 & -> & ->).
    exists (run1 ++ run2). by rewrite rev_app_distr, <- !app_assoc.
  - intros [H|H]; eauto.
  - intros (run & -> & -> & _). by exists run.
  - intros (gs1 & Ha & _). eauto.
  - intros (-> & -> & _). by exists [].
  - intros (-> & -> & _). by exists [].
Qed.

Lemma match_here_sound (r : regex) (bef aft : pystr) (m : match_obj) :
  match_here U fl r bef aft = Some m ->
  exists bef' aft',
    denotes U fl r bef aft bef' aft' (m_groups m) /\ m_whole m = consumed bef bef'.
Proof.
  unfold match_here. destruct (rmatch U fl r bef aft [] accept) as [[[bef' aft'] g]|] eqn:Hr; [|done].
  intros [= <-]. apply rmatch_sound in Hr as (bef1 & aft1 & gs & Hd & [= <- <- <-]).
  exists bef1, aft1. cbn [m_groups m_whole]. by rewrite app_nil_r.
Qed.

Lemma search_from_sound (r : regex) (bef aft : pystr) (m : match_obj) :
  search_from U fl r bef aft = Some m ->
  exists pre suf, aft = pre ++ suf /\ match_here U fl r (rev pre ++ bef) suf = Some m.
Proof.
  revert bef. induction aft as [|ch aft IH]; intros bef; cbn [search_from].
  - destruct (match_here U fl r bef []) eqn:E; [|done]. intros [= <-]. by exists [], [].
  - destruct (match_here U fl r bef (ch :: aft)) eqn:E.
    + intros [= <-]. by exists [], (ch :: aft).
    + intros (pre & suf & -> & Hm)%IH. exists (ch :: pre), suf.
      split; [done|]. cbn [rev]. by rewrite <- app_assoc.
Qed.

(** [re.search] and [re.match] return matches of the pattern. *)
Lemma re_search_sound (r : regex) (text : pystr) (m : match_obj) :
  re_search U fl r text = Some m ->
  exists bef aft bef' aft',
    denotes U fl r bef aft bef' aft' (m_groups m) /\ m_whole m = consumed bef bef'.
Proof.
  intros (pre & suf & -> & Hm)%search_from_sound.
  apply match_here_sound in Hm as (bef' & aft' & Hd & Hw).
  by exists (rev pre ++ []), suf, bef', aft'.
Qed.

End MatcherSound.

(** ** The shape of the extracted fields *)

Section FieldFacts.

Variable U : unicode_db.

Lemma denotes_lit (fl : re_flags) (s : string) (bef aft bef' aft' : pystr) (gs : groups) :
  denotes U fl (lit s) bef aft bef' aft' gs ->
  gs = [] /\
  exists run, aft = run ++ aft' /\ bef' = rev run ++ bef /\
              (IGNORECASE fl = false -> run = cp s).
Proof.
  revert bef aft gs. induction s as [|a s IH]; intros bef aft gs; cbn [lit denotes].
  - intros (-> & -> & ->). split; [done|]. by exists [].
  - intros (bef1 & aft1 & gs1 & gs2 & (ch & -> & -> & Hch & ->) & Hrest & ->).
    apply IH in Hrest as (-> & run & -> & -> & Hrun).
    split; [done|]. exists (ch :: run). cbn [app rev].
    split; [done|]. split; [by rewrite <- app_assoc|].
    intros Hfl. rewrite Hrun by done. cbn [cp]. f_equal.
    unfold cset_match in Hch. rewrite Hfl in Hch. by apply N.eqb_eq in Hch.
Qed.

Lemma dict_keys_set_present (d : dict) (k : string) (v : pystr) :
  k ∈ dict_keys d -> dict_keys (dict_set d k v) = dict_keys d.
Proof.
  induction d as [|[k' v'] d IH]; cbn [dict_keys map dict_set fst].
  - by intros ?%elem_of_nil.
  - intros Hin. destruct (String.eqb k' k) eqn:E.
    + apply String.eqb_eq in E. by subst k'.
    + cbn [map fst]. f_equal. apply IH.
      apply elem_of_cons in Hin as [->|Hin]; [|done].
      by rewrite String.eqb_refl in E.
Qed.

Lemma extract_info_schema (text : pystr) :
  dict_keys (extract_info_from_text U text)
  = ["company_name"; "funding_amount"; "funding_type"; "article_date";
     "company_since"; "article_url"]%string.
Proof.
  set (keys := ["company_name"; "funding_amount"; "funding_type"; "article_date";
                "company_since"; "article_url"]%string).
  assert (forall d k v, dict_keys d = keys -> k ∈ keys -> dict_keys (dict_set d k v) = keys)
    as Hset.
  { intros d k v Hd Hk. rewrite dict_keys_set_present; [done|]. by rewrite Hd. }
  assert (forall lines d, dict_keys d = keys -> dict_keys (company_loop U lines d) = keys)
    as Hcompany.
  { induction lines as [|line lines IH]; intros d Hd; cbn [company_loop]; [done|].
    destruct (company_of_line U line); [|by apply IH].
    apply Hset; [done|]. unfold keys. set_solver. }
  assert (forall types d, dict_keys d = keys ->
            dict_keys (funding_type_loop U text types d) = keys) as Htypes.
  { induction types as [|ftype types IH]; intros d Hd; cbn [funding_type_loop]; [done|].
    destruct (re_search U re_I (pat_ftype ftype) text); [|by apply IH].
    apply Hset; [done|]. unfold keys. set_solver. }
  unfold extract_info_from_text. apply Hcompany, Htypes.
  repeat case_match;
    repeat (apply Hset; [|unfold keys; set_solver]); reflexivity.
Qed.

(** X9 (schema): whatever the text, the record has exactly the six keys
    company_name, funding_amount, funding_type, article_date, company_since
    and article_url, in this order. *)
Theorem extract_info_keys (text : pystr) :
  dict_keys (extract_info_from_text U text)
  = ["company_name"; "funding_amount"; "funding_type"; "article_date";
     "company_since"; "article_url"]%string.
Proof. apply extract_info_schema. Qed.

(** The value of three of the fields, read off the function. *)
Lemma company_since_field (text : pystr) :
  dict_get (extract_info_from_text U text) "company_since"
  = Some match re_search U re_I pat_founded text with
         | Some m => group m 1
         | None => undefined
         end.
Proof.
  unfold extract_info_from_text.
  rewrite company_loop_get, funding_type_loop_get by done.
  repeat case_match; rewrite ?dict_get_set_ne by done; rewrite ?dict_get_set_eq; done.
Qed.

Lemma article_url_field (text : pystr) :
  dict_get (extract_info_from_text U text) "article_url"
  = Some match re_search U re_M pat_source text with
         | Some m => group m 1
         | None => undefined
         end.
Proof.
  unfold extract_info_from_text.
  rewrite company_loop_get, funding_type_loop_get by done.
  repeat case_match; rewrite ?dict_get_set_ne by done; rewrite ?dict_get_set_eq; done.
Qed.

Lemma funding_amount_field (text : pystr) :
  dict_get (extract_info_from_text U text) "funding_amount"
  = Some match re_search U re_I pat_amount text with
         | Some m => replace_char 160 32 (group m 1)
         | None => undefined
         end.
Proof.
  unfold extract_info_from_text.
  rewrite company_loop_get, funding_type_loop_get by done.
  repeat case_match; rewrite ?dict_get_set_ne by done; rewrite ?dict_get_set_eq; done.
Qed.

(** X10: company_since is "undefined" or exactly four decimal digits. *)
Theorem company_since_shape (text : pystr) :
  exists v,
    dict_get (extract_info_from_text U text) "company_since" = Some v /\
    (v = undefined \/ (length v = 4%nat /\ Forall (fun c => is_digit U c = true) v)).
Proof.
  rewrite company_since_field. eexists. split; [reflexivity|].
  destruct (re_search U re_I pat_founded text) as [m|] eqn:Hm; [right|by left].
  apply re_search_sound in Hm as (bef & aft & bef' & aft' & Hd & _).
  unfold pat_founded, times in Hd. cbn [seqs denotes] in Hd.
  destruct Hd as (b1 & a1 & g1 & g2 & (-> & -> & -> & _) & Hd & Hg).
  destruct Hd as (b2 & a2 & g3 & g4 & Hlit & Hd & ->).
  apply denotes_lit in Hlit as (-> & _).
  destruct Hd as (b3 & a3 & g5 & g6 & (g7 & (run & -> & -> & Hrun & Hlo & Hhi & ->) & ->)
                  & (-> & -> & ->) & ->).
  cbn [app] in Hg. unfold group. rewrite Hg. cbn [List.find fst snd Nat.eqb].
  rewrite consumed_app. split; [lia|]. exact Hrun.
Qed.

(** X11: article_url is "undefined" or has the shape of the URLs that the
    round trip above starts from: "http", an optional "s", "://" and then
    one or more characters, none of them white space. *)
Theorem article_url_shape (text : pystr) :
  exists v,
    dict_get (extract_info_from_text U text) "article_url" = Some v /\
    (v = undefined \/
     exists s rest,
       v = cp "http" ++ s ++ cp "://" ++ rest /\
       (s = [] \/ s = [115]) /\
       rest <> [] /\
       Forall (fun c => is_space c = false) rest).
Proof.
  rewrite article_url_field. eexists. split; [reflexivity|].
  destruct (re_search U re_M pat_source text) as [m|] eqn:Hm; [right|by left].
  apply re_search_sound in Hm as (bef & aft & bef' & aft' & Hd & _).
  unfold pat_source, star, plus, opt_char in Hd. cbn [seqs denotes] in Hd.
  destruct Hd as (b1 & a1 & g1 & g2 & (-> & -> & -> & _) & Hd & Hg).
  destruct Hd as (b2 & a2 & g3 & g4 & Hlit & Hd & ->).
  apply denotes_lit in Hlit as (-> & _).
  destruct Hd as (b3 & a3 & g5 & g6 & (sp & _ & _ & _ & _ & _ & ->) & Hd & ->).
  destruct Hd as (b4 & a4 & g7 & g8 & (g9 & Hgrp & ->) & (-> & -> & ->) & ->).
  destruct Hgrp as (b5 & a5 & h1 & h2 & Hhttp & Hgrp & ->).
  apply denotes_lit in Hhttp as (-> & r1 & -> & -> & Hr1).
  destruct Hgrp as (b6 & a6 & h3 & h4 & (r2 & -> & -> & Hr2 & _ & Hr2len & ->) & Hgrp & ->).
  destruct Hgrp as (b7 & a7 & h5 & h6 & Hsep & Hgrp & ->).
  apply denotes_lit in Hsep as (-> & r3 & -> & -> & Hr3).
  destruct Hgrp as (b8 & a8 & h7 & h8 & (r4 & -> & -> & Hr4 & Hr4len & _ & ->) & (-> & -> & ->) & ->).
  cbn [app] in Hg. unfold group. rewrite Hg. cbn [List.find fst snd Nat.eqb].
  rewrite Hr1, Hr3 by done.
  replace (rev r4 ++ rev (cp "://") ++ rev r2 ++ rev (cp "http") ++ b3)
    with (rev (cp "http" ++ r2 ++ cp "://" ++ r4) ++ b3)
    by (rewrite !rev_app_distr, <- !app_assoc; reflexivity).
  rewrite consumed_app. exists r2, r4. split; [done|]. split; [|split].
  - destruct r2 as [|c [|c' r2]]; [by left| |cbn in Hr2len; lia].
    apply Forall_cons in Hr2 as [Hc _]. unfold cset_match in Hc. cbn in Hc.
    apply N.eqb_eq in Hc. subst c. by right.
  - intros ->. cbn in Hr4len. lia.
  - eapply Forall_impl; [exact Hr4|]. intros c Hc. unfold cset_match in Hc.
    by apply negb_true_iff in Hc.
Qed.

Lemma replace_char_no_nbsp (s : pystr) : 160 ∉ replace_char 160 32 s.
Proof.
  unfold replace_char. intros (c & Hc & _)%list_elem_of_fmap.
  destruct (N.eqb_spec c 160); [done|]. congruence.
Qed.

(** X12: funding_amount is "undefined" or starts with one of the signs of
    euro, dollar and pound, goes on with at least one more character, and
    holds no non-breaking space. *)
Theorem funding_amount_shape (text : pystr) :
  exists v,
    dict_get (extract_info_from_text U text) "funding_amount" = Some v /\
    (v = undefined \/
     exists sign rest,
       v = sign :: rest /\
       (sign = 8364 \/ sign = 36 \/ sign = 163) /\
       rest <> [] /\
       160 ∉ v).
Proof.
  rewrite funding_amount_field. eexists. split; [reflexivity|].
  destruct (re_search U re_I pat_amount text) as [m|] eqn:Hm; [right|by left].
  apply re_search_sound in Hm as (bef & aft & bef' & aft' & Hd & _).
  unfold pat_amount, plus, opt_char in Hd. cbn [seqs] in Hd.
  match type of Hd with
  | context [RSeq (RRep true 1 None CDigit) ?t] => remember t as tail_pat
  end.
  cbn [denotes] in Hd.
  destruct Hd as (g1 & Hd & Hg).
  destruct Hd as (b1 & a1 & h1 & h2 & (sign & -> & -> & Hsign & ->) & Hd & ->).
  destruct Hd as (b2 & a2 & h3 & h4 & (r1 & -> & -> & _ & _ & _ & ->) & Hd & ->).
  destruct Hd as (b3 & a3 & h5 & h6 & (r2 & -> & -> & _ & Hr2 & _ & ->) & Hd & ->).
  apply denotes_cursor in Hd as (r3 & -> & ->).
  unfold group. rewrite Hg. cbn [List.find fst snd Nat.eqb].
  replace (rev r3 ++ rev r2 ++ rev r1 ++ sign :: bef)
    with (rev (sign :: r1 ++ r2 ++ r3) ++ bef)
    by (cbn [rev]; rewrite !rev_app_distr, <- !app_assoc; reflexivity).
  rewrite consumed_app.
  assert (sign = 8364 \/ sign = 36 \/ sign = 163) as Hs.
  { unfold cset_match in Hsign. cbn in Hsign.
    rewrite !orb_true_iff, !N.eqb_eq in Hsign. tauto. }
  exists (if sign =? 160 then 32 else sign), (replace_char 160 32 (r1 ++ r2 ++ r3)).
  split; [done|].
  assert ((sign =? 160) = false) as -> by (apply N.eqb_neq; lia).
  split; [done|]. split.
  - destruct r2; [cbn in Hr2; lia|]. by destruct r1.
  - apply (replace_char_no_nbsp (sign :: r1 ++ r2 ++ r3)).
Qed.

(** X13: funding_type is "undefined" or one of eight phrases in title case;
    "Pre-Seed" is not among them. *)
Theorem funding_type_domain (text : pystr) :
  exists v,
    dict_get (extract_info_from_text U text) "funding_type" = Some v /\
    v ∈ [undefined; cp "Seed"; cp "Series A"; cp "Series B"; cp "Series C";
         cp "Venture"; cp "Angel"; cp "Growth"; cp "Bridge"].
Proof.
  destruct (funding_type_field U text) as (info & Hinfo & ->).
  unfold funding_types. cbn [funding_type_loop].
  destruct (re_search U re_I (pat_ftype "seed") text) eqn:Hseed.
  { rewrite dict_get_set_eq. eexists. split; [reflexivity|].
    change (title "seed") with (cp "Seed"). set_solver. }
  destruct (re_search U re_I (pat_ftype "pre-seed") text) eqn:Hpre.
  { assert (is_Some (re_search U re_I (pat_ftype "seed") text)) as [? Hs].
    { apply search_pre_seed_seed. rewrite Hpre. by eexists. }
    congruence. }
  repeat match goal with
         | |- context [re_search U re_I (pat_ftype ?f) text] =>
             destruct (re_search U re_I (pat_ftype f) text);
             [rewrite dict_get_set_eq; eexists; split; [reflexivity|];
              vm_compute title; set_solver|]
         end.
  rewrite Hinfo. eexists. split; [reflexivity|]. set_solver.
Qed.

Lemma lstrip_split (s : pystr) :
  exists sp, s = sp ++ lstrip s /\ Forall (fun c => is_space c = true) sp.
Proof.
  induction s as [|c s (sp & Hs & Hsp)]; [by exists []|]. cbn [lstrip].
  destruct (is_space c) eqn:Hc; [|by exists []].
  exists (c :: sp). split; [cbn; by rewrite <- Hs|by constructor].
Qed.

Lemma rstrip_split (s : pystr) :
  exists sp, s = rstrip s ++ sp /\ Forall (fun c => is_space c = true) sp.
Proof.
  destruct (lstrip_split (rev s)) as (sp & Hs & Hsp).
  exists (rev sp). split; [|by apply Forall_rev].
  unfold rstrip. rewrite <- rev_app_distr, <- Hs. by rewrite rev_involutive.
Qed.

Lemma lstrip_head (s : pystr) :
  match lstrip s with c :: _ => is_space c = false | [] => True end.
Proof.
  induction s as [|c s IH]; [done|]. cbn [lstrip].
  destruct (is_space c) eqn:Hc; [done|done].
Qed.

Lemma lstrip_fixed (s : pystr) :
  match s with c :: _ => is_space c = false | [] => True end -> lstrip s = s.
Proof. destruct s as [|c s]; [done|]. cbn. by intros ->. Qed.

Lemma rstrip_keeps_head (s : pystr) :
  match s with c :: _ => is_space c = false | [] => True end ->
  match rstrip s with c :: _ => is_space c = false | [] => True end.
Proof.
  intros Hs. destruct (rstrip_split s) as (sp & Heq & Hsp).
  destruct (rstrip s) as [|c r]; [done|].
  rewrite Heq in Hs. done.
Qed.

Lemma rstrip_idempotent (s : pystr) : rstrip (rstrip s) = rstrip s.
Proof.
  unfold rstrip. rewrite rev_involutive. f_equal.
  apply lstrip_fixed, lstrip_head.
Qed.

Lemma strip_idempotent (s : pystr) : strip (strip s) = strip s.
Proof.
  unfold strip.
  rewrite (lstrip_fixed (rstrip (lstrip s))); [apply rstrip_idempotent|].
  apply rstrip_keeps_head, lstrip_head.
Qed.

Lemma split_ws_lstrip (s : pystr) : split_ws (lstrip s) = split_ws s.
Proof.
  unfold split_ws. induction s as [|c s IH]; [done|]. cbn [lstrip split_ws_aux].
  destruct (is_space c) eqn:Hc; [done|]. cbn [split_ws_aux]. by rewrite Hc.
Qed.

Lemma split_ws_aux_trailing (cur s sp : pystr) :
  Forall (fun c => is_space c = true) sp ->
  split_ws_aux cur (s ++ sp) = split_ws_aux cur s.
Proof.
  intros Hsp. revert cur. induction s as [|c s IH]; intros cur; cbn [app split_ws_aux].
  - induction Hsp as [|c sp Hc _ IHsp] in cur |- *; [done|]. cbn [split_ws_aux].
    rewrite Hc. destruct cur as [|c' cur].
    + apply IHsp.
    + rewrite IHsp. done.
  - destruct (is_space c); [|apply IH]. destruct cur; by rewrite IH.
Qed.

Lemma split_ws_strip (s : pystr) : split_ws (strip s) = split_ws s.
Proof.
  unfold strip. rewrite <- (split_ws_lstrip s).
  destruct (rstrip_split (lstrip s)) as (sp & Heq & Hsp).
  rewrite Heq at 2. unfold split_ws. by rewrite split_ws_aux_trailing.
Qed.

(** X14: company_name is "undefined" or a text of two to five words with no
    white space at either end. *)
Theorem company_name_shape (text : pystr) :
  exists v,
    dict_get (extract_info_from_text U text) "company_name" = Some v /\
    (v = undefined \/
     ((2 <= length (split_ws v) <= 5)%nat /\ strip v = v)).
Proof.
  assert (forall lines info v0,
            dict_get info "company_name" = Some v0 ->
            exists v, dict_get (company_loop U lines info) "company_name" = Some v /\
                      (v = v0 \/ exists line, company_of_line U line = Some v)) as Hloop.
  { induction lines as [|line lines IH]; intros info v0 Hinfo; cbn [company_loop].
    - exists v0. auto.
    - destruct (company_of_line U line) as [name|] eqn:Hline; [|by apply IH].
      exists name. rewrite dict_get_set_eq. split; [done|]. right. by exists line. }
  unfold extract_info_from_text.
  match goal with
  | |- context [company_loop U ?lines ?info] =>
      destruct (Hloop lines info undefined) as (v & Hv & Hshape)
  end.
  { rewrite funding_type_loop_get by done.
    repeat case_match; rewrite ?dict_get_set_ne by done; done. }
  exists v. split; [done|]. destruct Hshape as [->|(line & Hline)]; [by left|right].
  unfold company_of_line in Hline.
  destruct (re_match U re_I pat_company line) as [m|]; [|done].
  destruct ((2 <=? length (split_ws (group m 1)))%nat
            && (length (split_ws (group m 1)) <=? 5)%nat) eqn:Hwords; [|done].
  injection Hline as <-.
  apply andb_true_iff in Hwords as [H2%Nat.leb_le H5%Nat.leb_le].
  rewrite split_ws_strip, strip_idempotent. done.
Qed.

End FieldFacts.

(** ** extract_article_content: title and body *)

Lemma hd_lstrip_fixed (s : pystr) :
  s <> [] -> (lstrip s = s <-> is_space (hd 0 s) = false).
Proof.
  destruct s as [|c s]; [done|]. intros _. cbn [lstrip hd].
  destruct (is_space c) eqn:Hc; [|done]. split; [|done].
  intros Heq. pose proof (lstrip_split s) as (sp & Hs & _).
  apply (f_equal length) in Heq. apply (f_equal length) in Hs.
  rewrite length_app in Hs. cbn in Heq. lia.
Qed.

(** A text is trimmed when [strip] leaves it alone: it is empty, or neither
    its first nor its last character is white space. *)
Lemma trimmed_ends (s : pystr) :
  s <> [] ->
  (strip s = s <-> is_space (hd 0 s) = false /\ is_space (hd 0 (rev s)) = false).
Proof.
  intros Hne. assert (rev s <> []) as Hrne.
  { intros H. apply Hne. by rewrite <- (rev_involutive s), H. }
  split.
  - intros Hs.
    assert (lstrip s = s) as Hl.
    { destruct (lstrip_split s) as (sp & Heq & _).
      destruct (rstrip_split (lstrip s)) as (sp' & Heq' & _).
      unfold strip in Hs. rewrite Hs in Heq'. rewrite Heq' in Heq.
      apply (f_equal length) in Heq. rewrite !length_app in Heq.
      assert (sp' = []) as -> by (destruct sp'; [done|cbn in Heq; lia]).
      by rewrite app_nil_r in Heq'. }
    split; [by apply hd_lstrip_fixed|].
    apply hd_lstrip_fixed; [done|].
    unfold strip, rstrip in Hs. rewrite Hl in Hs.
    rewrite <- Hs at 2. by rewrite rev_involutive.
  - intros [Hh Hl]. apply hd_lstrip_fixed in Hh; [|done].
    apply hd_lstrip_fixed in Hl; [|done].
    unfold strip, rstrip. by rewrite Hh, Hl, rev_involutive.
Qed.

Lemma strip_trimmed (s : pystr) :
  strip s <> [] -> is_space (hd 0 (strip s)) = false /\ is_space (hd 0 (rev (strip s))) = false.
Proof. intros Hne. apply trimmed_ends; [done|]. apply strip_idempotent. Qed.

Lemma hd_app_nonempty (a b : pystr) : a <> [] -> hd 0 (a ++ b) = hd 0 a.
Proof. by destruct a. Qed.

Lemma join_nonempty (sep p : pystr) (pieces : list pystr) :
  p <> [] -> join sep (p :: pieces) <> [].
Proof. intros Hp. destruct pieces; cbn [join]; [done|]. by destruct p. Qed.

Lemma rev_nonempty (s : pystr) : s <> [] -> rev s <> [].
Proof. intros Hne H. apply Hne. by rewrite <- (rev_involutive s), H. Qed.

Lemma join_last_char (sep p : pystr) (pieces : list pystr) :
  Forall (fun q => q <> []) (p :: pieces) ->
  hd 0 (rev (join sep (p :: pieces))) = hd 0 (rev (default p (last pieces))).
Proof.
  revert p. induction pieces as [|q pieces IH]; intros p Hne; [done|].
  apply Forall_cons in Hne as [_ Hne].
  change (join sep (p :: q :: pieces)) with (p ++ sep ++ join sep (q :: pieces)).
  rewrite !rev_app_distr, <- app_assoc, hd_app_nonempty.
  - rewrite IH by done. rewrite last_cons. by destruct (last pieces).
  - apply rev_nonempty, join_nonempty. by apply Forall_cons in Hne as [? _].
Qed.

(** Joining trimmed, non-empty pieces gives a trimmed text, whatever the
    separator. *)
Lemma join_trimmed (sep : pystr) (pieces : list pystr) :
  Forall (fun p => p <> [] /\ strip p = p) pieces ->
  strip (join sep pieces) = join sep pieces.
Proof.
  intros Hp. destruct pieces as [|p pieces]; [done|].
  assert (Forall (fun q => q <> []) (p :: pieces)) as Hne.
  { eapply Forall_impl; [exact Hp|]. by intros q [? _]. }
  apply trimmed_ends; [apply join_nonempty; by apply Forall_cons in Hne as [? _]|]. split.
  - apply Forall_cons in Hp as [[Hp1 Hp2] _].
    apply trimmed_ends in Hp2 as [Hh _]; [|done].
    destruct pieces; cbn [join]; [done|]. by rewrite hd_app_nonempty.
  - rewrite join_last_char by done.
    assert (default p (last pieces) ∈ p :: pieces) as Hin.
    { destruct (last pieces) as [q|] eqn:Hq; [|by left].
      right. apply last_Some in Hq as [l' ->]. set_solver. }
    rewrite Forall_forall in Hp. apply Hp in Hin as [Hl1 Hl2].
    by apply trimmed_ends in Hl2 as [_ Hl].
Qed.

Lemma get_text_trimmed (sep : pystr) (n : node) : strip (get_text sep n) = get_text sep n.
Proof.
  unfold get_text. apply join_trimmed, Forall_forall.
  intros p [Hp Hin]%list_elem_of_filter.
  split; [done|]. apply list_elem_of_fmap in Hin as (s & -> & _). apply strip_idempotent.
Qed.

(** X15: the title returned is never empty and has no white space at either
    end: it is the trimmed text of a heading, the trimmed string of the
    title tag, or "untitled". *)
Theorem extract_article_content_title (soup : node) :
  let title := (extract_article_content soup).1 in
  title <> [] /\ strip title = title.
Proof.
  assert (forall sels t, strip t = t -> strip (title_loop sels soup t) = title_loop sels soup t)
    as Hloop.
  { induction sels as [|[name class] sels IH]; intros t Ht; cbn [title_loop]; [done|].
    destruct (find (selects name class) soup) as [tag|]; [|by apply IH].
    destruct (get_text [] tag) as [|c text] eqn:Htext; [by apply IH|].
    rewrite <- Htext. apply get_text_trimmed. }
  cbn zeta. unfold extract_article_content.
  destruct (content_loop content_selectors soup) as [text soup']. cbn [fst].
  match goal with
  | |- context [title_loop title_selectors soup ?t0] =>
      assert (strip t0 = t0) as Ht0; [|specialize (Hloop title_selectors t0 Ht0)]
  end.
  { destruct (find (is_tag "title") soup) as [t|]; [|done].
    destruct (node_string t) as [[|c s]|]; try done. apply strip_idempotent. }
  destruct (title_loop title_selectors soup _) as [|c title]; [|done].
  split; [done|]. vm_compute. reflexivity.
Qed.

(** X16: the body text returned is empty or longer than 50 characters, and
    it has no white space at either end; so the test [content.strip()] of
    the crawl rejects exactly the empty body. *)
Theorem extract_article_content_body (soup : node) :
  let content := (extract_article_content soup).2 in
  (content = [] \/ (50 < length content)%nat) /\ strip content = content.
Proof.
  assert (forall sels s,
            ((content_loop sels s).1 = [] \/ (50 < length (content_loop sels s).1)%nat) /\
            strip (content_loop sels s).1 = (content_loop sels s).1) as Hloop.
  { induction sels as [|[name class] sels IH]; intros s; cbn [content_loop]; [by split; [left|]|].
    destruct (find (selects name class) s) as [nd|]; [|apply IH].
    destruct (50 <? length (get_text newline (strip_bad nd)))%nat eqn:Hlen; [|apply IH].
    cbn [fst]. apply Nat.ltb_lt in Hlen. split; [by right|apply get_text_trimmed]. }
  assert (forall s, (fallback_content s = [] \/ (50 < length (fallback_content s))%nat) /\
                    strip (fallback_content s) = fallback_content s) as Hfall.
  { intros s. unfold fallback_content.
    destruct (find (is_tag "body") s) as [body|]; [|by split; [left|]].
    destruct (block_candidates body) as [|c cands] eqn:Hc; [by split; [left|]|].
    destruct (sort_desc_max (c :: cands)) as (top & [Hhd _] & Hin & _); [done|].
    rewrite <- Hc in Hin. unfold block_candidates in Hin.
    apply list_elem_of_fmap in Hin as (d & -> & _).
    destruct (sort_desc (c :: cands)) as [|[n largest] rest]; [done|].
    injection Hhd as -> ->.
    destruct (100 <? length (get_text newline d))%nat eqn:Hlen; [|by split; [left|]].
    apply Nat.ltb_lt in Hlen. split; [right; lia|apply get_text_trimmed]. }
  cbn zeta. unfold extract_article_content.
  specialize (Hloop content_selectors soup).
  destruct (content_loop content_selectors soup) as [text soup']. cbn [fst snd] in *.
  destruct text as [|c text]; [apply Hfall|done].
Qed.

(** ** Document trees *)

(** Induction over a tree, with the property known for all children. *)
Lemma node_induction (P : node -> Prop) :
  (forall s, P (Text s)) ->
  (forall s, P (Other s)) ->
  (forall name attrs children, Forall P children -> P (Elem name attrs children)) ->
  forall n, P n.
Proof.
  intros HT HO HE. fix IH 1. intros [s|s|name attrs children].
  - apply HT.
  - apply HO.
  - apply HE. induction children as [|c children IHc]; constructor; [apply IH|apply IHc].
Qed.

Lemma descendants_elem (d : node) (name : string) (attrs : list (string * pystr))
    (children : list node) :
  d ∈ descendants (Elem name attrs children) <->
  exists c, c ∈ children /\ (d = c \/ d ∈ descendants c).
Proof.
  cbn [descendants]. rewrite list_elem_of_In, in_flat_map. split.
  - intros (c & Hc & Hd). exists c. rewrite list_elem_of_In. split; [done|].
    destruct Hd as [->|Hd]; [by left|right; by apply list_elem_of_In].
  - intros (c & Hc & Hd). exists c. rewrite <- list_elem_of_In. split; [done|].
    destruct Hd as [->|Hd]; [by left|right; by apply list_elem_of_In].
Qed.

(** What is below a node that is below [n] is below [n]. *)
Lemma descendants_trans (n d e : node) :
  d ∈ descendants n -> e ∈ descendants d -> e ∈ descendants n.
Proof.
  revert d e. induction n as [s|s|name attrs children IH] using node_induction;
    intros d e Hd He; [by apply elem_of_nil in Hd|by apply elem_of_nil in Hd|].
  apply descendants_elem in Hd as (c & Hc & [->|Hd]); apply descendants_elem.
  - exists c. auto.
  - exists c. split; [done|]. right. rewrite Forall_forall in IH. by apply (IH c Hc d).
Qed.

(** The children that [strip_bad] keeps. *)
Lemma strip_bad_children (name : string) (attrs : list (string * pystr)) (children : list node) :
  strip_bad (Elem name attrs children)
  = Elem name attrs
      (strip_bad <$> filter (fun c => is_any_tag bad_tags c = false) children).
Proof.
  cbn [strip_bad]. f_equal.
  induction children as [|c children IH]; [done|].
  destruct (is_any_tag bad_tags c) eqn:Hc.
  - by rewrite filter_cons_False by (by rewrite Hc).
  - rewrite filter_cons_True by done. cbn [fmap list_fmap]. by rewrite <- IH.
Qed.

Lemma strip_bad_tag (names : list string) (n : node) :
  is_any_tag names (strip_bad n) = is_any_tag names n.
Proof. by destruct n. Qed.

(** X17: after the clean-up no script, style, noscript or iframe tag is left
    anywhere below the node, and every string that is left was in the node
    before. *)
Theorem strip_bad_clean (n : node) :
  (forall d, d ∈ descendants (strip_bad n) -> is_any_tag bad_tags d = false) /\
  (forall s, s ∈ all_strings (strip_bad n) -> s ∈ all_strings n).
Proof.
  induction n as [s|s|name attrs children IH] using node_induction;
    [split; [by intros d ?%elem_of_nil|done]..|].
  rewrite strip_bad_children. rewrite Forall_forall in IH. split.
  - intros d (c' & Hc' & Hd)%descendants_elem.
    apply list_elem_of_fmap in Hc' as (c & -> & [Hgood Hc]%list_elem_of_filter).
    destruct Hd as [->|Hd]; [by rewrite strip_bad_tag|].
    by apply (IH c Hc).
  - intros s. cbn [all_strings]. rewrite !list_elem_of_In, !in_flat_map.
    intros (c' & Hc' & Hs). apply list_elem_of_In in Hc'. apply list_elem_of_In in Hs.
    apply list_elem_of_fmap in Hc' as (c & -> & [Hgood Hc]%list_elem_of_filter).
    exists c. split; [by apply list_elem_of_In|]. apply list_elem_of_In. by apply (IH c Hc).
Qed.

(** ** extract_article_links: where the links come from *)

Lemma find_all_elem (p : node -> bool) (n d : node) :
  d ∈ find_all p n <-> d ∈ descendants n /\ p d = true.
Proof. unfold find_all. rewrite list_elem_of_filter. tauto. Qed.

Lemma find_elem (p : node -> bool) (n d : node) : find p n = Some d -> d ∈ find_all p n.
Proof. unfold find. intros H. apply head_Some in H as [l ->]. by left. Qed.

Lemma dedup_elem (links : list pystr) (u : pystr) : u ∈ dedup links <-> u ∈ links.
Proof. unfold dedup. by destruct (dedup_fold_start links) as (out & -> & _ & Hout). Qed.

Section LinkSources.

Variable U : unicode_db.
Variable urljoin : pystr -> pystr -> pystr.

(** X18: every link returned is the resolved [href] of an anchor of the
    page that has one; no link is made up.  When the title headings give
    nothing, every link returned also passed the tests of the fallback: it,
    or its raw [href], starts with the base URL, and its lowered form holds
    none of the excluded markers. *)
Theorem extract_article_links_sources (soup : node) (base_url u : pystr) :
  u ∈ extract_article_links U urljoin soup base_url ->
  exists a,
    a ∈ find_all has_href soup /\
    u = urljoin base_url (href a) /\
    (primary_links urljoin soup base_url = [] ->
     (startswith base_url (href a) || startswith base_url u = true) /\
     Forall (fun x => contains (cp x) (py_lower U u) = false) excluded_markers).
Proof.
  unfold extract_article_links. rewrite dedup_elem. unfold collected_links.
  destruct (primary_links urljoin soup base_url) as [|l links] eqn:Hprimary.
  - unfold fallback_links. rewrite list_elem_of_In, in_flat_map.
    intros (a & Ha%list_elem_of_In & Hu%list_elem_of_In).
    exists a. split; [done|]. unfold fallback_link in Hu.
    destruct (startswith base_url (href a)
              || startswith base_url (urljoin base_url (href a))) eqn:Horigin;
      [|by apply elem_of_nil in Hu].
    destruct (existsb _ excluded_markers) eqn:Hmark; [by apply elem_of_nil in Hu|].
    apply list_elem_of_singleton in Hu as ->. split; [done|]. intros _. split; [done|].
    apply Forall_forall. intros x Hx%list_elem_of_In.
    destruct (contains (cp x) (py_lower U (urljoin base_url (href a)))) eqn:Hc; [|done].
    assert (existsb (fun x => contains (cp x) (py_lower U (urljoin base_url (href a))))
              excluded_markers = true) as Hex by (apply existsb_exists; eauto).
    congruence.
  - intros Hu. rewrite <- Hprimary in Hu. unfold primary_links in Hu.
    apply list_elem_of_In, in_flat_map in Hu as (h3 & Hh3%list_elem_of_In & Hu%list_elem_of_In).
    destruct (find has_href h3) as [a|] eqn:Ha; [|by apply elem_of_nil in Hu].
    apply list_elem_of_singleton in Hu as ->.
    exists a. split; [|split; [done|done]].
    apply find_elem, find_all_elem in Ha as [Ha Hhref].
    apply find_all_elem in Hh3 as [Hh3 _].
    apply find_all_elem. split; [|done]. by apply (descendants_trans soup h3 a).
Qed.

End LinkSources.

Lemma extract_article_links_sources_witness :
  exists a,
    a ∈ find_all has_href listing_example /\
    cp "https://x.test/c" = join_under_root (cp "https://x.test/") (href a).
Proof.
  destruct (extract_article_links_sources ascii_db join_under_root listing_example
              (cp "https://x.test/") (cp "https://x.test/c")) as (a & Ha & Hu & _).
  - vm_compute. set_solver.
  - by exists a.
Defined.

(** ** scrape_articles *)

Lemma pace_app (d : Q) (b : bool) (l1 l2 : list entry) :
  pace d b (l1 ++ l2) = pace d b l1 ≫= fun b' => pace d b' l2.
Proof.
  revert b. induction l1 as [|e l1 IH]; intros b; [done|].
  destruct e as [[url timeout|secs|line]|line]; cbn [app pace]; try apply IH.
  destruct b; [apply IH|done].
Qed.

Lemma pace_app_any (d : Q) (b : bool) (l1 l2 : list entry) :
  is_Some (pace d b l1) -> (forall b', is_Some (pace d b' l2)) ->
  is_Some (pace d b (l1 ++ l2)).
Proof. rewrite pace_app. intros [b' ->] H. apply H. Qed.

Lemma backoff_pause (z : Z) : (1 <= z)%Z -> Qle_bool 2 (inject_Z (z * 2)) = true.
Proof. intros Hz. apply Qle_bool_iff. unfold Qle. cbn. lia. Qed.

Lemma fetch_loop_paced (fuel : nat) (url : pystr) (timeout max_retries attempt z : Z)
    (w w' : world) (r : outcome (option pystr)) :
  (1 <= z)%Z ->
  fetch_loop fuel url timeout max_retries attempt (inject_Z z) w = Some (r, w') ->
  exists evs, trace w' = trace w ++ evs /\ is_Some (pace 2 true (Inner <$> evs)).
Proof.
  revert attempt z w. induction fuel as [|fuel IH]; intros attempt z w Hz; cbn [fetch_loop].
  - destruct (attempt <? max_retries)%Z; [done|]. intros [= <- <-].
    exists []. rewrite app_nil_r. split; [done|by eexists].
  - destruct (attempt <? max_retries)%Z eqn:E.
    2: { intros [= <- <-]. exists []. rewrite app_nil_r. split; [done|by eexists]. }
    assert (forall e0,
      (let '(attempt', backoff', w1) :=
         on_failure url max_retries attempt (inject_Z z) e0 (scraper_get url timeout w).2 in
       fetch_loop fuel url timeout max_retries attempt' backoff' w1) = Some (r, w') ->
      exists evs, trace w' = trace w ++ evs /\ is_Some (pace 2 true (Inner <$> evs)))
      as Hround.
    { intros e0. unfold on_failure, scraper_get. cbn [snd].
      destruct (attempt + 1 <? max_retries)%Z eqn:E1.
      - change (inject_Z z * RETRY_BACKOFF)%Q with (inject_Z (z * 2)).
        intros Hrest. apply IH in Hrest as (evs & Htr & Hpace); [|lia].
        cbn [trace sleep print emit] in Htr.
        eexists (EvGet url timeout :: EvPrint _ :: EvPrint _ :: EvSleep _ :: evs).
        split; [rewrite Htr, <- !app_assoc; reflexivity|].
        cbn [fmap list_fmap pace orb]. by rewrite backoff_pause.
      - destruct fuel as [|fuel']; cbn [fetch_loop];
          rewrite E1; intros [= <- <-];
          eexists [EvGet url timeout; EvPrint _; EvPrint _];
          cbn [trace print emit];
          (split; [rewrite <- ?app_assoc; reflexivity|by eexists]). }
    unfold scraper_get in *. cbn [snd] in Hround.
    destruct (pending w O) as [e0|resp].
    + destruct (is_Exception e0).
      * apply Hround.
      * intros [= <- <-]. exists [EvGet url timeout]. split; [done|by eexists].
    + destruct (raise_for_status resp) as [e0|].
      * destruct (is_Exception e0).
        -- apply Hround.
        -- intros [= <- <-]. exists [EvGet url timeout]. split; [done|by eexists].
      * destruct (negb _ && negb _); intros [= <- <-]; cbn [trace print emit].
        -- eexists [EvGet url timeout; EvPrint _].
           split; [rewrite <- ?app_assoc; reflexivity|by eexists].
        -- exists [EvGet url timeout]. split; [done|by eexists].
Qed.

Lemma requests_app (l1 l2 : list entry) : requests (l1 ++ l2) = requests l1 ++ requests l2.
Proof. apply flat_map_app. Qed.

Lemma requests_inner_actions (evs : list event) :
  requests (Inner <$> actions evs) = requests (Inner <$> evs).
Proof.
  induction evs as [|[url timeout|secs|line] evs IH]; [done|..].
  - change (url :: requests (Inner <$> actions evs) = url :: requests (Inner <$> evs)).
    by rewrite IH.
  - exact IH.
  - exact IH.
Qed.

Lemma length_requests_inner (evs : list event) :
  length (requests (Inner <$> evs)) = get_count evs.
Proof.
  induction evs as [|[url timeout|secs|line] evs IH]; [done|..].
  - change (S (length (requests (Inner <$> evs))) = S (get_count evs)). by rewrite IH.
  - exact IH.
  - exact IH.
Qed.

Lemma requests_alternation (url : pystr) (timeout : Z) (n : nat) (delays : list Q) :
  Forall (fun u => u = url) (requests (Inner <$> alternation url timeout n delays)).
Proof.
  destruct n as [|n]; [constructor|]. cbn [alternation fmap list_fmap requests flat_map app].
  constructor; [done|].
  induction delays as [|d delays IH]; [constructor|].
  cbn [flat_map app fmap list_fmap]. by constructor.
Qed.

(** What one call of [fetch_html] does to a session. *)
Lemma call_fetch_html_run (url : pystr) (s : session) :
  exists r s' evs,
    call_fetch_html url s = Some (r, s') /\
    s_log s' = s_log s ++ (Inner <$> evs) /\
    s_fs s' = s_fs s /\
    is_Some (pace 2 true (Inner <$> evs)) /\
    (get_count evs <= 3)%nat /\
    (forall e, r = Raised e -> is_Exception e = false) /\
    ((forall m, (m < 3)%nat -> attempt_fails (s_pending s m)) ->
     r = Returned None /\ get_count evs = 3%nat) /\
    (forall n, s_pending s' n = s_pending s (get_count evs + n)%nat) /\
    (forall g, (g < get_count evs)%nat -> requests (Inner <$> evs) !! g = Some url) /\
    (forall text, r = Returned (Some text) ->
       exists g resp,
         (g < get_count evs)%nat /\
         s_pending s g = GetResponse resp /\
         raise_for_status resp = None /\
         resp_text resp = text).
Proof.
  unfold call_fetch_html.
  destruct (fetch_html_run url REQUEST_TIMEOUT MAX_RETRIES (world_of s))
    as (r & w' & evs & Hrun & Htr & Hfs & Hcount & _ & _ & Hr).
  rewrite Hrun. exists r, (after_call s w'), evs. split; [done|].
  pose proof (fetch_html_actions _ _ _ _ _ _ _ Hrun Htr) as Hact.
  assert (forall n, pending w' n = pending (world_of s) (get_count evs + n)%nat) as Hpend.
  { pose proof Hrun as Hrun'. unfold fetch_html in Hrun'.
    change 1%Q with (inject_Z 1) in Hrun'.
    apply fetch_loop_run in Hrun' as (evs' & Htr' & _ & Hpend & _).
    assert (evs' = evs) as -> by (rewrite Htr' in Htr; by apply app_inv_head in Htr).
    exact Hpend. }
  cbn [trace world_of app] in Htr. cbn [s_log s_fs s_pending after_call].
  rewrite Htr. split; [done|]. split; [done|].
  split.
  { unfold fetch_html in Hrun. change 1%Q with (inject_Z 1) in Hrun.
    apply fetch_loop_paced in Hrun as (evs' & Htr' & Hpace); [|lia].
    cbn [trace world_of app] in Htr'. congruence. }
  split; [exact Hcount|].
  split.
  { intros e ->. by destruct Hr as (g & _ & _ & Hexc). }
  cbn [pending world_of] in Hr, Hpend.
  change (Z.to_nat MAX_RETRIES) with 3%nat in *.
  split.
  { intros Hfail. destruct r as [[text|]|e].
    - destruct Hr as (g & resp & Hg & Hresp & Hok & _).
      specialize (Hfail g ltac:(lia)). rewrite Hresp in Hfail. cbn in Hfail.
      rewrite Hok in Hfail. by destruct Hfail.
    - by destruct Hr as [Hg _].
    - destruct Hr as (g & Hg & Hresp & Hexc).
      specialize (Hfail g ltac:(lia)). rewrite Hresp in Hfail. cbn in Hfail. congruence. }
  split; [exact Hpend|].
  split.
  { intros g Hg. rewrite <- length_requests_inner in Hg.
    apply lookup_lt_is_Some in Hg as [u Hu]. rewrite Hu. f_equal.
    pose proof (requests_alternation url REQUEST_TIMEOUT (get_count evs) (sleeps evs)) as Hall.
    rewrite <- Hact, requests_inner_actions in Hall.
    rewrite Forall_forall in Hall. apply Hall. by apply list_elem_of_lookup_2 in Hu. }
  intros text ->. destruct Hr as (g & resp & Hg & Hresp & Hok & ->).
  exists g, resp. split; [lia|]. done.
Qed.

Lemma pace_spec (d : Q) (log : list entry) :
  forall ready, is_Some (pace d ready log) ->
    (ready = false ->
     forall j e, log !! j = Some e -> is_request e ->
       exists k p, (k < j)%nat /\ log !! k = Some p /\ is_pause d p) /\
    (forall i j e1 e2, (i < j)%nat ->
       log !! i = Some e1 -> is_request e1 -> log !! j = Some e2 -> is_request e2 ->
       exists k p, (i < k < j)%nat /\ log !! k = Some p /\ is_pause d p).
Proof.
  induction log as [|e log IH]; intros ready Hsome.
  { split; [intros _ j e Hj|intros i j e1 e2 _ Hi]; by rewrite lookup_nil in *. }
  assert (is_Some (pace d ready log) ->
          ~ is_request e ->
          (ready = false ->
           forall j e', (e :: log) !! j = Some e' -> is_request e' ->
             exists k p, (k < j)%nat /\ (e :: log) !! k = Some p /\ is_pause d p) /\
          (forall i j e1 e2, (i < j)%nat ->
             (e :: log) !! i = Some e1 -> is_request e1 ->
             (e :: log) !! j = Some e2 -> is_request e2 ->
             exists k p, (i < k < j)%nat /\ (e :: log) !! k = Some p /\ is_pause d p))
    as Hskip.
  { intros Hb Hnot. destruct (IH ready Hb) as [IH1 IH2]. split.
    - intros Hready [|j] e' Hj Hreq; [cbn in Hj; by simplify_eq|].
      cbn in Hj. destruct (IH1 Hready j e' Hj Hreq) as (k & p & Hk & Hp & Hpause).
      exists (S k), p. split; [lia|]. done.
    - intros [|i] [|j] e1 e2 Hij Hi Hr1 Hj Hr2; try lia.
      + cbn in Hi. by simplify_eq.
      + cbn in Hi, Hj.
        destruct (IH2 i j e1 e2 ltac:(lia) Hi Hr1 Hj Hr2) as (k & p & Hk & Hp & Hpause).
        exists (S k), p. split; [lia|]. done. }
  destruct e as [[url timeout|secs|line]|line]; cbn [pace] in Hsome.
  - (* a request *)
    destruct ready; [|by destruct Hsome].
    destruct (IH false Hsome) as [IH1 IH2]. split; [done|].
    intros [|i] [|j] e1 e2 Hij Hi Hr1 Hj Hr2; try lia.
    + cbn in Hj. destruct (IH1 eq_refl j e2 Hj Hr2) as (k & p & Hk & Hp & Hpause).
      exists (S k), p. split; [lia|]. done.
    + cbn in Hi, Hj.
      destruct (IH2 i j e1 e2 ltac:(lia) Hi Hr1 Hj Hr2) as (k & p & Hk & Hp & Hpause).
      exists (S k), p. split; [lia|]. done.
  - (* a pause *)
    destruct (Qle_bool d secs) eqn:Hle.
    + rewrite orb_true_r in Hsome. destruct (IH true Hsome) as [_ IH2]. split.
      * intros _ [|j] e' Hj Hreq.
        -- cbn in Hj. simplify_eq. by destruct Hreq as (? & ? & ?).
        -- exists 0%nat, (Inner (EvSleep secs)). split; [lia|]. split; [done|].
           exists secs. split; [done|]. by apply Qle_bool_iff.
      * intros [|i] [|j] e1 e2 Hij Hi Hr1 Hj Hr2; try lia.
        -- cbn in Hi. simplify_eq. by destruct Hr1 as (? & ? & ?).
        -- cbn in Hi, Hj.
           destruct (IH2 i j e1 e2 ltac:(lia) Hi Hr1 Hj Hr2) as (k & p & Hk & Hp & Hpause).
           exists (S k), p. split; [lia|]. done.
    + rewrite orb_false_r in Hsome. apply (Hskip Hsome). by intros (? & ? & ?).
  - apply (Hskip Hsome). by intros (? & ? & ?).
  - apply (Hskip Hsome). by intros (? & ? & ?).
Qed.

Lemma fetched_app_l (pending : nat -> get_outcome) (log more : list entry) (url html : pystr) :
  fetched pending log url html -> fetched pending (log ++ more) url html.
Proof.
  intros (g & resp & Hg & Hrest). exists g, resp. split; [|done].
  rewrite requests_app. by apply lookup_app_l_Some.
Qed.

Lemma fetched_app_r (pending pending' : nat -> get_outcome) (pre log : list entry)
    (url html : pystr) :
  (forall n, pending' n = pending (length (requests pre) + n)%nat) ->
  fetched pending' log url html -> fetched pending (pre ++ log) url html.
Proof.
  intros Hshift (g & resp & Hg & Hresp & Hrest).
  exists (length (requests pre) + g)%nat, resp. split.
  - rewrite requests_app, lookup_app_r by lia.
    by replace (length (requests pre) + g - length (requests pre))%nat with g by lia.
  - by rewrite <- Hshift.
Qed.

Lemma crawled_artifact_app_l (parse_html : pystr -> node) (pending : nat -> get_outcome)
    (log more : list entry) (links : list pystr) (path text : pystr) :
  crawled_artifact parse_html pending log links path text ->
  crawled_artifact parse_html pending (log ++ more) links path text.
Proof.
  intros (name & url & html & ? & ? & ? & ? & Hf & ?).
  exists name, url, html. repeat split; try tauto. by apply fetched_app_l.
Qed.

Lemma crawled_artifact_app_r (parse_html : pystr -> node) (pending pending' : nat -> get_outcome)
    (pre log : list entry) (links links' : list pystr) (path text : pystr) :
  (forall n, pending' n = pending (length (requests pre) + n)%nat) ->
  (forall u, u ∈ links -> u ∈ links') ->
  crawled_artifact parse_html pending' log links path text ->
  crawled_artifact parse_html pending (pre ++ log) links' path text.
Proof.
  intros Hshift Hsub (name & url & html & ? & ? & ? & ? & Hf & ?).
  exists name, url, html. repeat split; try tauto.
  - by apply Hsub.
  - by apply (fetched_app_r pending pending').
Qed.

(** ** extract_article_links: every call *)

Section CallLinks.

Variable U : unicode_db.
Variable urljoin : pystr -> pystr -> option pystr.

Lemma call_primary_loop_returned (base_url : pystr) (h3s : list node) :
  forall links out,
  Call.primary_loop urljoin base_url h3s links = Returned out ->
  out = links
        ++ flat_map
             (fun h3 =>
                match find has_href h3 with
                | Some a => [resolver_of urljoin base_url (href a)]
                | None => []
                end) h3s.
Proof.
  induction h3s as [|h3 h3s IH]; intros links out; cbn [Call.primary_loop flat_map].
  - intros [= <-]. by rewrite app_nil_r.
  - destruct (find has_href h3) as [a|]; [|apply IH].
    unfold resolver_of at 1. destruct (urljoin base_url (href a)) as [full|]; [|done].
    intros Hout%IH. by rewrite Hout, <- app_assoc.
Qed.

Lemma call_fallback_loop_returned (base_url : pystr) (anchors : list node) :
  forall links out,
  Call.fallback_loop U urljoin base_url anchors links = Returned out ->
  out = links ++ flat_map (fallback_link U (resolver_of urljoin) base_url) anchors.
Proof.
  induction anchors as [|a anchors IH]; intros links out; cbn [Call.fallback_loop flat_map].
  - intros [= <-]. by rewrite app_nil_r.
  - unfold fallback_link at 1. unfold resolver_of at 1 2 3.
    destruct (urljoin base_url (href a)) as [full|] eqn:Hjoin; cbn [default from_option id option_map].
    + destruct (startswith base_url (href a)); cbn [orb].
      * destruct (existsb _ excluded_markers).
        -- intros Hout%IH. by rewrite Hout.
        -- intros Hout%IH. by rewrite Hout, <- app_assoc.
      * destruct (startswith base_url full).
        -- destruct (existsb _ excluded_markers).
           ++ intros Hout%IH. by rewrite Hout.
           ++ intros Hout%IH. by rewrite Hout, <- app_assoc.
        -- intros Hout%IH. by rewrite Hout.
    + by destruct (startswith base_url (href a)).
Qed.

(** A call that returns gives the links of the function above, read with
    the results of [urljoin]; a call that raises raises [ValueError]. *)
Lemma call_extract_article_links_returned (soup : node) (base_url : pystr) (links : list pystr) :
  Call.extract_article_links U urljoin soup base_url = Returned links ->
  links = extract_article_links U (resolver_of urljoin) soup base_url.
Proof.
  unfold Call.extract_article_links, extract_article_links, collected_links, primary_links.
  destruct (Call.primary_loop urljoin base_url _ []) as [first|e] eqn:Hprimary; [|done].
  apply call_primary_loop_returned in Hprimary. cbn [app] in Hprimary. rewrite <- Hprimary.
  destruct first as [|l first].
  - destruct (Call.fallback_loop U urljoin base_url _ []) as [out|e] eqn:Hfallback; [|done].
    apply call_fallback_loop_returned in Hfallback. cbn [app] in Hfallback.
    intros [= <-]. by rewrite Hfallback.
  - by intros [= <-].
Qed.

Lemma call_primary_loop_raised (base_url : pystr) (h3s : list node) (e : py_exn) :
  forall links, Call.primary_loop urljoin base_url h3s links = Raised e -> e = ValueError.
Proof.
  induction h3s as [|h3 h3s IH]; intros links; cbn [Call.primary_loop]; [done|].
  destruct (find has_href h3) as [a|]; [|apply IH].
  destruct (urljoin base_url (href a)); [apply IH|congruence].
Qed.

Lemma call_fallback_loop_raised (base_url : pystr) (anchors : list node) (e : py_exn) :
  forall links, Call.fallback_loop U urljoin base_url anchors links = Raised e -> e = ValueError.
Proof.
  induction anchors as [|a anchors IH]; intros links; cbn [Call.fallback_loop]; [done|].
  destruct (urljoin base_url (href a)) as [full|]; cbn [option_map].
  - destruct (startswith base_url (href a)).
    + destruct (existsb _ excluded_markers); apply IH.
    + destruct (startswith base_url full); [|apply IH].
      destruct (existsb _ excluded_markers); apply IH.
  - destruct (startswith base_url (href a)); congruence.
Qed.

Lemma call_extract_article_links_raised (soup : node) (base_url : pystr) (e : py_exn) :
  Call.extract_article_links U urljoin soup base_url = Raised e -> e = ValueError.
Proof.
  unfold Call.extract_article_links.
  destruct (Call.primary_loop urljoin base_url _ []) as [first|e1] eqn:Hprimary.
  - destruct first as [|l first]; [|done].
    destruct (Call.fallback_loop U urljoin base_url _ []) as [out|e2] eqn:Hfallback; [done|].
    intros [= <-]. by apply call_fallback_loop_raised in Hfallback.
  - intros [= <-]. by apply call_primary_loop_raised in Hprimary.
Qed.

End CallLinks.

(** ** scrape_articles: every run *)

Section ScrapeFacts.

Variable U : unicode_db.
Variable urlparse_path : pystr -> option pystr.
Variable urljoin : pystr -> pystr -> option pystr.
Variable parse_html : pystr -> node.

(** The loop over the links: it ends, it pauses before each request, it
    keeps the files that exist and adds artifacts only. *)
Lemma process_links_run (links : list pystr) :
  forall (idx total : nat) (s : session),
  exists r s' new,
    process_links urlparse_path parse_html links idx total s = Some (r, s') /\
    s_log s' = s_log s ++ new /\
    (forall b, is_Some (pace 2 b new)) /\
    (forall n, s_pending s' n = s_pending s (length (requests new) + n)%nat) /\
    s_fs s ⊆ s_fs s' /\
    (forall p t, s_fs s' !! p = Some t -> s_fs s !! p = None ->
       crawled_artifact parse_html (s_pending s) new links p t) /\
    (forall e, r = Raised e -> uncaught e).
Proof.
  induction links as [|link links IH]; intros idx total s.
  { exists (Returned tt), s, []. rewrite app_nil_r.
    split; [done|]. split; [done|]. split; [intros b; by eexists|].
    split; [done|]. split; [done|]. split; [|done]. intros p t H1 H2. congruence. }
  cbn [process_links].
  set (s1 := after_call _ _).
  assert (s_log s1 = s_log s ++ [Line (Processing idx total link); Inner (EvSleep 2)])
    as Hlog1 by (cbn; by rewrite <- app_assoc).
  assert (s_fs s1 = s_fs s) as Hfs1 by done.
  assert (s_pending s1 = s_pending s) as Hpend1 by done.
  clearbody s1.
  destruct (call_fetch_html_run link s1)
    as (r & s2 & evs & Hcall & Hlog2 & Hfs2 & Hpace & _ & Hexc & _ & Hpend2 & Hreq & Hpage).
  rewrite Hcall. rewrite Hpend1 in Hpend2, Hpage. rewrite Hfs1 in Hfs2.
  set (pre := [Line (Processing idx total link); Inner (EvSleep 2)] ++ (Inner <$> evs)).
  assert (s_log s2 = s_log s ++ pre) as Hlog
    by (unfold pre; by rewrite Hlog2, Hlog1, <- app_assoc).
  assert (length (requests pre) = get_count evs) as Hlen
    by (unfold pre; rewrite requests_app; apply length_requests_inner).
  assert (forall b, is_Some (pace 2 b pre)) as Hpre.
  { intros b. unfold pre. cbn [app pace]. by rewrite orb_true_r. }
  clear Hlog1 Hlog2 Hpend1 Hfs1 Hpace.
  (* going on with the next link, after lines [mid] *)
  assert (forall s3 mid,
    s_log s3 = s_log s2 ++ mid ->
    requests mid = [] ->
    (forall b, pace 2 b mid = Some b) ->
    (forall n, s_pending s3 n = s_pending s2 n) ->
    s_fs s ⊆ s_fs s3 ->
    (forall p t, s_fs s3 !! p = Some t -> s_fs s !! p = None ->
       crawled_artifact parse_html (s_pending s) (pre ++ mid) (link :: links) p t) ->
    exists r' s' new,
      process_links urlparse_path parse_html links (S idx) total s3 = Some (r', s') /\
      s_log s' = s_log s ++ new /\
      (forall b, is_Some (pace 2 b new)) /\
      (forall n, s_pending s' n = s_pending s (length (requests new) + n)%nat) /\
      s_fs s ⊆ s_fs s' /\
      (forall p t, s_fs s' !! p = Some t -> s_fs s !! p = None ->
         crawled_artifact parse_html (s_pending s) new (link :: links) p t) /\
      (forall e, r' = Raised e -> uncaught e)) as Hnext.
  { intros s3 mid Hlog3 Hreq3 Hpace3 Hpend3 Hsub3 Hnew3.
    destruct (IH (S idx) total s3)
      as (r' & s' & new & Hrun & Hlog' & Hp & Hpend & Hsub & Hnew & He).
    assert (length (requests (pre ++ mid)) = get_count evs) as Hlen3
      by (by rewrite requests_app, Hreq3, app_nil_r).
    exists r', s', ((pre ++ mid) ++ new). split; [done|].
    split; [by rewrite Hlog', Hlog3, Hlog, <- !app_assoc|].
    split.
    { intros b. apply pace_app_any; [|done].
      rewrite pace_app. destruct (Hpre b) as [b1 ->]. cbn. rewrite Hpace3. by eexists. }
    split.
    { intros n. rewrite Hpend, Hpend3, Hpend2, requests_app, length_app, Hlen3.
      f_equal. lia. }
    split; [by etrans|]. split; [|done].
    intros p t H1 H2. destruct (s_fs s3 !! p) as [t3|] eqn:H3.
    - assert (t = t3) as ->.
      { pose proof (lookup_weaken _ _ _ _ H3 Hsub) as H4. congruence. }
      apply crawled_artifact_app_l. by apply Hnew3.
    - apply (crawled_artifact_app_r parse_html (s_pending s) (s_pending s3) _ _ links).
      + intros n. rewrite Hpend3, Hpend2, Hlen3. done.
      + intros u Hu. by right.
      + by apply Hnew. }
  (* stopping with an exception *)
  assert (forall e s3,
    s_log s3 = s_log s2 ->
    (forall n, s_pending s3 n = s_pending s2 n) ->
    s_fs s ⊆ s_fs s3 ->
    (forall p t, s_fs s3 !! p = Some t -> s_fs s !! p = None ->
       crawled_artifact parse_html (s_pending s) pre (link :: links) p t) ->
    uncaught e ->
    exists r' s' new,
      Some (@Raised unit e, s3) = Some (r', s') /\
      s_log s' = s_log s ++ new /\
      (forall b, is_Some (pace 2 b new)) /\
      (forall n, s_pending s' n = s_pending s (length (requests new) + n)%nat) /\
      s_fs s ⊆ s_fs s' /\
      (forall p t, s_fs s' !! p = Some t -> s_fs s !! p = None ->
         crawled_artifact parse_html (s_pending s) new (link :: links) p t) /\
      (forall e, r' = Raised e -> uncaught e)) as Hstop.
  { intros e s3 Hlog3 Hpend3 Hsub3 Hnew3 He.
    exists (Raised e), s3, pre. split; [done|]. split; [by rewrite Hlog3|].
    split; [done|]. split; [intros n; by rewrite Hpend3, Hpend2, Hlen|].
    split; [done|]. split; [done|]. by intros e0 [= <-]. }
  assert (forall line,
    exists r' s' new,
      process_links urlparse_path parse_html links (S idx) total (say line s2) = Some (r', s') /\
      s_log s' = s_log s ++ new /\
      (forall b, is_Some (pace 2 b new)) /\
      (forall n, s_pending s' n = s_pending s (length (requests new) + n)%nat) /\
      s_fs s ⊆ s_fs s' /\
      (forall p t, s_fs s' !! p = Some t -> s_fs s !! p = None ->
         crawled_artifact parse_html (s_pending s) new (link :: links) p t) /\
      (forall e, r' = Raised e -> uncaught e)) as Hskip.
  { intros line. apply (Hnext (say line s2) [Line line]); try done.
    - cbn [s_fs say]. by rewrite Hfs2.
    - cbn [s_fs say]. rewrite Hfs2. intros p t H1 H2. congruence. }
  destruct r as [[[|ch html]|]|e].
  - apply Hskip.
  - destruct (extract_article_content (parse_html (ch :: html))) as [title content] eqn:Hext.
    destruct (strip content) as [|c0 body] eqn:Hstrip; [apply Hskip|].
    destruct (Hpage (ch :: html) eq_refl) as (g & resp & Hg & Hresp & Hok & Htext).
    assert (forall name mid,
      (47 ∉ name) -> endswith (cp ".txt") name = true ->
      crawled_artifact parse_html (s_pending s) (pre ++ mid) (link :: links)
        (cp "articles/" ++ name) (written_part (artifact_chunks title link content)))
      as Hfile.
    { intros name mid Hname Hend. exists name, link, (ch :: html).
      rewrite Hext. cbn [fst snd]. rewrite Hstrip.
      split; [done|]. split; [done|]. split; [done|]. split; [by left|].
      split; [|done]. apply fetched_app_l. exists g, resp.
      split; [|done]. unfold pre. rewrite requests_app. cbn [requests flat_map app].
      by apply Hreq. }
    destruct (urlparse_path link) as [path|] eqn:Hparse.
    + destruct (call_save_run urlparse_path title link content path (world_of s2) Hparse)
        as (name & w' & Hsave & Hname & Hend & Hfree & Hfs' & Hpend' & Htr').
      rewrite Hsave. cbn [fs pending trace world_of app] in Hfree, Hfs', Hpend', Htr'.
      rewrite Hfs2 in Hfree, Hfs'.
      assert (s_fs s ⊆ fs w') as Hsub by (rewrite Hfs'; by apply insert_subseteq).
      assert (forall mid p t, fs w' !! p = Some t -> s_fs s !! p = None ->
                crawled_artifact parse_html (s_pending s) (pre ++ mid) (link :: links) p t)
        as Hnew'.
      { intros mid p t H1 H2. rewrite Hfs' in H1.
        destruct (decide (p = cp "articles/" ++ name)) as [->|Hne].
        - rewrite lookup_insert_eq in H1. injection H1 as <-. by apply Hfile.
        - rewrite lookup_insert_ne in H1 by done. congruence. }
      destruct (encodable link && encodable title && encodable content).
      * apply (Hnext (after_call s2 w') [Inner (EvPrint (SAVED name))]).
        -- cbn [s_log after_call]. by rewrite Htr'.
        -- done.
        -- done.
        -- intros n. cbn [s_pending after_call]. by rewrite Hpend'.
        -- done.
        -- intros p t. apply Hnew'.
      * apply (Hstop UnicodeEncodeError (after_call s2 w')).
        -- cbn [s_log after_call]. by rewrite Htr', app_nil_r.
        -- intros n. cbn [s_pending after_call]. by rewrite Hpend'.
        -- done.
        -- intros p t H1 H2. rewrite <- (app_nil_r pre). by apply Hnew'.
        -- right. by right.
    + unfold Call.save_article_to_txt. rewrite Hparse.
      apply (Hstop ValueError (after_call s2 (world_of s2))).
      * cbn [s_log after_call trace world_of fmap list_fmap]. by rewrite app_nil_r.
      * done.
      * cbn [s_fs after_call fs world_of]. by rewrite Hfs2.
      * cbn [s_fs after_call fs world_of]. rewrite Hfs2. intros p t H1 H2. congruence.
      * right. by left.
  - apply Hskip.
  - apply (Hstop e s2); try done.
    + by rewrite Hfs2.
    + rewrite Hfs2. intros p t H1 H2. congruence.
    + left. by apply Hexc.
Qed.

Lemma scrape_articles_run (base_url : pystr) (s : session) :
  exists r s' new,
    scrape_articles U urlparse_path urljoin parse_html base_url s = Some (r, s') /\
    s_log s' = s_log s ++ new /\
    is_Some (pace 2 true new) /\
    s_fs s ⊆ s_fs s' /\
    (forall p t, s_fs s' !! p = Some t -> s_fs s !! p = None ->
       exists listing_html links,
         fetched (s_pending s) new base_url listing_html /\
         Call.extract_article_links U urljoin (parse_html listing_html) base_url
         = Returned links /\
         crawled_artifact parse_html (s_pending s) new links p t) /\
    (forall e, r = Raised e -> uncaught e).
Proof.
  unfold scrape_articles, ARTICLE_LIMIT.
  destruct (call_fetch_html_run base_url (say (START_scraping base_url) s))
    as (r & s1 & evs & Hcall & Hlog1 & Hfs1 & Hpace & _ & Hexc & _ & Hpend1 & Hreq & Hpage).
  rewrite Hcall. cbn [s_log s_fs s_pending say] in Hlog1, Hfs1, Hpend1, Hpage.
  set (pre := [Line (START_scraping base_url)] ++ (Inner <$> evs)).
  assert (s_log s1 = s_log s ++ pre) as Hlog
    by (unfold pre; by rewrite Hlog1, <- app_assoc).
  assert (length (requests pre) = get_count evs) as Hlen
    by (unfold pre; rewrite requests_app; apply length_requests_inner).
  assert (forall b, is_Some (pace 2 true (pre ++ [Line b]))) as Hpre.
  { intros b. unfold pre. cbn [app pace]. rewrite pace_app.
    destruct Hpace as [b1 ->]. by eexists. }
  assert (is_Some (pace 2 true pre)) as Hpre0 by (unfold pre; done).
  (* the runs that stop before the links *)
  assert (forall (r' : outcome unit) s3 mid,
    s_log s3 = s_log s1 ++ mid ->
    is_Some (pace 2 true (pre ++ mid)) ->
    s_fs s3 = s_fs s1 ->
    (forall e, r' = Raised e -> uncaught e) ->
    exists r0 s' new,
      Some (r', s3) = Some (r0, s') /\
      s_log s' = s_log s ++ new /\
      is_Some (pace 2 true new) /\
      s_fs s ⊆ s_fs s' /\
      (forall p t, s_fs s' !! p = Some t -> s_fs s !! p = None ->
         exists listing_html links,
           fetched (s_pending s) new base_url listing_html /\
           Call.extract_article_links U urljoin (parse_html listing_html) base_url
           = Returned links /\
           crawled_artifact parse_html (s_pending s) new links p t) /\
      (forall e, r0 = Raised e -> uncaught e)) as Hstop.
  { intros r' s3 mid Hlog3 Hpace3 Hfs3 He.
    exists r', s3, (pre ++ mid). split; [done|].
    split; [by rewrite Hlog3, Hlog, <- app_assoc|]. split; [done|].
    rewrite Hfs3, Hfs1. split; [done|]. split; [|done].
    intros p t H1 H2. congruence. }
  destruct r as [[[|ch html]|]|e].
  - apply (Hstop (Returned tt) (say ERROR_no_listing s1) [Line ERROR_no_listing]); done.
  - destruct (Hpage (ch :: html) eq_refl) as (g & resp & Hg & Hresp & Hok & Htext).
    assert (forall more, fetched (s_pending s) (pre ++ more) base_url (ch :: html)) as Hlisting.
    { intros more. apply fetched_app_l. exists g, resp. split; [|done].
      unfold pre. rewrite requests_app. cbn [requests flat_map app]. by apply Hreq. }
    destruct (Call.extract_article_links U urljoin (parse_html (ch :: html)) base_url)
      as [links|e] eqn:Hlinks.
    2: { apply (Hstop (Raised e) s1 []); try done.
         - by rewrite app_nil_r.
         - by rewrite app_nil_r.
         - intros e0 [= <-]. apply call_extract_article_links_raised in Hlinks as ->.
           right. by left. }
    destruct (process_links_run links 1 (length links) (say (INFO_found_links (length links)) s1))
      as (r' & s2 & new2 & Hrun & Hlog2 & Hp2 & _ & Hsub2 & Hnew2 & He2).
    rewrite Hrun. cbn [s_log s_fs s_pending say] in Hlog2, Hsub2, Hnew2.
    rewrite Hfs1 in Hsub2, Hnew2.
    set (pre2 := pre ++ [Line (INFO_found_links (length links))]).
    assert (length (requests pre2) = get_count evs) as Hlen2
      by (unfold pre2; by rewrite requests_app, app_nil_r).
    assert (s_log s2 = s_log s ++ pre2 ++ new2) as Hlog'
      by (unfold pre2; by rewrite Hlog2, Hlog, <- !app_assoc).
    assert (is_Some (pace 2 true (pre2 ++ new2))) as Hp12.
    { apply pace_app_any; [apply Hpre|done]. }
    assert (forall more p t, s_fs s2 !! p = Some t -> s_fs s !! p = None ->
      exists listing_html links0,
        fetched (s_pending s) ((pre2 ++ new2) ++ more) base_url listing_html /\
        Call.extract_article_links U urljoin (parse_html listing_html) base_url
        = Returned links0 /\
        crawled_artifact parse_html (s_pending s) ((pre2 ++ new2) ++ more) links0 p t)
      as Hnew.
    { intros more p t H1 H2. exists (ch :: html), links.
      split; [unfold pre2; rewrite <- !app_assoc; apply Hlisting|]. split; [done|].
      apply crawled_artifact_app_l.
      apply (crawled_artifact_app_r parse_html (s_pending s) (s_pending s1) _ _ links).
      - intros n. by rewrite Hlen2.
      - done.
      - by apply Hnew2. }
    destruct r' as [[]|e].
    + eexists (Returned tt). eexists. exists ((pre2 ++ new2) ++ [Line DONE_scraping]).
      split; [done|]. cbn [s_log s_fs say].
      split; [by rewrite Hlog', <- !app_assoc|].
      split.
      { rewrite pace_app. destruct Hp12 as [b ->]. by eexists. }
      split; [done|]. split; [|done]. apply Hnew.
    + exists (Raised e), s2, (pre2 ++ new2). split; [done|].
      split; [done|]. split; [done|]. split; [done|].
      split; [|intros e0 [= <-]; by apply He2].
      intros p t H1 H2. rewrite <- (app_nil_r (pre2 ++ new2)). by apply Hnew.
  - apply (Hstop (Returned tt) (say ERROR_no_listing s1) [Line ERROR_no_listing]); done.
  - apply (Hstop (Raised e) s1 []); try done.
    + by rewrite app_nil_r.
    + by rewrite app_nil_r.
    + intros e0 [= <-]. left. by apply Hexc.
Qed.



(** X21: the crawl never sends two requests in a row: between any two
    requests of a run, whether to the same page or not, the program sleeps
    at least two seconds. *)
Theorem scrape_articles_paced (base_url : pystr) (s : session) :
  exists r s' new,
    scrape_articles U urlparse_path urljoin parse_html base_url s = Some (r, s') /\
    s_log s' = s_log s ++ new /\
    forall i j e1 e2, (i < j)%nat ->
      new !! i = Some e1 -> is_request e1 ->
      new !! j = Some e2 -> is_request e2 ->
      exists k p, (i < k < j)%nat /\ new !! k = Some p /\ is_pause 2 p.
Proof.
  destruct (scrape_articles_run base_url s) as (r & s' & new & Hrun & Hlog & Hpace & _).
  exists r, s', new. split; [done|]. split; [done|].
  by apply (pace_spec 2 new true).
Qed.

End ScrapeFacts.


(** ** The dataset builder and the table *)

Lemma keys_within (keys ks : list string) :
  forallb (fun k => existsb (String.eqb k) keys) ks = true <-> ks ⊆ keys.
Proof.
  rewrite forallb_forall. split.
  - intros H k Hk%list_elem_of_In. apply H in Hk. apply existsb_exists in Hk as (k' & Hk' & E).
    apply String.eqb_eq in E. subst k'. by apply list_elem_of_In.
  - intros H k Hk%list_elem_of_In. apply existsb_exists. exists k.
    split; [apply list_elem_of_In, H, Hk|apply String.eqb_refl].
Qed.

Lemma dict_get_absent (d : dict) (k : string) : k ∉ dict_keys d -> dict_get d k = None.
Proof.
  induction d as [|[k' v'] d IH]; cbn [dict_get dict_keys map fst]; [done|].
  intros Hk. apply not_elem_of_cons in Hk as [Hne Hk].
  destruct (String.eqb k' k) eqn:E; [apply String.eqb_eq in E; congruence|by apply IH].
Qed.

Lemma dict_values_by_key (d : dict) :
  NoDup (dict_keys d) ->
  map (fun k => default [] (dict_get d k)) (dict_keys d) = dict_values d.
Proof.
  unfold dict_keys, dict_values.
  induction d as [|[k v] d IH]; cbn [map fst snd]; [done|].
  intros [Hk Hd]%NoDup_cons. cbn [dict_get]. rewrite String.eqb_refl. cbn [default].
  f_equal. rewrite <- IH by done. apply map_ext_in. intros k' Hk'%list_elem_of_In.
  destruct (String.eqb k k') eqn:E; [|done].
  apply String.eqb_eq in E. by subst k'.
Qed.

Lemma dict_keys_set_absent (d : dict) (k : string) (v : pystr) :
  k ∉ dict_keys d -> dict_keys (dict_set d k v) = dict_keys d ++ [k].
Proof.
  induction d as [|[k' v'] d IH]; cbn [dict_keys map dict_set fst app]; [done|].
  intros Hk. apply not_elem_of_cons in Hk as [Hne Hk].
  destruct (String.eqb k' k) eqn:E; [apply String.eqb_eq in E; congruence|].
  cbn [map fst]. f_equal. by apply IH.
Qed.

Lemma NoDup_record_keys : NoDup record_keys.
Proof. apply (bool_decide_unpack _). vm_compute. reflexivity. Qed.

Lemma writable_spec (csv_row : list pystr -> pystr) (keys : list string) (d : dict) :
  writable csv_row keys d <->
  forallb (fun k => existsb (String.eqb k) keys) (dict_keys d)
  && encodable (table_row csv_row keys d) = true.
Proof. unfold writable. by rewrite andb_true_iff, keys_within. Qed.

Lemma first_unwritable (csv_row : list pystr -> pystr) (keys : list string) (data : list dict) :
  ~ Forall (writable csv_row keys) data ->
  exists pre bad post,
    data = pre ++ bad :: post /\
    Forall (writable csv_row keys) pre /\
    ~ writable csv_row keys bad.
Proof.
  induction data as [|d data IH]; intros Hnot.
  - destruct Hnot. constructor.
  - destruct (forallb (fun k => existsb (String.eqb k) keys) (dict_keys d)
              && encodable (table_row csv_row keys d)) eqn:E.
    + apply writable_spec in E.
      destruct IH as (pre & bad & post & -> & Hpre & Hbad).
      { intros Hall. apply Hnot. by constructor. }
      exists (d :: pre), bad, post. split; [done|]. split; [by constructor|done].
    + exists [], d, data. split; [done|]. split; [constructor|].
      intros Hw. apply writable_spec in Hw. congruence.
Qed.

Section TableFacts.

Variable csv_row : list pystr -> pystr.

Lemma writerows_writable (keys : list string) (data : list dict) :
  forall written,
  Forall (writable csv_row keys) data ->
  writerows csv_row keys data written
  = (Returned tt, written ++ flat_map (table_row csv_row keys) data).
Proof.
  induction data as [|d data IH]; intros written Hall; cbn [writerows flat_map].
  - by rewrite app_nil_r.
  - apply Forall_cons in Hall as [[Hd He] Hall].
    apply keys_within in Hd. rewrite Hd. fold (table_row csv_row keys d).
    rewrite He, IH by done. by rewrite <- app_assoc.
Qed.

Lemma writerows_stops (keys : list string) (pre : list dict) (bad : dict) (post : list dict) :
  forall written,
  Forall (writable csv_row keys) pre ->
  ~ writable csv_row keys bad ->
  writerows csv_row keys (pre ++ bad :: post) written
  = (Raised (if forallb (fun k => existsb (String.eqb k) keys) (dict_keys bad)
             then UnicodeEncodeError else ValueError),
     written ++ flat_map (table_row csv_row keys) pre).
Proof.
  induction pre as [|d pre IH]; intros written Hall Hbad; cbn [writerows flat_map app].
  - rewrite app_nil_r. fold (table_row csv_row keys bad).
    destruct (forallb _ (dict_keys bad)) eqn:E; [|done].
    destruct (encodable (table_row csv_row keys bad)) eqn:E'; [|done].
    destruct Hbad. apply writable_spec. by rewrite E, E'.
  - apply Forall_cons in Hall as [[Hd He] Hall].
    apply keys_within in Hd. rewrite Hd. fold (table_row csv_row keys d).
    rewrite He, IH by done. by rewrite <- app_assoc.
Qed.

(** The three ways a table can go. *)
Lemma save_to_csv_run (first : dict) (rest : list dict) (output_file : pystr) (w : world) :
  let keys := dict_keys first in
  let header := csv_row (cp <$> keys) in
  (encodable header = false /\
   save_to_csv csv_row (first :: rest) output_file w
   = (Raised UnicodeEncodeError, write_file output_file [] w)) \/
  (encodable header = true /\
   Forall (writable csv_row keys) (first :: rest) /\
   save_to_csv csv_row (first :: rest) output_file w
   = (Returned tt,
      print (SUCCESS_written output_file)
        (write_file output_file
           (header ++ flat_map (table_row csv_row keys) (first :: rest)) w))) \/
  (encodable header = true /\
   exists pre bad post,
     first :: rest = pre ++ bad :: post /\
     Forall (writable csv_row keys) pre /\
     ~ writable csv_row keys bad /\
     save_to_csv csv_row (first :: rest) output_file w
     = (Raised (if forallb (fun k => existsb (String.eqb k) keys) (dict_keys bad)
                then UnicodeEncodeError else ValueError),
        write_file output_file (header ++ flat_map (table_row csv_row keys) pre) w)).
Proof.
  intros keys header. unfold save_to_csv. fold keys.
  change (csv_row (map cp keys)) with header.
  destruct (encodable header) eqn:Hh; [|by left]. right.
  destruct (decide (Forall (fun d => forallb (fun k => existsb (String.eqb k) keys) (dict_keys d)
                                     && encodable (table_row csv_row keys d) = true)
                      (first :: rest))) as [Hall|Hnot].
  - left. split; [done|].
    assert (Forall (writable csv_row keys) (first :: rest)) as Hall'.
    { eapply Forall_impl; [exact Hall|]. intros d. apply writable_spec. }
    split; [done|]. by rewrite writerows_writable.
  - right. split; [done|].
    destruct (first_unwritable csv_row keys (first :: rest)) as (pre & bad & post & E & Hpre & Hbad).
    { intros Hall. apply Hnot. eapply Forall_impl; [exact Hall|].
      intros d. apply writable_spec. }
    exists pre, bad, post. split; [done|]. split; [done|]. split; [done|].
    rewrite E. by rewrite writerows_stops.
Qed.



End TableFacts.


Section DatasetFacts.

Variable U : unicode_db.
Variable os_listdir : pystr -> option (list pystr).

Lemma record_of_keys (files : gmap pystr pystr) (dir name : pystr) :
  dict_keys (record_of U files dir name) = record_keys.
Proof.
  unfold record_of. rewrite dict_keys_set_absent; rewrite extract_info_schema; [done|].
  vm_compute. set_solver.
Qed.

Lemma txt_names_app (l1 l2 : list pystr) : txt_names (l1 ++ l2) = txt_names l1 ++ txt_names l2.
Proof. apply List.filter_app. Qed.

(** The loop over a listing whose artifacts can all be read. *)
Lemma extract_loop_run (dir : pystr) (names : list pystr) :
  forall (data : list dict) (s : session),
  (forall name, name ∈ txt_names names -> is_Some (s_fs s !! os_path_join dir name)) ->
  exists s',
    extract_loop U dir names data s
    = (inr (data ++ (record_of U (s_fs s) dir <$> txt_names names)), s') /\
    s_fs s' = s_fs s /\
    s_log s' = s_log s ++ ((fun name => Line (INFO_extracting_from name)) <$> txt_names names).
Proof.
  induction names as [|name names IH]; intros data s Hread; cbn [extract_loop].
  - exists s. cbn. by rewrite !app_nil_r.
  - unfold txt_names in *. cbn [List.filter] in *.
    destruct (endswith (cp ".txt") name) eqn:Hend.
    + destruct (Hread name ltac:(by left)) as [stored Hstored]. rewrite Hstored.
      destruct (IH (data ++ [dict_set (extract_info_from_text U (universal_newlines stored))
                               "filename" name])
                   (say (INFO_extracting_from name) s)) as (s' & Hrun & Hfs & Hlog).
      { intros name' Hname'. cbn [s_fs say]. apply Hread. by right. }
      exists s'. rewrite Hrun. cbn [s_fs s_log say] in *.
      split; [|split; [done|by rewrite Hlog, <- app_assoc]].
      rewrite <- app_assoc. cbn [fmap list_fmap app]. unfold record_of at 2.
      by rewrite Hstored.
    + by apply IH.
Qed.



Variable csv_row : list pystr -> pystr.

Lemma record_of_row (files : gmap pystr pystr) (dir name : pystr) :
  table_row csv_row record_keys (record_of U files dir name)
  = csv_row (dict_values (record_of U files dir name)).
Proof.
  unfold table_row. rewrite <- (record_of_keys files dir name) at 1.
  rewrite dict_values_by_key; [done|]. rewrite record_of_keys. apply NoDup_record_keys.
Qed.

Lemma record_of_writable (files : gmap pystr pystr) (dir name : pystr) :
  writable csv_row record_keys (record_of U files dir name) <->
  encodable (csv_row (dict_values (record_of U files dir name))) = true.
Proof.
  unfold writable. rewrite record_of_row, record_of_keys. split; [by intros [_ ?]|done].
Qed.

(** X25: when every listed name that ends in ".txt" can be read, the
    script never ends with the [ValueError] of a record with a foreign key:
    it ends normally, or with [UnicodeEncodeError].  It ends normally
    exactly when there is no such name, or the header and the row of every
    record can be encoded in UTF-8.  Then, with no such name no file is
    written; otherwise the table file holds the header of the seven columns
    and then, for each such name in the order of the listing, the row of
    the values of its record, and no other file changes. *)
Theorem extraction_main_table (names : list pystr) (s : session) :
  os_listdir SOURCE_DIR = Some names ->
  (forall name, name ∈ txt_names names -> is_Some (s_fs s !! os_path_join SOURCE_DIR name)) ->
  let header := csv_row (cp <$> record_keys) in
  let row := fun name => csv_row (dict_values (record_of U (s_fs s) SOURCE_DIR name)) in
  exists r s',
    extraction_main U os_listdir csv_row s = (inr r, s') /\
    (r = Returned tt \/ r = Raised UnicodeEncodeError) /\
    (r = Returned tt <->
     txt_names names = [] \/
     (encodable header = true /\
      Forall (fun name => encodable (row name) = true) (txt_names names))) /\
    (r = Returned tt ->
     s_fs s' =
       match txt_names names with
       | [] => s_fs s
       | _ => <[OUTPUT_CSV := header ++ flat_map row (txt_names names)]> (s_fs s)
       end).
Proof.
  intros Hlist Hread header row. unfold extraction_main, extract_all_articles. rewrite Hlist.
  destruct (extract_loop_run SOURCE_DIR names [] (say START_extracting s) Hread)
    as (s' & Hrun & Hfs & _).
  rewrite Hrun. cbn [app s_fs say] in *.
  destruct (txt_names names) as [|name rest] eqn:Htxt; cbn [fmap list_fmap].
  { cbn [save_to_csv]. eexists. eexists. split; [reflexivity|].
    split; [by left|]. split; [split; [by left|done]|]. done. }
  set (first := record_of U (s_fs s) SOURCE_DIR name).
  set (others := record_of U (s_fs s) SOURCE_DIR <$> rest).
  assert (dict_keys first = record_keys) as Hkeys by apply record_of_keys.
  assert (forall l, Forall (writable csv_row record_keys) (record_of U (s_fs s) SOURCE_DIR <$> l)
                    <-> Forall (fun name => encodable (row name) = true) l) as Hrows.
  { intros l. rewrite Forall_fmap. apply Forall_iff. intros n. apply record_of_writable. }
  assert (forall l, flat_map (table_row csv_row record_keys) (record_of U (s_fs s) SOURCE_DIR <$> l)
                    = flat_map row l) as Htable.
  { induction l as [|n l IH]; [done|]. cbn [fmap list_fmap flat_map].
    by rewrite record_of_row, IH. }
  change (first :: others) with (record_of U (s_fs s) SOURCE_DIR <$> (name :: rest)).
  destruct (save_to_csv_run csv_row first others OUTPUT_CSV (world_of s'))
    as [[Hh Hsave]|[(Hh & Hall & Hsave)|(Hh & pre & bad & post & E & Hpre & Hbad & Hsave)]];
    rewrite Hkeys in *; fold header in Hh;
    change (first :: others) with (record_of U (s_fs s) SOURCE_DIR <$> (name :: rest)) in *;
    rewrite Hsave; eexists; eexists; (split; [reflexivity|]).
  - split; [by right|]. split; [|done].
    split; [done|]. intros [?|[? _]]; [done|congruence].
  - split; [by left|]. split.
    { split; [|done]. intros _. right. split; [done|]. by apply Hrows. }
    intros _. cbn [s_fs after_call fs print emit write_file world_of].
    by rewrite Hfs, Htable.
  - assert (bad ∈ (record_of U (s_fs s) SOURCE_DIR <$> name :: rest)) as Hin
      by (rewrite E; apply elem_of_app; right; by left).
    apply list_elem_of_fmap in Hin as (n & -> & _).
    assert (forallb (fun k => existsb (String.eqb k) record_keys)
              (dict_keys (record_of U (s_fs s) SOURCE_DIR n)) = true) as ->.
    { apply keys_within. by rewrite record_of_keys. }
    split; [by right|]. split; [|done].
    split; [done|]. intros [?|[_ Hall]]; [done|].
    apply Hrows in Hall. rewrite E in Hall. apply Forall_app in Hall as [_ Hall].
    by apply Forall_cons in Hall as [? _].
Qed.


End DatasetFacts.


Lemma extraction_main_table_witness :
  exists r s',
    extraction_main ascii_db one_artifact_listing bare_row one_artifact_session = (inr r, s') /\
    (r = Returned tt \/ r = Raised UnicodeEncodeError).
Proof.
  destruct (extraction_main_table ascii_db one_artifact_listing bare_row
              [cp "notes.md"; cp "acme.txt"] one_artifact_session)
    as (r & s' & Hrun & Hr & _).
  - reflexivity.
  - intros name Hname. vm_compute in Hname.
    apply list_elem_of_singleton in Hname as ->. vm_compute. by eexists.
  - by exists r, s'.
Defined.


(** ** From the crawl to the dataset *)

Lemma universal_newlines_cons_ne (c : N) (s : pystr) :
  c <> 13 -> universal_newlines (c :: s) = c :: universal_newlines s.
Proof.
  intros Hne. destruct c as [|p]; [done|].
  do 4 (try (destruct p as [p|p|]; try done)).
Qed.

Lemma universal_newlines_app_plain (l t : pystr) :
  Forall (fun c => c <> 13) l -> universal_newlines (l ++ t) = l ++ universal_newlines t.
Proof.
  induction l as [|c l IH]; [done|]. intros [Hc Hl]%Forall_cons.
  cbn [app]. rewrite universal_newlines_cons_ne by done. by rewrite IH.
Qed.

(** X27: the crawl and the extraction agree on the URL across the file.
    When the file of a listed name holds the artifact of an http or https
    URL without white space, the record made from that name has that URL as
    its article_url, whatever the title and the body hold and however the
    line ends of the file are read. *)
Theorem record_of_artifact_url (U : unicode_db) (files : gmap pystr pystr)
    (dir name title url content : pystr) (scheme : string) (rest : pystr) :
  files !! os_path_join dir name = Some (artifact_text title url content) ->
  url = cp scheme ++ rest ->
  scheme = "http://"%string \/ scheme = "https://"%string ->
  rest <> [] ->
  Forall (fun c => is_space c = false) rest ->
  dict_get (record_of U files dir name) "article_url" = Some url.
Proof.
  intros Hfile -> Hscheme Hne Hrest. unfold record_of. rewrite Hfile. change (default [] (Some ?x)) with x.
  rewrite dict_get_set_ne by done.
  assert (universal_newlines (artifact_text title (cp scheme ++ rest) content)
          = cp "Source: " ++ (cp scheme ++ rest) ++ [10]
            ++ universal_newlines
                 ((cp "Title: " ++ title ++ [10]) ++ (repeat 61 80 ++ [10; 10]) ++ content))
    as ->.
  { unfold artifact_text.
    rewrite <- (app_assoc (cp "Source: ")), <- (app_assoc (cp scheme ++ rest)).
    change ([10] ++ ?t) with (10 :: t).
    rewrite (universal_newlines_app_plain (cp "Source: ")).
    2: { repeat (constructor; [done|]). constructor. }
    rewrite (universal_newlines_app_plain (cp scheme ++ rest)).
    2: { apply Forall_app. split.
         - destruct Hscheme as [-> | ->]; repeat (constructor; [done|]); constructor.
         - eapply Forall_impl; [exact Hrest|]. intros c Hc ->. done. }
    by rewrite universal_newlines_cons_ne. }
  by apply source_line_article_url.
Qed.

Lemma record_of_artifact_url_witness :
  dict_get
    (record_of ascii_db
       {[ cp "articles/acme.txt" :=
            artifact_text (cp "Acme raises funds") (cp "https://x.test/news/acme") (cp "Body") ]}
       SOURCE_DIR (cp "acme.txt"))
    "article_url"
  = Some (cp "https://x.test/news/acme").
Proof.
  apply (record_of_artifact_url ascii_db _ _ _ (cp "Acme raises funds") _ (cp "Body")
           "https://" (cp "x.test/news/acme")).
  - vm_compute. reflexivity.
  - reflexivity.
  - by right.
  - done.
  - repeat (constructor; [vm_compute; reflexivity|]). constructor.
Defined.
